(** * XSwinDiffusion: a shallow embedding of the tensor plumbing, the losses,
      the stochastic-depth schedule and the pose dataset indexer.

    Sources embedded here:
    - [src/models/xswin.py]: [_pad_expansion], [_patch_expanding_pad],
      [PatchExpandingV2.forward], [_extract_windows],
      [SwinResidualCrossAttention.forward], the block construction loops
      of [XNetSwinTransformer.__init__] and the encoder, middle and decoder
      loops of [XNetSwinTransformer.forward];
    - [src/models/modules/geodesic_loss.py]:
      [SpecialEuclideanGeodesicLoss.forward],
      [SpecialOrthogonalLoss.forward] and [PointCloudMSELoss.forward];
    - [src/models/modules/modulated/vit_block.py]:
      [ViTEncoderBlock_Modulated.forward];
    - [src/pose_estimation/pose_data_class.py]: [PoseData].

    Conventions.  A Python exception is a value of [Py.exn]; a call that may
    raise returns [Py.result].  A tensor is a shape together with its
    elements in row-major order, which is what a contiguous torch tensor is.
    Floating-point numbers are real numbers in the losses, where nothing
    is compared for equality up to rounding; the stochastic-depth schedule
    is computed in Python's own floats, the binary64 numbers with rounding
    to nearest of [Binary64]. *)

From Stdlib Require Import List ZArith Lia Reals Lra QArith Ascii String.
From Stdlib Require Import Qround.
From Stdlib Require Lqa Floats.
From stdpp Require Import gmap strings list fin_maps.
Import ListNotations.

#[local] Open Scope nat_scope.

(* ===================================================================== *)
(** * Part I: the model                                                   *)
(* ===================================================================== *)

(** ** Python exceptions and the error monad *)

Module Py.

Inductive exn : Set :=
| IndexError
| KeyError
| ValueError
| TypeError
| RuntimeError
| AssertionError
| NotImplementedError
| OverflowError
| UnboundLocalError
| OSError.

Inductive result (T : Type) : Type :=
| Ok (v : T)
| Raise (e : exn).

Arguments Ok {T} v.
Arguments Raise {T} e.

Definition bind {T U : Type} (c : result T) (k : T -> result U) : result U :=
  match c with
  | Ok v => k v
  | Raise e => Raise e
  end.

#[global] Instance result_ret : MRet result := fun _ v => Ok v.
#[global] Instance result_bind : MBind result := fun _ _ k c => bind c k.

(** [for x in l: acc = body(acc, x)], stopping at the first exception. *)
Fixpoint foldM {T S : Type} (body : S -> T -> result S) (acc : S) (l : list T)
  : result S :=
  match l with
  | [] => Ok acc
  | x :: l' => acc' ← body acc x; foldM body acc' l'
  end.

(** [[f(x) for x in l]], stopping at the first exception. *)
Fixpoint traverse {T U : Type} (f : T -> result U) (l : list T)
  : result (list U) :=
  match l with
  | [] => Ok []
  | x :: l' => y ← f x; ys ← traverse f l'; Ok (y :: ys)
  end.

Definition is_ok {T : Type} (c : result T) : bool :=
  match c with Ok _ => true | Raise _ => false end.

(** [l[idx]] on a Python list: a negative index counts from the end. *)
Definition list_getitem {T : Type} (l : list T) (idx : Z) : result T :=
  let n := Z.of_nat (length l) in
  let i := if (idx <? 0)%Z then (idx + n)%Z else idx in
  if ((0 <=? i) && (i <? n))%Z
  then match l !! Z.to_nat i with
       | Some x => Ok x
       | None => Raise IndexError
       end
  else Raise IndexError.

(** [list(range(start, stop, step))] for a non-zero [step]. *)
Definition range (start stop step : Z) : list Z :=
  let count :=
    if (0 <? step)%Z then ((stop - start + step - 1) / step)%Z
    else ((start - stop - step - 1) / (- step))%Z in
  map (fun k => (start + Z.of_nat k * step)%Z) (seq 0 (Z.to_nat count)).

(** [int(b)]. *)
Definition int_of_bool (b : bool) : Z := if b then 1%Z else 0%Z.

End Py.

Export Py(exn(..), result(..)).

(** ** Tensors: shape and row-major contents *)

Module Torch.

(** The element type of a tensor, with the value used for constant padding. *)
Class Dtype (A : Type) := { zero : A }.

Record Tensor (A : Type) : Type := mkTensor {
  shape : list nat;
  data : list A
}.

Arguments mkTensor {A} shape data.
Arguments shape {A} t.
Arguments data {A} t.

(** [torch.Size.numel]. *)
Definition numel (s : list nat) : nat := fold_right Nat.mul 1 s.

(** A tensor value holds exactly [numel] elements. *)
Definition wf {A : Type} (t : Tensor A) : Prop :=
  length (data t) = numel (shape t).

Definition dim {A : Type} (t : Tensor A) : nat := length (shape t).

(** Row-major offset of a multi-index. *)
Fixpoint ravel (s idx : list nat) : nat :=
  match s, idx with
  | _ :: s', i :: idx' => i * numel s' + ravel s' idx'
  | _, _ => 0
  end.

(** All multi-indices of a shape, in row-major order. *)
Fixpoint indices (s : list nat) : list (list nat) :=
  match s with
  | [] => [[]]
  | n :: s' => flat_map (fun i => map (cons i) (indices s')) (seq 0 n)
  end.

(** In-range test for a multi-index. *)
Fixpoint in_range (s idx : list nat) : bool :=
  match s, idx with
  | [], [] => true
  | n :: s', i :: idx' => (i <? n) && in_range s' idx'
  | _, _ => false
  end.

Section Ops.
Context {A : Type} `{Dtype A}.

(** [t[idx]] for an in-range multi-index. *)
Definition get (t : Tensor A) (idx : list nat) : A :=
  nth (ravel (shape t) idx) (data t) zero.

(** The tensor of shape [s] whose element at [idx] is [f idx]. *)
Definition build (s : list nat) (f : list nat -> A) : Tensor A :=
  mkTensor s (map f (indices s)).

(** A dimension argument, negative ones counting from the end. *)
Definition wrap_dim (rank : nat) (d : Z) : result nat :=
  if ((0 <=? d) && (d <? Z.of_nat rank))%Z then Ok (Z.to_nat d)
  else if ((- Z.of_nat rank <=? d) && (d <? 0))%Z
       then Ok (Z.to_nat (d + Z.of_nat rank))
       else Raise IndexError.

Fixpoint no_repeat (l : list nat) : bool :=
  match l with
  | [] => true
  | x :: l' => negb (existsb (Nat.eqb x) l') && no_repeat l'
  end.

(** Position of the first [j] in [l]. *)
Fixpoint index_of (j : nat) (l : list nat) : nat :=
  match l with
  | [] => 0
  | x :: l' => if x =? j then 0 else S (index_of j l')
  end.

(** Replace position [d] of [l]. *)
Fixpoint set_nth {T : Type} (d : nat) (v : T) (l : list T) : list T :=
  match d, l with
  | _, [] => []
  | 0, _ :: l' => v :: l'
  | S d', x :: l' => x :: set_nth d' v l'
  end.

(** [Tensor.permute] with the axes [dims]: axis [k] of the result is axis [dims[k]] of
    the argument. *)
Definition permute (t : Tensor A) (dims : list Z) : result (Tensor A) :=
  let r := dim t in
  if negb (length dims =? r) then Raise RuntimeError
  else
    ds ← Py.traverse (wrap_dim r) dims;
    if negb (no_repeat ds) then Raise RuntimeError
    else Ok (build (map (fun d => nth d (shape t) 0) ds)
               (fun idx =>
                  get t (map (fun j => nth (index_of j ds) idx 0) (seq 0 r)))).

(** [Tensor.unfold(dimension, size, step)]: axis [dimension] is cut into
    the slices [k*step .. k*step + size - 1], as many as fit entirely; the
    position inside a slice becomes a new last axis. *)
Definition unfold (t : Tensor A) (dimension : Z) (size step : nat)
  : result (Tensor A) :=
  d ← wrap_dim (dim t) dimension;
  let n := nth d (shape t) 0 in
  if n <? size then Raise RuntimeError
  else if step =? 0 then Raise RuntimeError
  else
    let r := dim t in
    Ok (build (set_nth d ((n - size) / step + 1) (shape t) ++ [size])
          (fun idx =>
             get t (set_nth d (nth d idx 0 * step + nth r idx 0)
                      (firstn r idx)))).

(** [Tensor.view] and [Tensor.reshape] with every size
    given: same elements in the same row-major order. *)
Definition reshape (t : Tensor A) (s : list nat) : result (Tensor A) :=
  if numel s =? numel (shape t) then Ok (mkTensor s (data t))
  else Raise RuntimeError.

Definition view := reshape.

(** [Tensor.reshape] with a leading [-1]: the leading size is inferred. *)
Definition reshape_infer (t : Tensor A) (rest : list nat)
  : result (Tensor A) :=
  let p := numel rest in
  if p =? 0 then Raise RuntimeError
  else if negb (numel (shape t) mod p =? 0) then Raise RuntimeError
  else Ok (mkTensor (numel (shape t) / p :: rest) (data t)).

(** [F.pad(t, (0, p), "constant", 0)]: [p] zeros after the last axis. *)
Definition pad_last (t : Tensor A) (p : nat) : result (Tensor A) :=
  match rev (shape t) with
  | [] => Raise RuntimeError
  | c :: front =>
      Ok (build (rev front ++ [c + p])
            (fun idx => if List.last idx 0 <? c then get t idx else zero))
  end.

End Ops.

End Torch.

(** ** [src/models/xswin.py]: padding, patch expanding, windows *)

Module XSwin.
Import Torch.

Section Plumbing.
Context {A : Type} `{Dtype A}.

(** [_pad_expansion(x, distributed)]. *)
Definition _pad_expansion (x : Tensor A) (distributed : bool)
  : result (Tensor A) :=
  match rev (shape x) with
  | C :: W :: H :: B =>
      let pad_c := (4 - C mod 4) mod 4 in
      if pad_c =? 0 then Ok x
      else if negb distributed then pad_last x pad_c
      else Raise NotImplementedError
  | _ => Raise ValueError
  end.

(** [_patch_expanding_pad(x)]. *)
Definition _patch_expanding_pad (x : Tensor A) : result (Tensor A) :=
  match rev (shape x) with
  | C_QUAD :: W_HALF :: H_HALF :: Brev =>
      let B := rev Brev in
      let C := C_QUAD / 4 in
      x ← _pad_expansion x false;
      x ← view x (B ++ [H_HALF; W_HALF; 2; 2; C]);
      x ← permute x [0; 1; 3; 2; 4; 5]%Z;
      x ← view x (B ++ [H_HALF * 2; W_HALF * 2; C]);
      Ok x
  | _ => Raise ValueError
  end.

(** [_extract_windows(feature_map, window_height, window_width,
    stride_height, stride_width)]; [None] is Python's [None] default. *)
Definition _extract_windows (feature_map : Tensor A)
    (window_height window_width : nat)
    (stride_height stride_width : option nat) : result (Tensor A) :=
  let stride_height := default window_height stride_height in
  let stride_width := default window_width stride_width in
  match rev (shape feature_map) with
  | _ :: _ :: _ :: _ =>
      unfolded_height ← unfold feature_map (-3) window_height stride_height;
      unfolded_both ← unfold unfolded_height (-3) window_width stride_width;
      windows ← permute unfolded_both [0; -5; -4; -2; -1; -3]%Z;
      match rev (shape windows) with
      | C :: W_window :: H_window :: W_unfolded :: H_unfolded :: Brev =>
          reshape windows
            (rev Brev ++
               [H_unfolded; W_unfolded; window_height * window_width; C])
      | _ => Raise ValueError
      end
  | _ => Raise ValueError
  end.

(** Lines 140-142 of [SwinResidualCrossAttention.forward]: windows of shape
    [B ++ [H; W; WINDOW; C]] back to a feature map. *)
Definition merge_windows (window_height window_width : nat)
    (B : list nat) (H W C : nat) (attended_residuals : Tensor A)
  : result (Tensor A) :=
  t ← reshape attended_residuals
        (B ++ [H; W; window_height; window_width; C]);
  t ← permute t [0; -5; -3; -4; -2; -1]%Z;
  reshape t (B ++ [H * window_height; W * window_width; C]).

(** A [SwinResidualCrossAttention] module after [__init__]: the window size
    and the [nn.MultiheadAttention] layer, a learned function of the
    query, key and value batches that this development leaves open. *)
Record SwinResidualCrossAttention : Type := {
  window_height : nat;
  window_width : nat;
  cross_attention : Tensor A -> Tensor A -> Tensor A -> result (Tensor A)
}.

(** Lines 133-144 of [SwinResidualCrossAttention.forward]: attention over
    the flattened windows, then the merge. *)
Definition attend (self : SwinResidualCrossAttention)
    (x_context residual_context : Tensor A) : result (Tensor A) :=
  match rev (shape residual_context) with
  | C :: WINDOW :: W :: H :: Brev =>
      Q ← reshape_infer x_context [WINDOW; C];
      K ← reshape_infer residual_context [WINDOW; C];
      attended_residuals ← cross_attention self Q K K;
      merge_windows (window_height self) (window_width self)
        (rev Brev) H W C attended_residuals
  | _ => Raise ValueError
  end.

(** [SwinResidualCrossAttention.forward(x, residual)]: lines 128-131, the
    two extractions and the shape assertion, then [attend]. *)
Definition forward (self : SwinResidualCrossAttention)
    (x residual : Tensor A) : result (Tensor A) :=
  x_context ←
    _extract_windows x (window_height self) (window_width self) None None;
  residual_context ←
    _extract_windows residual (window_height self) (window_width self)
      None None;
  if negb (bool_decide (shape x_context = shape residual_context))
  then Raise AssertionError
  else attend self x_context residual_context.

End Plumbing.

Arguments SwinResidualCrossAttention A : clear implicits.

(** Number of whole windows of size [w] along an axis of size [n] when the
    stride is the window size, as [unfold] computes it. *)
Definition window_count (n w : nat) : nat := (n - w) / w + 1.

(** *** [PatchExpandingV2] *)

Module PatchExpanding.
Section Layer.
Context {A : Type} `{Dtype A}.

(** A [PatchExpandingV2] module after [__init__]: [expansion] is the
    [nn.Linear(dim, 2 * dim, bias=False)] layer and [norm] the
    normalisation layer over [2 * dim] channels, learned functions that
    this development leaves open. *)
Record PatchExpandingV2 : Type := {
  dim : nat;
  expansion : Tensor A -> result (Tensor A);
  norm : Tensor A -> result (Tensor A)
}.

(** [PatchExpandingV2.forward(x)]. *)
Definition forward (self : PatchExpandingV2) (x : Tensor A)
  : result (Tensor A) :=
  x ← expansion self x;
  x ← norm self x;
  _patch_expanding_pad x.

End Layer.

Arguments PatchExpandingV2 A : clear implicits.

End PatchExpanding.

End XSwin.

(** The element type used in the examples: integers. *)
#[global] Instance Z_dtype : Torch.Dtype Z := {| Torch.zero := 0%Z |}.

(** ** [src/models/modules/geodesic_loss.py]: the SE(3) geodesic loss *)

Module GeodesicLoss.
#[local] Open Scope R_scope.

(** A rigid transform as the loss reads it: [T i j] is the entry in row [i]
    and column [j] of a 3x4 (or 4x4) matrix; rows [0..2] and columns
    [0..3] are the ones read.  A batch is the list of its transforms. *)
Definition Transform : Type := nat -> nat -> R.
Definition Batch : Type := list Transform.

(** A 0-dimensional float tensor; [None] is [nan]. *)
Definition scalar : Type := option R.

Definition sum (l : list R) : R := fold_right Rplus 0 l.

(** [torch.mean] of a 1-dimensional tensor: [nan] when it is empty. *)
Definition mean (l : list R) : scalar :=
  match l with
  | [] => None
  | _ :: _ => Some (sum l / INR (length l))
  end.

(** [torch.norm(t)] without [dim]: the 2-norm of all entries together. *)
Definition norm (entries : list R) : R :=
  sqrt (sum (map (fun v => v * v) entries)).

(** [torch.clamp(x, lo, hi)]. *)
Definition clamp (x lo hi : R) : R := Rmin (Rmax x lo) hi.

(** [T[:3, 3]] and [T[:3, :3]]. *)
Definition translation (T : Transform) : list R :=
  map (fun i => T i 3%nat) (seq 0 3).

Definition rotation (T : Transform) : nat -> nat -> R :=
  fun i j => T i j.

(** One batch entry of [torch.bmm(P, Q.transpose(-2, -1))] on 3x3 blocks. *)
Definition matmul_transpose (P Q : nat -> nat -> R) : nat -> nat -> R :=
  fun i j => sum (map (fun k => P i k * Q j k) (seq 0 3)).

(** [torch.diagonal(M, dim1=-2, dim2=-1).sum(dim=-1)]. *)
Definition trace (M : nat -> nat -> R) : R :=
  sum (map (fun i => M i i) (seq 0 3)).

(** All nine entries of a 3x3 block. *)
Definition entries (M : nat -> nat -> R) : list R :=
  flat_map (fun i => map (fun j => M i j) (seq 0 3)) (seq 0 3).

Definition eye (i j : nat) : R := if (i =? j)%nat then 1 else 0.

(** Entrywise difference of two lists of the same length. *)
Definition sub (u v : list R) : list R :=
  map (fun '(a, b) => a - b) (combine u v).

(** [translation_loss = torch.norm(p_T - t_T).mean()]: one norm over the
    whole [B x 3] difference; the mean of that single number is itself. *)
Definition translation_loss (predicted target : Batch) : R :=
  let p_T := map translation predicted in
  let t_T := map translation target in
  norm (concat (map (fun '(p, t) => sub p t) (combine p_T t_T))).

(** [theta] for one sample, lines 35-41. *)
Definition theta (p t : Transform) : R :=
  let relative_rotation := matmul_transpose (rotation p) (rotation t) in
  let batch_trace := trace relative_rotation in
  let cos_theta := (batch_trace - 1) / 2 in
  let cos_theta := clamp cos_theta (-0.9999) 0.9999 in
  acos cos_theta.

(** [rotation_loss = torch.mean(theta)]. *)
Definition rotation_loss (predicted target : Batch) : scalar :=
  mean (map (fun '(p, t) => theta p t) (combine predicted target)).

(** [torch.norm(p_R @ p_R^T - I, dim=(-2, -1)).mean()]: one Frobenius norm
    per sample, then the mean over the batch. *)
Definition ortho_loss (predicted : Batch) : scalar :=
  mean (map (fun p =>
               let M := matmul_transpose (rotation p) (rotation p) in
               norm (entries (fun i j => M i j - eye i j)))
          predicted).

(** The module after [__init__]: [SO_weight] is [Some w] when it was given
    as an [int] or a [float] (then [SO_Loss] is [True]), [None] otherwise. *)
Record SpecialEuclideanGeodesicLoss : Type := {
  SO_weight : option R
}.

(** [torch.stack(losses)], a [nan] entry staying [nan], and its mean. *)
Definition stack_mean (losses : list scalar) : scalar :=
  match mapM (fun s : option R => s) losses with
  | Some l => mean l
  | None => None
  end.

(** What [forward] returns: the stacked terms when [components] is set,
    their mean otherwise. *)
Inductive output : Type :=
| Terms (losses : list scalar)
| Mean (loss : scalar).

(** [forward(predicted_transform, target_transform, components)].  Batches
    of different sizes make [torch.bmm] (or the subtraction) raise. *)
Definition forward (self : SpecialEuclideanGeodesicLoss)
    (predicted_transform target_transform : Batch) (components : bool)
  : result output :=
  if negb (length predicted_transform =? length target_transform)%nat
  then Raise RuntimeError
  else
    let translation_loss :=
      translation_loss predicted_transform target_transform in
    let rotation_loss := rotation_loss predicted_transform target_transform in
    let losses := [rotation_loss; Some translation_loss] in
    let losses :=
      match SO_weight self with
      | Some w =>
          losses ++ [(fun o => o * w) <$> ortho_loss predicted_transform]
      | None => losses
      end in
    if components then Ok (Terms losses) else Ok (Mean (stack_mean losses)).

(** The formula of the specification for the translation term: the mean
    over the batch of the Euclidean norm of each sample's translation
    difference. *)
Definition mean_translation_norm (predicted target : Batch) : scalar :=
  mean (map (fun '(p, t) => norm (sub (translation p) (translation t)))
          (combine predicted target)).

(** The rotation block is orthogonal: [R R^T = I]. *)
Definition orthogonal (T : Transform) : Prop :=
  forall i j, (i < 3)%nat -> (j < 3)%nat ->
    matmul_transpose (rotation T) (rotation T) i j = eye i j.

(** The module built by [SpecialEuclideanGeodesicLoss()], with the default
    [SO_weight=0.1]. *)
Definition default_loss : SpecialEuclideanGeodesicLoss :=
  {| SO_weight := Some 0.1 |}.

(** The identity transform, and the identity moved by a translation. *)
Definition identity_transform : Transform := fun i j => eye i j.

Definition translated (tx ty tz : R) : Transform :=
  fun i j =>
    if (j =? 3)%nat then nth i [tx; ty; tz] 0 else eye i j.

(** *** [SpecialOrthogonalLoss] and [PointCloudMSELoss] *)

(** A batch of matrices, a tensor of shape [[B, rows, cols]]: [M i j] is
    the entry in row [i] and column [j] of one of them. *)
Record Matrices : Type := {
  rows : nat;
  cols : nat;
  matrices : list (nat -> nat -> R)
}.

(** One batch entry of [torch.bmm(R, R.transpose(-2, -1))] for matrices with
    [m] columns. *)
Definition gram (m : nat) (M : nat -> nat -> R) : nat -> nat -> R :=
  fun i j => sum (map (fun k => M i k * M j k) (seq 0 m)).

(** All entries of an [n x n] block. *)
Definition square_entries (n : nat) (M : nat -> nat -> R) : list R :=
  flat_map (fun i => map (fun j => M i j) (seq 0 n)) (seq 0 n).

(** Body of the loop of [SpecialOrthogonalLoss.forward], lines 69-73. *)
Definition orthogonality_term (Rs : Matrices) : result scalar :=
  let row := rows Rs in
  let col := cols Rs in
  if negb (row =? col)%nat then Raise AssertionError
  else
    Ok (mean (map (fun M =>
                     norm (square_entries row
                             (fun i j => gram col M i j - eye i j)))
                (matrices Rs))).

(** [SpecialOrthogonalLoss(weight).forward(rotations)]; [torch.stack]
    refuses an empty list. *)
Definition SpecialOrthogonalLoss_forward (weight : R)
    (rotations : list Matrices) : result scalar :=
  losses ← Py.traverse orthogonality_term rotations;
  match losses with
  | [] => Raise RuntimeError
  | _ :: _ => Ok ((fun loss => loss * weight) <$> stack_mean losses)
  end.

(** Every matrix of the batch is square and orthogonal. *)
Definition orthogonal_batch (Rs : Matrices) : Prop :=
  rows Rs = cols Rs /\
  Forall (fun M =>
            forall i j, (i < rows Rs)%nat -> (j < rows Rs)%nat ->
              gram (cols Rs) M i j = eye i j)
    (matrices Rs).

(** A tensor of shape [[B, N, 3]] or [[B, 3, 4]], by its entries. *)
Definition Cloud : Type := nat -> nat -> nat -> R.

(** All entries of a [[B, N, 3]] tensor, in row-major order. *)
Definition cloud_entries (B N : nat) (t : Cloud) : list R :=
  flat_map (fun b =>
              flat_map (fun n => map (fun i => t b n i) (seq 0 3)) (seq 0 N))
    (seq 0 B).

(** [torch.bmm(source, R.transpose(-2, -1)) + T.unsqueeze(-2)] with
    [R = pose[:, :, :3]] and [T = pose[:, :, 3]]. *)
Definition source_transformed (source pose : Cloud) : Cloud :=
  fun b n i =>
    sum (map (fun k => source b n k * pose b i k) (seq 0 3)) + pose b i 3%nat.

(** [F.mse_loss(a, b)] on two [[B, N, 3]] tensors. *)
Definition mse_loss (B N : nat) (a b : Cloud) : scalar :=
  mean (cloud_entries B N
          (fun b' n i => (a b' n i - b b' n i) * (a b' n i - b b' n i))).

(** [PointCloudMSELoss(weight).forward(source, target, pose)] for [source]
    and [target] of shape [[B, N, 3]] and [pose] of shape [[B, 3, 4]]. *)
Definition PointCloudMSELoss_forward (weight : R) (B N : nat)
    (source target pose : Cloud) : scalar :=
  (fun loss => loss * weight) <$>
    mse_loss B N (source_transformed source pose) target.

End GeodesicLoss.

(** ** Python's floats: the binary64 numbers, with rounding to nearest *)

Module Binary64.

(** A finite float is the rational number it stands for, [-0.0] being [0];
    [None] stands for the floats that are no such number, the infinities
    and NaN.  An operation of Python on floats gives the exact result
    rounded to the nearest float, and to the one with the even last bit
    when two floats are as near. *)
Definition float : Type := option Q.

(** The nearest whole number, the even one when two are as near. *)
Definition nearest_even (x : Q) : Z :=
  let n := Qfloor x in
  match (x - inject_Z n ?= 1 # 2)%Q with
  | Lt => n
  | Eq => if Z.even n then n else (n + 1)%Z
  | Gt => (n + 1)%Z
  end.

(** On the scale of [2^-1074], the smallest positive float, the floats from
    0 on are the numbers [m * 2^e] with [m < 2^53] and [0 <= e].  Around
    the scaled number [s] they lie [2^e] apart, where [e] is 0 below [2^53]
    (the subnormal numbers and the first normal ones) and one more each
    time [s] doubles: 53 bits for every number. *)
Definition ulp_exponent (s : Q) : Z := Z.max (Z.log2 (Qfloor s) - 52) 0.

(** The scaled number [s], rounded to a float of that scale. *)
Definition round_scaled (s : Q) : Z :=
  let e := ulp_exponent s in
  (nearest_even (s / inject_Z (2 ^ e)) * 2 ^ e)%Z.

(** The float nearest to [a], for [0 <= a]; what rounds to [2^1024] or more
    is infinity. *)
Definition round_nonneg (a : Q) : float :=
  let r := round_scaled (a * inject_Z (2 ^ 1074)) in
  if (2 ^ 2098 <=? r)%Z then None
  else Some (Qred (inject_Z r / inject_Z (2 ^ 1074))).

(** The float nearest to [q]. *)
Definition round (q : Q) : float :=
  if Qle_bool 0 q then round_nonneg q
  else option_map Qopp (round_nonneg (- q)).

(** [float(z)] for an [int].  From [2^1024] on Python raises
    [OverflowError], which is [None] here. *)
Definition of_int (z : Z) : float := round (inject_Z z).

(** [a * b]. *)
Definition mul (a b : float) : float :=
  match a, b with
  | Some x, Some y => round (x * y)
  | _, _ => None
  end.

(** [a / y] for a finite divisor.  For the divisor 0 Python raises
    [ZeroDivisionError], which is [None] here. *)
Definition div (a : float) (y : Q) : float :=
  match a with
  | Some x => if Qeq_bool y 0 then None else round (x / y)
  | None => None
  end.

(** The number that a binary64 float of Rocq's kernel stands for, to compare
    the operations above with the kernel's. *)
Definition of_kernel (f : PrimFloat.float) : float :=
  match FloatOps.Prim2SF f with
  | SpecFloat.S754_zero _ => Some 0%Q
  | SpecFloat.S754_finite s m e =>
      Some (Qred ((if s then - 1 else 1) * inject_Z (Zpos m) * 2 ^ e)%Q)
  | _ => None
  end.

End Binary64.

(** ** [src/models/xswin.py]: the block construction loops of
       [XNetSwinTransformer.__init__] *)

Module XNet.

(** The sub-modules the loops create, with the arguments they are given.
    The constructors of torchvision ([SwinTransformerBlockV2],
    [PatchMergingV2], [EncoderBlock]) are taken as plain records of their
    arguments. *)
#[local] Unset Elimination Schemes.

Inductive layer : Type :=
| SwinTransformerBlockV2 (dim num_heads : nat) (window_size shift_size : list nat)
    (mlp_ratio dropout attention_dropout : Q)
    (stochastic_depth_prob : Binary64.float)
| PatchMergingV2 (dim : nat)
| PatchExpandingV2 (dim : nat)
| SwinResidualCrossAttention (window_size : list nat) (embed_dim num_heads : nat)
    (attention_dropout : Q)
| PointwiseConvolution (in_channels out_channels : nat)
| ViTEncoderBlock (num_heads hidden_dim : nat) (mlp_dim : Z)
    (dropout attention_dropout : Q)
| Sequential (modules : list layer).

#[local] Set Elimination Schemes.

(** The arguments of [__init__] that the loops read; the floats among them
    are finite, and given as the rationals they stand for. *)
Record Config : Type := {
  embed_dim : nat;
  depths : list nat;
  num_heads : list nat;
  window_size : list nat;
  mlp_ratio : Q;
  dropout : Q;
  attention_dropout : Q;
  stochastic_depth_prob : Q;
  middle_stages : Z;
  final_downsample : bool;
  cross_attention_residual : bool
}.

Record XNetSwinTransformer : Type := {
  encoder : list layer;
  middle : list layer;
  decoder : list layer
}.

(** [l[i]] for [i >= 0]. *)
Definition index {T : Type} (l : list T) (i : nat) : result T :=
  match nth_error l i with
  | Some v => Ok v
  | None => Raise IndexError
  end.

(** [l[-1]]. *)
Definition index_last {T : Type} (l : list T) : result T :=
  match rev l with
  | v :: _ => Ok v
  | [] => Raise IndexError
  end.

(** [int(q)]: truncation toward zero. *)
Definition int_of_Q (q : Q) : Z := Z.quot (Qnum q) (Zpos (Qden q)).

(** The "dropout scheduler" of lines 222 and 287:
    [stochastic_depth_prob * float(stage_block_id) / (2*total_stage_blocks - 1)],
    for a finite [stochastic_depth_prob].  The product is a float, and so
    is the quotient, for which Python turns the [int] divisor into a
    float. *)
Definition sd_prob (stochastic_depth_prob : Q)
    (stage_block_id total_stage_blocks : nat) : Binary64.float :=
  match Binary64.of_int (2 * Z.of_nat total_stage_blocks - 1) with
  | Some divisor =>
      Binary64.div
        (Binary64.mul (Some stochastic_depth_prob)
           (Binary64.of_int (Z.of_nat stage_block_id)))
        divisor
  | None => None
  end.

(** [[0 if i_layer % 2 == 0 else w // 2 for w in window_size]]. *)
Definition shift_size (i_layer : nat) (window_size : list nat) : list nat :=
  map (fun w => if i_layer mod 2 =? 0 then 0 else w / 2) window_size.

Section Init.
Variable cfg : Config.

Definition total_stage_blocks : nat := fold_right Nat.add 0 (depths cfg).

(** Body of the inner encoder loop, lines 220-236; the state is the stage
    under construction and [stage_block_id]. *)
Definition encoder_layer (i_stage dim : nat) (st : list layer * nat)
    (i_layer : nat) : result (list layer * nat) :=
  let '(stage, stage_block_id) := st in
  let sd_prob :=
    sd_prob (stochastic_depth_prob cfg) stage_block_id total_stage_blocks in
  heads ← index (num_heads cfg) i_stage;
  Ok (stage ++
        [SwinTransformerBlockV2 dim heads (window_size cfg)
           (shift_size i_layer (window_size cfg))
           (mlp_ratio cfg) (dropout cfg) (attention_dropout cfg) sd_prob],
      S stage_block_id).

(** Body of the outer encoder loop, lines 215-240; the state is
    [self.encoder] and [stage_block_id]. *)
Definition encoder_stage (st : list layer * nat) (i_stage : nat)
  : result (list layer * nat) :=
  let '(encoder, stage_block_id) := st in
  let dim := embed_dim cfg * 2 ^ i_stage in
  depth ← index (depths cfg) i_stage;
  '(stage, stage_block_id) ←
    Py.foldM (encoder_layer i_stage dim) ([], stage_block_id) (seq 0 depth);
  let encoder := encoder ++ [Sequential stage] in
  let encoder :=
    if (i_stage + 1 <? length (depths cfg)) || final_downsample cfg
    then encoder ++ [PatchMergingV2 dim]
    else encoder in
  Ok (encoder, stage_block_id).

(** [int(current_features * mlp_ratio)] of line 256: the product is a
    float, [int] cuts its fraction off, and refuses an infinity. *)
Definition mlp_dim (current_features : nat) : result Z :=
  match Binary64.mul (Binary64.of_int (Z.of_nat current_features))
          (Some (mlp_ratio cfg)) with
  | Some product => Ok (int_of_Q product)
  | None => Raise OverflowError
  end.

(** Lines 244-262: at most one plain transformer block. *)
Definition build_middle : result (list layer) :=
  if (Z.min 1 (middle_stages cfg) <=? 0)%Z then Ok []
  else
    heads ← index_last (num_heads cfg);
    let drop := if final_downsample cfg then 0 else 1 in
    if length (depths cfg) <? drop then Raise TypeError
    else
      let current_features :=
        embed_dim cfg * 2 ^ (length (depths cfg) - drop) in
      mlp_dim ← mlp_dim current_features;
      Ok [ViTEncoderBlock heads current_features mlp_dim
            (dropout cfg) (attention_dropout cfg)].

(** Body of the inner decoder loop, lines 285-306. *)
Definition decoder_layer (i_stage dim : nat) (st : list layer * nat)
    (i_layer : nat) : result (list layer * nat) :=
  let '(stage, stage_block_id) := st in
  let sd_prob :=
    sd_prob (stochastic_depth_prob cfg) stage_block_id total_stage_blocks in
  let first := if i_layer =? 0 then 1 else 0 in
  heads ← index (num_heads cfg) i_stage;
  let stage :=
    stage ++
      [SwinTransformerBlockV2 (dim * (1 + first)) (heads * (1 + first))
         (window_size cfg) (shift_size i_layer (window_size cfg))
         (mlp_ratio cfg) (dropout cfg) (attention_dropout cfg) sd_prob] in
  let stage :=
    if i_layer =? 0 then stage ++ [PointwiseConvolution (2 * dim) dim]
    else stage in
  Ok (stage, S stage_block_id).

(** Body of the outer decoder loop, lines 272-307; [stage_block_id] goes on
    from where the encoder left it. *)
Definition decoder_stage (st : list layer * nat) (i_stage : nat)
  : result (list layer * nat) :=
  let '(decoder, stage_block_id) := st in
  let dim := embed_dim cfg * 2 ^ i_stage in
  let decoder :=
    if (i_stage + 1 <? length (depths cfg)) || final_downsample cfg
    then decoder ++ [PatchExpandingV2 (2 * dim)]
    else decoder in
  decoder ←
    (if cross_attention_residual cfg
     then
       heads ← index (num_heads cfg) i_stage;
       if negb (length (window_size cfg) =? 2) then Raise AssertionError
       else Ok (decoder ++
                  [SwinResidualCrossAttention (window_size cfg) dim heads
                     (attention_dropout cfg)])
     else Ok decoder);
  depth ← index (depths cfg) i_stage;
  '(stage, stage_block_id) ←
    Py.foldM (decoder_layer i_stage dim) ([], stage_block_id) (seq 0 depth);
  Ok (decoder ++ [Sequential stage], stage_block_id).

(** The encoder, middle and decoder module lists of [__init__]. *)
Definition __init__ : result XNetSwinTransformer :=
  '(encoder, stage_block_id) ←
    Py.foldM encoder_stage ([], 0) (seq 0 (length (depths cfg)));
  middle ← build_middle;
  '(decoder, _) ←
    Py.foldM decoder_stage ([], stage_block_id)
      (rev (seq 0 (length (depths cfg))));
  Ok {| encoder := encoder; middle := middle; decoder := decoder |}.

End Init.

(** The stochastic-depth probabilities of the Swin blocks of a module, in
    construction order. *)
Fixpoint swin_sd_probs (m : layer) : list Binary64.float :=
  match m with
  | SwinTransformerBlockV2 _ _ _ _ _ _ _ p => [p]
  | Sequential modules => flat_map swin_sd_probs modules
  | _ => []
  end.

Definition sd_probs_of (modules : list layer) : list Binary64.float :=
  flat_map swin_sd_probs modules.

(** The schedule on the block numbers [first .. first + count - 1]. *)
Definition schedule (cfg : Config) (first count : nat)
  : list Binary64.float :=
  map (fun k => sd_prob (stochastic_depth_prob cfg) k (total_stage_blocks cfg))
    (seq first count).

(** The blocks of the stages [stages], counted together. *)
Definition stage_sum (cfg : Config) (stages : list nat) : nat :=
  fold_right Nat.add 0 (map (fun i => nth i (depths cfg) 0) stages).

(** *** [XNetSwinTransformer.forward]: the encoder, middle and decoder loops *)

Section Forward.

(** The activations, and what the modules do to them: [call m x] is
    [m(x)], [call2 m x residual] is [m(x, residual)], [cat x residual] is
    [torch.cat((x, residual), dim=-1)] and [through_middle] is lines
    346-349, the middle block between its two [view]s.  All four are left
    open. *)
Context {X : Type}.
Variable call : layer -> X -> result X.
Variable call2 : layer -> X -> X -> result X.
Variable cat : X -> X -> result X.
Variable through_middle : list layer -> X -> result X.

(** [cfg] holds [self.final_downsample] and
    [self.cross_attention_residual]. *)
Variable cfg : Config.
Variable self : XNetSwinTransformer.

(** Body of the encoder loop of [forward], lines 341-344. *)
Definition forward_encoder_step (st : X * list X) (i : Z)
  : result (X * list X) :=
  let '(x, residuals) := st in
  stage ← Py.list_getitem (encoder self) i;
  x ← call stage x;
  let residuals := residuals ++ [x] in
  if (i + 1 <? Z.of_nat (length (encoder self)) - 1)%Z
     || final_downsample cfg
  then
    downsample ← Py.list_getitem (encoder self) (i + 1)%Z;
    x ← call downsample x;
    Ok (x, residuals)
  else Ok (x, residuals).

(** Body of the decoder loop of [forward], lines 355-365. *)
Definition forward_decoder_step (residuals : list X) (x : X) (ii : Z * Z)
  : result X :=
  let '(i_residual, i) := ii in
  x ←
    (if (0 <? i)%Z || final_downsample cfg
     then upsample ← Py.list_getitem (decoder self) i; call upsample x
     else Ok x);
  residual ← Py.list_getitem residuals i_residual;
  residual ←
    (if cross_attention_residual cfg
     then
       attention ← Py.list_getitem (decoder self) (i + 1)%Z;
       call2 attention x residual
     else Ok residual);
  x ← cat x residual;
  stage ←
    Py.list_getitem (decoder self)
      (i + (1 + Py.int_of_bool (cross_attention_residual cfg)))%Z;
  call stage x.

(** Lines 338-365 of [forward]. *)
Definition forward_stages (x : X) : result X :=
  '(x, residuals) ←
    Py.foldM forward_encoder_step (x, [])
      (Py.range 0 (Z.of_nat (length (encoder self))) 2);
  x ← through_middle (middle self) x;
  Py.foldM (forward_decoder_step residuals) x
    (combine
       (Py.range (Z.of_nat (length residuals) - 1) (-1) (-1))
       (Py.range (0 - Py.int_of_bool (negb (final_downsample cfg)))
          (Z.of_nat (length (decoder self)))
          (2 + Py.int_of_bool (cross_attention_residual cfg)))).

(** The same passes written over the module lists themselves, each module
    called once, in list order, in the role of its kind: a [Sequential]
    of the encoder leaves a residual behind; in the decoder a
    [SwinResidualCrossAttention] fuses the last residual not yet used, and
    a [Sequential] is called on the concatenation with that fused
    residual or, when there is none, with the last residual not yet
    used. *)
Fixpoint encoder_in_order (modules : list layer) (x : X)
    (residuals : list X) : result (X * list X) :=
  match modules with
  | [] => Ok (x, residuals)
  | m :: modules' =>
      x ← call m x;
      match m with
      | Sequential _ => encoder_in_order modules' x (residuals ++ [x])
      | _ => encoder_in_order modules' x residuals
      end
  end.

Fixpoint decoder_in_order (modules : list layer) (x : X)
    (residuals : list X) (fused : option X) : result X :=
  match modules with
  | [] => Ok x
  | m :: modules' =>
      match m with
      | SwinResidualCrossAttention _ _ _ _ =>
          match rev residuals with
          | residual :: earlier =>
              residual ← call2 m x residual;
              decoder_in_order modules' x (rev earlier) (Some residual)
          | [] => Raise IndexError
          end
      | Sequential _ =>
          match fused, rev residuals with
          | Some residual, _ =>
              x ← cat x residual;
              x ← call m x;
              decoder_in_order modules' x residuals None
          | None, residual :: earlier =>
              x ← cat x residual;
              x ← call m x;
              decoder_in_order modules' x (rev earlier) None
          | None, [] => Raise IndexError
          end
      | _ =>
          x ← call m x;
          decoder_in_order modules' x residuals fused
      end
  end.

Definition forward_in_order (x : X) : result X :=
  '(x, residuals) ← encoder_in_order (encoder self) x [];
  x ← through_middle (middle self) x;
  decoder_in_order (decoder self) x residuals None.

End Forward.

(** What one pass of the outer loops of [__init__] appends to
    [self.encoder] (lines 237-240) and to [self.decoder] (lines 276-283 and
    307), given the [stage] that its inner loop has built. *)
Definition encoder_stage_modules (cfg : Config) (i_stage : nat)
    (stage : list layer) : list layer :=
  let dim := embed_dim cfg * 2 ^ i_stage in
  Sequential stage ::
    (if (i_stage + 1 <? length (depths cfg)) || final_downsample cfg
     then [PatchMergingV2 dim]
     else []).

Definition decoder_stage_modules (cfg : Config) (i_stage : nat)
    (stage : list layer) : list layer :=
  let dim := embed_dim cfg * 2 ^ i_stage in
  (if (i_stage + 1 <? length (depths cfg)) || final_downsample cfg
   then [PatchExpandingV2 (2 * dim)]
   else []) ++
  (if cross_attention_residual cfg
   then [SwinResidualCrossAttention (window_size cfg) dim
           (nth i_stage (num_heads cfg) 0) (attention_dropout cfg)]
   else []) ++
  [Sequential stage].

End XNet.

(** ** [src/models/modules/modulated/vit_block.py] *)

Module VitBlock.
Import Torch.

Section Block.
Context {A : Type} `{Dtype A}.

(** The sub-modules of a [ViTEncoderBlock_Modulated], learned functions
    that this development leaves open, and the tensor addition. *)
Record ViTEncoderBlock_Modulated : Type := {
  mod1 : Tensor A -> result (Tensor A);
  mod2 : Tensor A -> result (Tensor A);
  ln_1 : Tensor A -> result (Tensor A);
  self_attention : Tensor A -> Tensor A -> Tensor A -> result (Tensor A);
  dropout : Tensor A -> result (Tensor A);
  ln_2 : Tensor A -> result (Tensor A);
  mlp : Tensor A -> result (Tensor A);
  add : Tensor A -> Tensor A -> result (Tensor A)
}.

(** [torch._assert(condition, message)]. *)
Definition torch_assert (condition : bool) : result unit :=
  if condition then Ok tt else Raise AssertionError.

(** Reading a local variable of the running function: [None] is a local
    that has not been assigned yet. *)
Definition load_local {T : Type} (v : option T) : result T :=
  match v with
  | Some a => Ok a
  | None => Raise UnboundLocalError
  end.

(** [ViTEncoderBlock_Modulated.forward(input)].  [x] and [y] are locals of
    the function, unassigned on entry. *)
Definition forward (self : ViTEncoderBlock_Modulated) (input : Tensor A)
  : result (Tensor A) :=
  let x : option (Tensor A) := None in
  _ ← torch_assert (dim input =? 3);
  x ← (v ← load_local x; mod1 self v);
  x ← ln_1 self input;
  x ← self_attention self x x x;
  x ← dropout self x;
  x ← add self x input;
  x ← mod2 self x;
  y ← ln_2 self x;
  y ← mlp self y;
  add self x y.

End Block.

Arguments ViTEncoderBlock_Modulated A : clear implicits.

End VitBlock.

(** ** [src/pose_estimation/pose_data_class.py]: the dataset indexer *)

Module PoseDataModel.
#[local] Open Scope string_scope.

(** *** Strings *)

(** [sub in s]. *)
Fixpoint contains (sub s : string) : bool :=
  String.prefix sub s ||
  match s with
  | EmptyString => false
  | String _ s' => contains sub s'
  end.

(** [s.split(sep)] for a one-character separator. *)
Fixpoint split_on (sep : ascii) (s : string) : list string :=
  match s with
  | EmptyString => [EmptyString]
  | String c s' =>
      if Ascii.eqb c sep then EmptyString :: split_on sep s'
      else
        match split_on sep s' with
        | h :: t => String c h :: t
        | [] => [String c EmptyString]
        end
  end.

Definition ends_with_slash (a : string) : bool :=
  match String.get (String.length a - 1) a with
  | Some c => Ascii.eqb c "/"
  | None => false
  end.

(** [os.path.join(a, b)] on POSIX. *)
Definition path_join (a b : string) : string :=
  if String.prefix "/" b then b
  else if (String.length a =? 0)%nat || ends_with_slash a then a ++ b
  else a ++ "/" ++ b.

(** A plain decimal reader, one possible behaviour of [int] on the key
    fields of a file name; used in the examples. *)
Fixpoint decimal_digits (s : string) (acc : Z) : result Z :=
  match s with
  | EmptyString => Ok acc
  | String c s' =>
      let n := nat_of_ascii c in
      if ((48 <=? n) && (n <=? 57))%nat
      then decimal_digits s' (10 * acc + Z.of_nat (n - 48))%Z
      else Raise ValueError
  end.

Definition decimal (s : string) : result Z :=
  match s with
  | EmptyString => Raise ValueError
  | _ => decimal_digits s 0%Z
  end.

(** *** Dictionaries *)

(** [if k not in m: m[k] = v]. *)
Definition setdefault `{Countable K} {V : Type} (k : K) (v : V)
    (m : gmap K V) : gmap K V :=
  match m !! k with
  | Some _ => m
  | None => <[k := v]> m
  end.

(** Sum of [f] over the values of a dictionary. *)
Definition sum_values `{Countable K} {V : Type} (f : V -> nat)
    (m : gmap K V) : nat :=
  map_fold (fun _ v acc => f v + acc) 0 m.

Section Dataset.

(** What [pickle.load] returns for a meta file, and a field of the CSV. *)
Variable Pickled : Type.
Variable Cell : Type.

(** The outside world: the file system and Python's [int]. *)
Record World : Type := {
  listdir : string -> result (list string);
  pickle_load : string -> result Pickled;
  genfromtxt : string -> result (list (list Cell));
  int : string -> result Z
}.

(** A value of a record: the key triple, the loaded meta data, or the lazy
    loader [generator] closed over [filepath] and [normalizer]. *)
Inductive Entry : Type :=
| EKey (key : Z * Z * Z)
| EMeta (meta : Pickled)
| EGenerator (filepath : string) (normalizer : option Z).

#[local] Abbreviation Sample := (gmap string Entry).
#[local] Abbreviation Flat := (gmap (Z * Z * Z) Sample).
#[local] Abbreviation Nested := (gmap Z (gmap Z (gmap Z Sample))).

Record PoseData : Type := {
  data_path : string;
  models_path : string;
  objects : list (gmap string Cell);
  data : Flat;
  nested_data : Nested;
  keylist : list (Z * Z * Z)
}.

Definition INFO_HEADERS : list string :=
  ["object"; "class"; "source"; "location"; "metric"; "min_x"; "max_x";
   "min_y"; "max_y"; "min_z"; "max_z"; "width"; "length"; "height";
   "visual_symmetry"; "geometric_symmetry"].
Definition CSV_FILENAME : string := "objects_v1.csv".
Definition DATA_FOLDERNAME : string := "v2.2".

Variable world : World.

(** [organize_objects(objects_path)], where [genfromtxt world] gives the
    data rows of the file.  Of a file with one data row [np.genfromtxt]
    returns that row alone, without the axis of the rows: the catalogue has
    names and numbers among its columns, the row is a record of no
    dimension, and the loop over it raises [TypeError]. *)
Definition organize_objects (objects_path : string)
  : result (list (gmap string Cell)) :=
  object_lists ← genfromtxt world objects_path;
  match object_lists with
  | [_] => Raise TypeError
  | _ =>
      Ok (map (fun object_list =>
                 fold_left (fun d '(header, value) => <[header := value]> d)
                   (combine INFO_HEADERS object_list) ∅)
            object_lists)
  end.

Definition components : list string := ["color"; "depth"; "label"; "meta"].

(** [get_component(filename)]: the first component named in the file name. *)
Definition get_component (filename : string) : result string :=
  match find (fun component => contains component filename) components with
  | Some component => Ok component
  | None => Raise KeyError
  end.

(** [level, scene, variant =
     [int(idx) for idx in filename.split("_")[0].split("-")]]. *)
Definition parse_key (filename : string) : result (Z * Z * Z) :=
  parts ←
    Py.traverse (int world) (split_on "-" (hd "" (split_on "_" filename)));
  match parts with
  | [level; scene; variant] => Ok (level, scene, variant)
  | _ => Raise ValueError
  end.

(** The three [if ... not in ...] statements of lines 103-108 and 171-176:
    make sure [nested[level][scene][variant]] exists, with [sample] as the
    value of a leaf that has to be created. *)
Definition ensure_leaf (level scene variant : Z) (sample : Sample)
    (nested : Nested) : Nested :=
  let nested := setdefault level ∅ nested in
  let nested := alter (setdefault scene ∅) level nested in
  alter (alter (setdefault variant sample) scene) level nested.

(** Body of the loop of [organize_data], lines 93-128. *)
Definition organize_file (data_path : string) (st : Flat * Nested)
    (filename : string) : result (Flat * Nested) :=
  let '(data, nested_data) := st in
  let filepath := path_join data_path filename in
  component ← get_component filename;
  '(level, scene, variant) ← parse_key filename;
  let key := (level, scene, variant) in
  let data := setdefault key {["key" := EKey key]} data in
  let nested_data :=
    ensure_leaf level scene variant {["key" := EKey key]} nested_data in
  entry ←
    (if String.eqb component "meta"
     then meta ← pickle_load world filepath; Ok (EMeta meta)
     else
       let normalizer :=
         if String.eqb component "color" then Some 255%Z
         else if String.eqb component "depth" then Some 1000%Z
         else None in
       Ok (EGenerator filepath normalizer));
  let data := alter (insert component entry) key data in
  let nested_data :=
    alter (alter (alter (insert component entry) variant) scene) level
      nested_data in
  Ok (data, nested_data).

(** [organize_data(data_path)]. *)
Definition organize_data (data_path : string) : result (Flat * Nested) :=
  filenames ← listdir world data_path;
  Py.foldM (organize_file data_path) (∅, ∅) filenames.

(** [PoseData.__init__(data_path, models_path, split_processed_data)].
    The order of [keylist] is the order in which the model enumerates the
    keys of [data]. *)
Definition __init__ (data_path models_path : string)
    (split_processed_data : option (list (gmap string Cell) * Flat * Nested))
  : result PoseData :=
  '(objects, data, nested_data) ←
    match split_processed_data with
    | Some processed => Ok processed
    | None =>
        objects ← organize_objects (path_join data_path CSV_FILENAME);
        '(data, nested_data) ←
          organize_data (path_join data_path DATA_FOLDERNAME);
        Ok (objects, data, nested_data)
    end;
  Ok {| data_path := data_path; models_path := models_path;
        objects := objects; data := data; nested_data := nested_data;
        keylist := (map_to_list data).*1 |}.

(** Body of the loop of [level_split], lines 162-175; [sample] is
    [self.data[key]]. *)
Definition level_split_step (selected_level : Z) (key : Z * Z * Z)
    (sample : Sample) (st : Flat * Nested) : Flat * Nested :=
  let '(split_data, split_nested_data) := st in
  let '(level, scene, variant) := key in
  if bool_decide (level ≠ selected_level) then st
  else
    let split_data := <[key := sample]> split_data in
    let split_nested_data :=
      ensure_leaf level scene variant sample split_nested_data in
    (split_data, split_nested_data).

(** [level_split(selected_level)]. *)
Definition level_split (self : PoseData) (selected_level : Z)
  : result PoseData :=
  let '(split_data, split_nested_data) :=
    map_fold (level_split_step selected_level) (∅, ∅) (data self) in
  __init__ (data_path self) (models_path self)
    (Some (objects self, split_data, split_nested_data)).

(** The argument of [__getitem__]: an [int] or a tuple of [int]s. *)
Inductive Indices : Type :=
| Int (i : Z)
| Tuple (indices : list Z).

(** What [__getitem__] can return: a record, or the nested mapping at one
    of its three depths. *)
Inductive Value : Type :=
| VSample (sample : Sample)
| VNested (levels : Nested)
| VLevel (scenes : gmap Z (gmap Z Sample))
| VScene (variants : gmap Z Sample).

(** [value[i]] for an integer [i]; the keys of a record are strings. *)
Definition subscript (value : Value) (i : Z) : result Value :=
  match value with
  | VNested levels =>
      match levels !! i with
      | Some scenes => Ok (VLevel scenes)
      | None => Raise KeyError
      end
  | VLevel scenes =>
      match scenes !! i with
      | Some variants => Ok (VScene variants)
      | None => Raise KeyError
      end
  | VScene variants =>
      match variants !! i with
      | Some sample => Ok (VSample sample)
      | None => Raise KeyError
      end
  | VSample _ => Raise KeyError
  end.

(** [PoseData.__getitem__(indices)]. *)
Definition __getitem__ (self : PoseData) (indices : Indices)
  : result Value :=
  let indices :=
    match indices with
    | Int _ => [1%Z]
    | Tuple indices => indices
    end in
  match indices with
  | [level; scene; variant] =>
      match data self !! (level, scene, variant) with
      | Some sample => Ok (VSample sample)
      | None => Raise KeyError
      end
  | _ => Py.foldM subscript (VNested (nested_data self)) indices
  end.

(** Number of [(level, scene, variant)] leaves of a nested mapping. *)
Definition leaves (nested : Nested) : nat :=
  sum_values (sum_values size) nested.

(** [nested[level][scene][variant]], when all three keys are present. *)
Definition leaf (nested : Nested) (level scene variant : Z)
  : option Sample :=
  scenes ← nested !! level;
  variants ← scenes !! scene;
  variants !! variant.

(** The flat and the nested mapping index the same records. *)
Definition consistent (data : Flat) (nested : Nested) : Prop :=
  size data = leaves nested /\
  forall level scene variant,
    is_Some (data !! (level, scene, variant)) <->
    is_Some (leaf nested level scene variant).

(** [PoseData.get_info(object_id)]. *)
Definition get_info (self : PoseData) (object_id : Z)
  : result (gmap string Cell) :=
  Py.list_getitem (objects self) object_id.

(** [PoseData.__len__()]. *)
Definition __len__ (self : PoseData) : nat := length (keylist self).

(** [PoseData.__call__(idx)]: the record under the [idx]-th key. *)
Definition __call__ (self : PoseData) (idx : Z) : result Sample :=
  key ← Py.list_getitem (keylist self) idx;
  match data self !! key with
  | Some sample => Ok sample
  | None => Raise KeyError
  end.

(** Lines 186-188 of [txt_split]: one line of the split file to the list
    of its [int]s. *)
Definition parse_indices (text : string) : result (list Z) :=
  Py.traverse (int world) (split_on "-" text).

(** Body of the second loop of [txt_split], lines 193-203. *)
Definition txt_split_step (self : PoseData) (st : Flat * Nested)
    (key : list Z) : result (Flat * Nested) :=
  let '(split_data, split_nested_data) := st in
  match key with
  | [level; scene; variant] =>
      match data self !! (level, scene, variant) with
      | Some sample =>
          Ok (<[(level, scene, variant) := sample]> split_data,
              ensure_leaf level scene variant sample split_nested_data)
      | None => Raise KeyError
      end
  | _ => Raise ValueError
  end.

(** What [np.loadtxt(split_txt_path, dtype=str)] returns for a file of the
    lines [lines], one string on each: the array of the lines, and for a
    file of one line that string alone, an array of no dimension. *)
Inductive StringArray : Type :=
| Array0 (item : string)
| Array1 (items : list string).

Definition loadtxt (lines : list string) : StringArray :=
  match lines with
  | [line] => Array0 line
  | _ => Array1 lines
  end.

(** [for string in string_indices]: an array of no dimension cannot be
    iterated. *)
Definition iterate (string_indices : StringArray) : result (list string) :=
  match string_indices with
  | Array0 _ => Raise TypeError
  | Array1 items => Ok items
  end.

(** [txt_split(split_txt_path)], for a split file of the lines [lines]. *)
Definition txt_split (self : PoseData) (lines : list string)
  : result PoseData :=
  string_indices ← iterate (loadtxt lines);
  tuple_indices ← Py.traverse parse_indices string_indices;
  '(split_data, split_nested_data) ←
    Py.foldM (txt_split_step self) (∅, ∅) tuple_indices;
  __init__ (data_path self) (models_path self)
    (Some (objects self, split_data, split_nested_data)).

(** The flat and the nested mapping hold the same record under every
    key. *)
Definition agree (data : Flat) (nested : Nested) : Prop :=
  forall level scene variant,
    leaf nested level scene variant = data !! (level, scene, variant).

(** [entry] is what lines 109-125 build for the file [filename] of
    [data_path] whose component is [component]. *)
Definition entry_of_file (data_path filename component : string)
    (entry : Entry) : Prop :=
  let filepath := path_join data_path filename in
  (component = "color" /\ entry = EGenerator filepath (Some 255%Z)) \/
  (component = "depth" /\ entry = EGenerator filepath (Some 1000%Z)) \/
  (component = "label" /\ entry = EGenerator filepath None) \/
  (component = "meta" /\
   exists meta, pickle_load world filepath = Ok meta /\ entry = EMeta meta).

(** Every record of [data] carries its own key under ["key"], and each of
    its other entries was built from a file of [filenames] whose name gives
    that key and that component. *)
Definition records_from (data_path : string) (filenames : list string)
    (data : Flat) : Prop :=
  forall key sample,
    data !! key = Some sample ->
    sample !! "key" = Some (EKey key) /\
    forall component entry,
      sample !! component = Some entry -> component <> "key" ->
      exists filename,
        In filename filenames /\
        parse_key filename = Ok key /\
        get_component filename = Ok component /\
        entry_of_file data_path filename component entry.

End Dataset.

Arguments EKey {Pickled} key.
Arguments EMeta {Pickled} meta.
Arguments EGenerator {Pickled} filepath normalizer.
Arguments VSample {Pickled} sample.
Arguments VNested {Pickled} levels.
Arguments VLevel {Pickled} scenes.
Arguments VScene {Pickled} variants.
Arguments data {Pickled Cell} p.
Arguments nested_data {Pickled Cell} p.
Arguments keylist {Pickled Cell} p.
Arguments objects {Pickled Cell} p.
Arguments listdir {Pickled Cell} w path.
Arguments pickle_load {Pickled Cell} w path.
Arguments genfromtxt {Pickled Cell} w path.
Arguments int {Pickled Cell} w text.
Arguments parse_key {Pickled Cell} world filename.
Arguments level_split_step {Pickled} selected_level key sample st.
Arguments ensure_leaf {Pickled} level scene variant sample nested.
Arguments leaves {Pickled} nested.
Arguments leaf {Pickled} nested level scene variant.
Arguments consistent {Pickled} data nested.
Arguments __init__ {Pickled Cell} world data_path models_path
  split_processed_data.
Arguments level_split {Pickled Cell} world self selected_level.
Arguments __getitem__ {Pickled Cell} self indices.
Arguments organize_data {Pickled Cell} world data_path.
Arguments organize_file {Pickled Cell} world data_path st filename.
Arguments get_info {Pickled Cell} self object_id.
Arguments __len__ {Pickled Cell} self.
Arguments __call__ {Pickled Cell} self idx.
Arguments parse_indices {Pickled Cell} world text.
Arguments txt_split_step {Pickled Cell} self st key.
Arguments txt_split {Pickled Cell} world self lines.
Arguments agree {Pickled} data nested.
Arguments entry_of_file {Pickled Cell} world data_path filename component
  entry.
Arguments records_from {Pickled Cell} world data_path filenames data.

End PoseDataModel.

(** ** Concrete inputs used in the examples *)

Module Examples.
Import Torch.

(** The integers [0 .. n-1] laid out in the shape [s]. *)
Definition arange (s : list nat) : Tensor Z :=
  mkTensor s (map Z.of_nat (seq 0 (numel s))).

(** A cross-attention module with 2x2 windows whose attention layer hands
    back its queries. *)
Definition query_attention : XSwin.SwinResidualCrossAttention Z :=
  {| XSwin.window_height := 2;
     XSwin.window_width := 2;
     XSwin.cross_attention := fun Q _ _ => Ok Q |}.

(** The float [0.1]: [0x1.999999999999ap-4]. *)
Definition one_tenth : Q := 3602879701896397 # 36028797018963968.

(** A Swin-T like configuration. *)
Definition swin_tiny : XNet.Config :=
  {| XNet.embed_dim := 96;
     XNet.depths := [2; 2; 6; 2];
     XNet.num_heads := [3; 6; 12; 24];
     XNet.window_size := [7; 7];
     XNet.mlp_ratio := 4;
     XNet.dropout := 0;
     XNet.attention_dropout := 0;
     XNet.stochastic_depth_prob := one_tenth;
     XNet.middle_stages := 1;
     XNet.final_downsample := false;
     XNet.cross_attention_residual := true |}.

(** Two stages of one block each: four Swin blocks in all. *)
Definition two_stages : XNet.Config :=
  {| XNet.embed_dim := 96;
     XNet.depths := [1; 1];
     XNet.num_heads := [3; 6];
     XNet.window_size := [7; 7];
     XNet.mlp_ratio := 4;
     XNet.dropout := 0;
     XNet.attention_dropout := 0;
     XNet.stochastic_depth_prob := one_tenth;
     XNet.middle_stages := 1;
     XNet.final_downsample := false;
     XNet.cross_attention_residual := true |}.

(** A modulated block whose sub-modules all hand back their argument. *)
Definition passthrough_block : VitBlock.ViTEncoderBlock_Modulated Z :=
  {| VitBlock.mod1 := fun x => Ok x;
     VitBlock.mod2 := fun x => Ok x;
     VitBlock.ln_1 := fun x => Ok x;
     VitBlock.self_attention := fun q _ _ => Ok q;
     VitBlock.dropout := fun x => Ok x;
     VitBlock.ln_2 := fun x => Ok x;
     VitBlock.mlp := fun x => Ok x;
     VitBlock.add := fun x _ => Ok x |}.

(** A data directory with five files of three records, on two levels. *)
Definition small_world : PoseDataModel.World unit unit :=
  {| PoseDataModel.listdir := fun path =>
       if String.eqb path "root/v2.2"
       then Ok ["1-1-0_color_kinect.png"; "1-1-0_depth_kinect.png";
                "1-1-0_meta.pkl"; "2-1-3_label_kinect.png";
                "1-2-0_meta.pkl"]%string
       else Raise OSError;
     PoseDataModel.pickle_load := fun _ => Ok tt;
     PoseDataModel.genfromtxt := fun _ => Ok [];
     PoseDataModel.int := PoseDataModel.decimal |}.

(** A patch-expanding layer over two channels: the expansion repeats the
    channels and the normalisation changes nothing. *)
Definition channel_doubling : XSwin.PatchExpanding.PatchExpandingV2 Z :=
  {| XSwin.PatchExpanding.dim := 2;
     XSwin.PatchExpanding.expansion := fun t =>
       Ok (build (removelast (shape t) ++ [2 * 2])
             (fun idx => get t (removelast idx ++ [List.last idx 0 mod 2])));
     XSwin.PatchExpanding.norm := fun t => Ok t |}.

(** A catalogue with two objects of three columns, and no data files. *)
Definition catalogue_world : PoseDataModel.World unit nat :=
  {| PoseDataModel.listdir := fun _ => Ok [];
     PoseDataModel.pickle_load := fun _ => Ok tt;
     PoseDataModel.genfromtxt := fun _ => Ok [[7; 8; 9]; [4; 5; 6]];
     PoseDataModel.int := PoseDataModel.decimal |}.

(** The batch that holds the 2x2 identity matrix. *)
Definition identity_matrices : GeodesicLoss.Matrices :=
  {| GeodesicLoss.rows := 2;
     GeodesicLoss.cols := 2;
     GeodesicLoss.matrices := [GeodesicLoss.eye] |}.

End Examples.

(* ===================================================================== *)
(** * Part II: properties                                                 *)
(* ===================================================================== *)

(** ** The error monad *)

Module PyFacts.

Lemma foldM_ok {T S : Type} (body : S -> T -> result S) (l : list T)
    (acc : S) :
  (forall acc x, In x l -> exists acc', body acc x = Ok acc') ->
  exists acc', Py.foldM body acc l = Ok acc'.
Proof.
  revert acc. induction l as [|x l IH]; intros acc Hbody.
  - exists acc. reflexivity.
  - cbn [Py.foldM]. destruct (Hbody acc x (or_introl eq_refl)) as [acc1 ->].
    cbn [mbind Py.result_bind Py.bind].
    apply IH. intros acc2 y Hy. apply Hbody. right. exact Hy.
Qed.

End PyFacts.

(** ** Row-major indexing *)

Module TorchFacts.
Import Torch.

Lemma seq_blocks (m n a : nat) :
  flat_map (fun i => seq (i * m) m) (seq a n) = seq (a * m) (n * m).
Proof.
  revert a. induction n as [|n IH]; intros a; [reflexivity|].
  cbn [seq flat_map]. rewrite IH.
  replace (S a * m) with (a * m + m) by lia.
  replace (S n * m) with (m + n * m) by lia.
  symmetry. apply seq_app.
Qed.

Lemma map_add_seq (a b n : nat) :
  map (fun k => a + k) (seq b n) = seq (a + b) n.
Proof.
  revert b. induction n as [|n IH]; intros b; [reflexivity|].
  cbn [seq map]. f_equal. rewrite IH. f_equal. lia.
Qed.

Lemma numel_cons (n : nat) (s : list nat) : numel (n :: s) = n * numel s.
Proof. reflexivity. Qed.

Lemma length_indices (s : list nat) : length (indices s) = numel s.
Proof.
  induction s as [|n s IH]; [reflexivity|].
  cbn [indices]. rewrite numel_cons.
  generalize 0 as a. induction n as [|n IHn]; intros a; [reflexivity|].
  cbn [seq flat_map]. rewrite List.length_app, List.length_map, IH, IHn. lia.
Qed.

(** The offsets of the indices of a shape, in order, are [0, 1, 2, ...]. *)
Lemma map_ravel_indices (s : list nat) :
  map (ravel s) (indices s) = seq 0 (numel s).
Proof.
  induction s as [|n s IH]; [reflexivity|].
  cbn [indices]. rewrite numel_cons.
  rewrite <- (seq_blocks (numel s) n 0 : _ = seq 0 (n * numel s)).
  rewrite !flat_map_concat_map, concat_map, map_map. f_equal.
  apply map_ext; intros i. rewrite map_map. cbn [ravel].
  rewrite <- (map_map (ravel s) (fun k => i * numel s + k)), IH.
  rewrite map_add_seq. f_equal. lia.
Qed.

Lemma in_indices (s idx : list nat) :
  In idx (indices s) <-> in_range s idx = true.
Proof.
  revert idx. induction s as [|n s IH]; intros idx.
  - cbn. destruct idx; split; intros Hx; try discriminate; auto.
    + destruct Hx as [Hx|[]]; discriminate.
  - cbn [indices in_range]. rewrite in_flat_map. split.
    + intros (i & Hi & Hx). apply in_map_iff in Hx as (idx' & <- & Hx).
      apply in_seq in Hi. apply IH in Hx. rewrite Hx.
      apply andb_true_intro. split; [apply Nat.ltb_lt; lia | reflexivity].
    + destruct idx as [|i idx']; [discriminate|].
      intros Hx. apply andb_prop in Hx as [Hi Hx]. apply Nat.ltb_lt in Hi.
      exists i. split; [apply in_seq; lia|].
      apply in_map. apply IH. exact Hx.
Qed.

Lemma ravel_lt (s idx : list nat) :
  in_range s idx = true -> ravel s idx < numel s.
Proof.
  revert idx. induction s as [|n s IH]; intros [|i idx] Hx;
    try discriminate.
  - cbn. lia.
  - cbn in Hx. apply andb_prop in Hx as [Hi Hx]. apply Nat.ltb_lt in Hi.
    apply IH in Hx. cbn [ravel]. rewrite numel_cons. nia.
Qed.

(** Two in-range indices with the same offset are the same index. *)
Lemma ravel_inj (s idx idx' : list nat) :
  in_range s idx = true -> in_range s idx' = true ->
  ravel s idx = ravel s idx' -> idx = idx'.
Proof.
  revert idx idx'. induction s as [|n s IH]; intros [|i idx] [|j idx'] H1 H2;
    try discriminate; [reflexivity|].
  cbn in H1, H2. apply andb_prop in H1 as [_ H1].
  apply andb_prop in H2 as [_ H2]. cbn [ravel]. intros Heq.
  pose proof (ravel_lt _ _ H1). pose proof (ravel_lt _ _ H2).
  assert (i = j) as -> by nia.
  f_equal. apply IH; [assumption..|lia].
Qed.

Lemma nth_ravel_indices (s idx d : list nat) :
  in_range s idx = true -> nth (ravel s idx) (indices s) d = idx.
Proof.
  intros Hx. pose proof (ravel_lt _ _ Hx) as Hlt.
  rewrite <- length_indices in Hlt.
  apply (ravel_inj s); [|exact Hx|].
  - apply in_indices. apply nth_In. exact Hlt.
  - rewrite (nth_indep _ d [] Hlt).
    change (ravel s (nth (ravel s idx) (indices s) []))
      with ((fun l => ravel s l) (nth (ravel s idx) (indices s) [])).
    rewrite <- (map_nth (fun l => ravel s l)).
    rewrite map_ravel_indices. rewrite length_indices in Hlt.
    cbn [ravel]. rewrite seq_nth by exact Hlt. reflexivity.
Qed.

Lemma map_nth_seq {T : Type} (l : list T) (d : T) :
  map (fun k => nth k l d) (seq 0 (length l)) = l.
Proof.
  induction l as [|x l IH]; [reflexivity|].
  cbn [length seq map nth]. f_equal.
  rewrite <- seq_shift, map_map. exact IH.
Qed.

Section Ops.
Context {A : Type} `{Dtype A}.

Lemma wf_build (s : list nat) (f : list nat -> A) : wf (build s f).
Proof. unfold wf, build. cbn. rewrite List.length_map. apply length_indices. Qed.

Lemma get_build (s : list nat) (f : list nat -> A) (idx : list nat) :
  in_range s idx = true -> get (build s f) idx = f idx.
Proof.
  intros Hx. unfold get, build. cbn [shape data].
  pose proof (ravel_lt _ _ Hx) as Hlt. rewrite <- length_indices in Hlt.
  rewrite (nth_indep _ zero (f []))
    by (rewrite List.length_map; exact Hlt).
  rewrite map_nth. f_equal. apply nth_ravel_indices. exact Hx.
Qed.

Lemma build_ext (s : list nat) (f g : list nat -> A) :
  (forall idx, in_range s idx = true -> f idx = g idx) ->
  build s f = build s g.
Proof.
  intros Hfg. unfold build. f_equal. apply map_ext_in.
  intros idx Hin. apply Hfg. apply in_indices. exact Hin.
Qed.

(** Reading a row-major list back through the offsets gives the list. *)
Lemma build_ravel (s : list nat) (dat : list A) :
  length dat = numel s ->
  build s (fun idx => nth (ravel s idx) dat zero) = mkTensor s dat.
Proof.
  intros Hlen. unfold build. f_equal.
  rewrite <- (map_map (ravel s) (fun k => nth k dat zero)).
  rewrite map_ravel_indices, <- Hlen. apply map_nth_seq.
Qed.

(** A tensor is determined by its shape and its elements. *)
Lemma tensor_ext (t1 t2 : Tensor A) :
  wf t1 -> wf t2 -> shape t1 = shape t2 ->
  (forall idx, in_range (shape t1) idx = true -> get t1 idx = get t2 idx) ->
  t1 = t2.
Proof.
  intros Hw1 Hw2 Hs Hget.
  destruct t1 as [s1 d1], t2 as [s2 d2]. cbn in Hs. subst s2.
  rewrite <- (build_ravel s1 d1 Hw1), <- (build_ravel s1 d2 Hw2).
  apply build_ext. intros idx Hx. apply (Hget idx Hx).
Qed.

Lemma reshape_ok (t : Tensor A) (s : list nat) :
  numel s = numel (shape t) -> reshape t s = Ok (mkTensor s (data t)).
Proof. intros Hs. unfold reshape. rewrite Hs, Nat.eqb_refl. reflexivity. Qed.

Lemma in_range_app (s1 s2 i1 i2 : list nat) :
  in_range s1 i1 = true -> in_range s2 i2 = true ->
  in_range (s1 ++ s2) (i1 ++ i2) = true.
Proof.
  revert i1. induction s1 as [|n s1 IH]; intros [|i i1] H1 H2;
    try discriminate; [exact H2|].
  cbn [in_range app] in *. apply andb_prop in H1 as [Hi H1].
  rewrite Hi. cbn [andb]. auto.
Qed.

Lemma unfold_ok (t : Tensor A) (dimension : Z) (size step d : nat) :
  wrap_dim (dim t) dimension = Ok d ->
  size <= nth d (shape t) 0 -> 0 < step ->
  unfold t dimension size step =
  Ok (build
        (set_nth d ((nth d (shape t) 0 - size) / step + 1) (shape t)
           ++ [size])
        (fun idx =>
           get t (set_nth d (nth d idx 0 * step + nth (dim t) idx 0)
                    (firstn (dim t) idx)))).
Proof.
  intros Hd Hsize Hstep. unfold unfold. rewrite Hd. cbn [mbind Py.result_bind Py.bind].
  destruct (Nat.ltb_spec (nth d (shape t) 0) size); [lia|].
  destruct (Nat.eqb_spec step 0); [lia|]. reflexivity.
Qed.

Lemma unfold_too_small (t : Tensor A) (dimension : Z) (size step d : nat) :
  wrap_dim (dim t) dimension = Ok d ->
  nth d (shape t) 0 < size ->
  unfold t dimension size step = Raise RuntimeError.
Proof.
  intros Hd Hsize. unfold unfold. rewrite Hd. cbn [mbind Py.result_bind Py.bind].
  destruct (Nat.ltb_spec (nth d (shape t) 0) size); [reflexivity|lia].
Qed.

Lemma unfold_zero_step (t : Tensor A) (dimension : Z) (size d : nat) :
  wrap_dim (dim t) dimension = Ok d ->
  unfold t dimension size 0 = Raise RuntimeError.
Proof.
  intros Hd. unfold unfold. rewrite Hd. cbn [mbind Py.result_bind Py.bind].
  destruct (nth d (shape t) 0 <? size); reflexivity.
Qed.

Lemma permute_ok (t : Tensor A) (dims : list Z) (ds : list nat) :
  length dims = dim t ->
  Py.traverse (wrap_dim (dim t)) dims = Ok ds ->
  no_repeat ds = true ->
  permute t dims =
  Ok (build (map (fun d => nth d (shape t) 0) ds)
        (fun idx =>
           get t (map (fun j => nth (index_of j ds) idx 0)
                    (seq 0 (dim t))))).
Proof.
  intros Hlen Hds Hnr. unfold permute. rewrite Hlen, Nat.eqb_refl.
  cbn [negb]. rewrite Hds. cbn [mbind Py.result_bind Py.bind].
  rewrite Hnr. reflexivity.
Qed.

End Ops.

End TorchFacts.

(** ** Window extraction and merging ([src/models/xswin.py]) *)

Module XSwinFacts.
Import Torch TorchFacts XSwin.

Lemma in_range_cons_inv (n : nat) (s idx : list nat) :
  in_range (n :: s) idx = true ->
  exists i idx', idx = i :: idx' /\ i < n /\ in_range s idx' = true.
Proof.
  destruct idx as [|i idx']; [discriminate|]. cbn [in_range].
  intros Hx. apply andb_prop in Hx as [Hi Hx]. apply Nat.ltb_lt in Hi.
  eauto.
Qed.

Lemma in_range_nil_inv (idx : list nat) : in_range [] idx = true -> idx = [].
Proof. destruct idx; [reflexivity|discriminate]. Qed.

(** Split an in-range hypothesis on a shape of known length into one bound
    per axis. *)
Ltac split_range H :=
  repeat lazymatch type of H with
  | in_range (_ :: _) ?idx = true =>
      let i := fresh "i" in
      let Hi := fresh "Hi" in
      let idx' := fresh "idx" in
      apply in_range_cons_inv in H as (i & idx' & -> & Hi & H)
  | in_range [] ?idx = true =>
      apply in_range_nil_inv in H as ->
  end.

Ltac prove_range :=
  cbn [in_range];
  repeat (apply andb_true_intro; split); try reflexivity;
  apply Nat.ltb_lt.

Lemma unfold_count (n size step k : nat) :
  0 < step -> size <= n -> k < (n - size) / step + 1 ->
  forall i, i < size -> k * step + i < n.
Proof.
  intros Hstep Hsize Hk i Hi.
  assert (k <= (n - size) / step) as Hle by lia.
  pose proof (Nat.Div0.mul_div_le (n - size) step) as Hm.
  nia.
Qed.

Lemma tiles_count (n w : nat) : 0 < n -> 0 < w -> (n * w - w) / w + 1 = n.
Proof.
  intros Hn Hw. replace (n * w - w) with ((n - 1) * w) by nia.
  rewrite Nat.div_mul by lia. lia.
Qed.

Section Windows.
Context {A : Type} `{Dtype A}.

Lemma unfold_rows (t : Tensor A) (a b c d size step : nat) :
  shape t = [a; b; c; d] -> size <= b -> 0 < step ->
  unfold t (-3) size step =
  Ok (build [a; (b - size) / step + 1; c; d; size]
        (fun idx =>
           get t (set_nth 1 (nth 1 idx 0 * step + nth 4 idx 0)
                    (firstn 4 idx)))).
Proof.
  intros Hs Hsize Hstep.
  rewrite (unfold_ok t (-3) size step 1); unfold dim; rewrite ?Hs;
    [reflexivity | reflexivity | cbn [nth]; lia | lia].
Qed.

Lemma unfold_cols (t : Tensor A) (a b c d e size step : nat) :
  shape t = [a; b; c; d; e] -> size <= c -> 0 < step ->
  unfold t (-3) size step =
  Ok (build [a; b; (c - size) / step + 1; d; e; size]
        (fun idx =>
           get t (set_nth 2 (nth 2 idx 0 * step + nth 5 idx 0)
                    (firstn 5 idx)))).
Proof.
  intros Hs Hsize Hstep.
  rewrite (unfold_ok t (-3) size step 2); unfold dim; rewrite ?Hs;
    [reflexivity | reflexivity | cbn [nth]; lia | lia].
Qed.

(** The permutation of [_extract_windows]: channels go last. *)
Lemma permute_windows (t : Tensor A) (a b c d e f : nat) :
  shape t = [a; b; c; d; e; f] ->
  permute t [0; -5; -4; -2; -1; -3]%Z =
  Ok (build [a; b; c; e; f; d]
        (fun idx =>
           get t (map (fun j => nth (index_of j [0; 1; 2; 4; 5; 3]) idx 0)
                    (seq 0 6)))).
Proof.
  intros Hs.
  rewrite (permute_ok t _ [0; 1; 2; 4; 5; 3]); unfold dim; rewrite ?Hs;
    reflexivity.
Qed.

(** The permutation of the merge and of patch expanding: axes 2 and 3
    change places. *)
Lemma permute_swap23 (t : Tensor A) (dims : list Z) (a b c d e f : nat) :
  dims = [0; -5; -3; -4; -2; -1]%Z \/ dims = [0; 1; 3; 2; 4; 5]%Z ->
  shape t = [a; b; c; d; e; f] ->
  permute t dims =
  Ok (build [a; b; d; c; e; f]
        (fun idx =>
           get t (map (fun j => nth (index_of j [0; 1; 3; 2; 4; 5]) idx 0)
                    (seq 0 6)))).
Proof.
  intros Hd Hs.
  rewrite (permute_ok t dims [0; 1; 3; 2; 4; 5]); unfold dim; rewrite ?Hs;
    destruct Hd as [-> | ->]; reflexivity.
Qed.

Lemma numel_windows (a b c wh ww d : nat) :
  numel [a; b; c; wh * ww; d] = numel [a; b; c; wh; ww; d].
Proof. cbn [numel fold_right]. lia. Qed.

Lemma ravel_windows (a b c wh ww d i0 i1 i2 i j i3 : nat) :
  j < ww ->
  ravel [a; b; c; wh * ww; d] [i0; i1; i2; i * ww + j; i3] =
  ravel [a; b; c; wh; ww; d] [i0; i1; i2; i; j; i3].
Proof. intros _. cbn [ravel numel fold_right]. lia. Qed.

(** What [_extract_windows] returns, for any stride: the windows that fit
    entirely, each flattened row by row. *)
Lemma extract_windows_strided (x : Tensor A) (B Hh W C wh ww : nat)
    (osh osw : option nat) :
  let sh := default wh osh in
  let sw := default ww osw in
  let nh := (Hh - wh) / sh + 1 in
  let nw := (W - ww) / sw + 1 in
  shape x = [B; Hh; W; C] -> wh <= Hh -> ww <= W -> 0 < sh -> 0 < sw ->
  exists w,
    _extract_windows x wh ww osh osw = Ok w /\
    shape w = [B; nh; nw; wh * ww; C] /\ wf w /\
    forall b h v i j c,
      b < B -> h < nh -> v < nw -> i < wh -> j < ww -> c < C ->
      get w [b; h; v; i * ww + j; c] = get x [b; h * sh + i; v * sw + j; c].
Proof.
  intros sh sw nh nw Hs Hwh Hww Hsh Hsw.
  unfold _extract_windows. fold sh sw. rewrite Hs. cbn [rev app].
  rewrite (unfold_rows x B Hh W C wh sh Hs Hwh Hsh).
  cbn [mbind Py.result_bind Py.bind]. fold nh.
  set (U1 := build [B; nh; W; C; wh] _).
  rewrite (unfold_cols U1 B nh W C wh ww sw eq_refl Hww Hsw).
  cbn [mbind Py.result_bind Py.bind]. fold nw.
  set (U2 := build [B; nh; nw; C; wh; ww] _).
  rewrite (permute_windows U2 B nh nw C wh ww eq_refl).
  cbn [mbind Py.result_bind Py.bind].
  set (P1 := build [B; nh; nw; wh; ww; C] _).
  change (shape P1) with [B; nh; nw; wh; ww; C]. cbn [rev app].
  rewrite reshape_ok by apply numel_windows.
  eexists. split; [reflexivity|]. split; [reflexivity|]. split.
  { unfold wf. cbn [shape data]. rewrite numel_windows. apply (wf_build _ _). }
  intros b h v i j c Hb Hh' Hv Hi Hj Hc.
  unfold get at 1. cbn [shape data]. rewrite ravel_windows by exact Hj.
  change (nth _ (data P1) zero) with (get P1 [b; h; v; i; j; c]).
  pose proof (unfold_count Hh wh sh h Hsh Hwh Hh' i Hi) as Hrow.
  pose proof (unfold_count W ww sw v Hsw Hww Hv j Hj) as Hcol.
  unfold P1. rewrite get_build by (prove_range; lia).
  cbn [map seq nth index_of Nat.eqb].
  unfold U2. rewrite get_build by (prove_range; lia).
  cbn [firstn nth set_nth].
  unfold U1. rewrite get_build by (prove_range; lia).
  cbn [firstn nth set_nth]. reflexivity.
Qed.

Lemma ravel_merge (a nh wh nw ww d i0 h i v j i3 : nat) :
  ravel [a; nh * wh; nw * ww; d] [i0; h * wh + i; v * ww + j; i3] =
  ravel [a; nh; wh; nw; ww; d] [i0; h; i; v; j; i3].
Proof. cbn [ravel numel fold_right]. lia. Qed.

(** What the merge returns: window [(h, v)] lands at rows [h*wh ..] and
    columns [v*ww ..]. *)
Lemma merge_windows_get (w : Tensor A) (B nh nw C wh ww : nat) :
  shape w = [B; nh; nw; wh * ww; C] ->
  exists m,
    merge_windows wh ww [B] nh nw C w = Ok m /\
    shape m = [B; nh * wh; nw * ww; C] /\ wf m /\
    forall b h v i j c,
      b < B -> h < nh -> v < nw -> i < wh -> j < ww -> c < C ->
      get m [b; h * wh + i; v * ww + j; c] = get w [b; h; v; i * ww + j; c].
Proof.
  intros Hs. unfold merge_windows. cbn [app].
  rewrite reshape_ok by (rewrite Hs; symmetry; apply numel_windows).
  cbn [mbind Py.result_bind Py.bind].
  set (W6 := mkTensor [B; nh; nw; wh; ww; C] (data w)).
  rewrite (permute_swap23 W6 _ B nh nw wh ww C (or_introl eq_refl) eq_refl).
  cbn [mbind Py.result_bind Py.bind].
  set (P2 := build [B; nh; wh; nw; ww; C] _).
  assert (numel [B; nh * wh; nw * ww; C] = numel (shape P2)) as Hn
    by (cbn [P2 shape build numel fold_right]; lia).
  rewrite reshape_ok by exact Hn.
  eexists. split; [reflexivity|]. split; [reflexivity|]. split.
  { unfold wf. cbn [shape data]. rewrite Hn. apply (wf_build _ _). }
  intros b h v i j c Hb Hh Hv Hi Hj Hc.
  unfold get at 1. cbn [shape data]. rewrite ravel_merge.
  change (nth _ (data P2) zero) with (get P2 [b; h; i; v; j; c]).
  unfold P2. rewrite get_build by (prove_range; lia).
  cbn [map seq nth index_of Nat.eqb].
  unfold get, W6. cbn [shape data]. rewrite Hs, ravel_windows by exact Hj.
  reflexivity.
Qed.

Lemma split_offset (y n w : nat) :
  0 < w -> y < n * w ->
  y = y / w * w + y mod w /\ y / w < n /\ y mod w < w.
Proof.
  intros Hw Hy. pose proof (Nat.div_mod_eq y w).
  pose proof (Nat.mod_upper_bound y w ltac:(lia)).
  repeat split; [lia | | lia].
  apply Nat.Div0.div_lt_upper_bound. lia.
Qed.

(** Whole windows: extraction succeeds and the merge undoes it. *)
Lemma extract_then_merge_whole (x : Tensor A) (B nh nw C wh ww : nat) :
  wf x -> shape x = [B; nh * wh; nw * ww; C] ->
  0 < nh -> 0 < nw -> 0 < wh -> 0 < ww ->
  exists w,
    _extract_windows x wh ww None None = Ok w /\
    shape w = [B; nh; nw; wh * ww; C] /\
    merge_windows wh ww [B] nh nw C w = Ok x.
Proof.
  intros Hwf Hs Hnh Hnw Hwh Hww.
  destruct (extract_windows_strided x B (nh * wh) (nw * ww) C wh ww None None)
    as (w & Hext & Hsw & Hwfw & Hgetw); cbn [default]; try assumption;
    try nia.
  rewrite !tiles_count in Hsw, Hgetw by assumption. cbn [default] in Hgetw.
  exists w. split; [exact Hext|]. split; [exact Hsw|].
  destruct (merge_windows_get w B nh nw C wh ww Hsw)
    as (m & Hm & Hsm & Hwfm & Hgetm).
  rewrite Hm. f_equal.
  apply tensor_ext; [exact Hwfm | exact Hwf | congruence |].
  rewrite Hsm. intros idx Hx. split_range Hx.
  match goal with
  | Hy : ?y < nh * wh, Hz : ?z < nw * ww |- _ =>
      destruct (split_offset y nh wh Hwh Hy) as (Ey & Hy1 & Hy2);
      destruct (split_offset z nw ww Hww Hz) as (Ez & Hz1 & Hz2);
      rewrite Ey, Ez
  end.
  rewrite Hgetm by assumption. apply Hgetw; assumption.
Qed.

(** An axis shorter than the window, or a window of size zero, makes
    [unfold] raise. *)
Lemma extract_windows_raises (x : Tensor A) (B Hh W C wh ww : nat) :
  shape x = [B; Hh; W; C] ->
  Hh < wh \/ wh = 0 \/ W < ww \/ ww = 0 ->
  _extract_windows x wh ww None None = Raise RuntimeError.
Proof.
  intros Hs Hbad. unfold _extract_windows. rewrite Hs.
  cbn [rev app default].
  destruct (Nat.ltb_spec Hh wh) as [Hlt|Hge].
  { rewrite (unfold_too_small x (-3) wh wh 1); unfold dim; rewrite ?Hs;
      [reflexivity | reflexivity | cbn [nth]; lia]. }
  destruct (Nat.eqb_spec wh 0) as [->|Hwh].
  { rewrite (unfold_zero_step x (-3) 0 1); unfold dim; rewrite ?Hs;
      reflexivity. }
  rewrite (unfold_rows x B Hh W C wh wh Hs) by lia.
  cbn [mbind Py.result_bind Py.bind].
  set (U1 := build _ _).
  destruct (Nat.ltb_spec W ww) as [Hlt|Hge'].
  { rewrite (unfold_too_small U1 (-3) ww ww 2);
      [reflexivity | reflexivity | cbn [U1 shape build nth]; lia]. }
  assert (ww = 0) as -> by lia.
  rewrite (unfold_zero_step U1 (-3) 0 2); reflexivity.
Qed.

(** C3. With the stride equal to the window size, on a feature map
    [[B, H, W, C]] whose height and width are multiples of the window
    height and width, the windows returned by [_extract_windows], put
    through the merge of [SwinResidualCrossAttention.forward] (reshape,
    permute, reshape), give back the feature map itself; and the windows
    can be extracted from every map that is not empty. *)
Theorem extract_then_merge_is_identity
    (x : Tensor A) (B Hh W C wh ww : nat) :
  wf x -> shape x = [B; Hh; W; C] ->
  Nat.divide wh Hh -> Nat.divide ww W ->
  (0 < Hh -> 0 < W -> exists w, _extract_windows x wh ww None None = Ok w) /\
  (forall w,
     _extract_windows x wh ww None None = Ok w ->
     shape w = [B; Hh / wh; W / ww; wh * ww; C] /\
     merge_windows wh ww [B] (Hh / wh) (W / ww) C w = Ok x).
Proof.
  intros Hwf Hs [nh Eh] [nw Ew].
  destruct (Nat.eq_dec Hh 0) as [Hz|Hpos].
  { rewrite (extract_windows_raises x B Hh W C wh ww Hs) by lia.
    split; [lia | discriminate]. }
  destruct (Nat.eq_dec W 0) as [Hz|Hpos'].
  { rewrite (extract_windows_raises x B Hh W C wh ww Hs) by lia.
    split; [lia | discriminate]. }
  subst Hh W.
  assert (0 < nh /\ 0 < wh /\ 0 < nw /\ 0 < ww) as (Hnh & Hwh & Hnw & Hww)
    by nia.
  rewrite !Nat.div_mul by lia.
  destruct (extract_then_merge_whole x B nh nw C wh ww)
    as (w & Hext & Hsw & Hm); try assumption.
  rewrite Hext. split; [eauto|]. intros w' [= <-]. auto.
Qed.

(** The merge looks at the elements of its argument only, not at how they
    were shaped. *)
Lemma merge_windows_data (t t' : Tensor A) (wh ww : nat) (Bs : list nat)
    (nh nw C : nat) :
  data t = data t' -> numel (shape t) = numel (shape t') ->
  merge_windows wh ww Bs nh nw C t = merge_windows wh ww Bs nh nw C t'.
Proof.
  intros Hd Hn. unfold merge_windows, reshape. rewrite Hd, Hn. reflexivity.
Qed.

(** X14. The whole of [forward], for an attention layer that hands back its
    queries: a map fused with itself comes back unchanged. *)
Lemma forward_returning_queries (self : SwinResidualCrossAttention A)
    (x : Tensor A) (B nh nw C : nat) :
  let wh := window_height self in
  let ww := window_width self in
  (forall Q K V, cross_attention self Q K V = Ok Q) ->
  wf x -> shape x = [B; nh * wh; nw * ww; C] ->
  0 < nh -> 0 < nw -> 0 < wh -> 0 < ww -> 0 < C ->
  forward self x x = Ok x.
Proof.
  intros wh ww Hattn Hwf Hs Hnh Hnw Hwh Hww HC.
  destruct (extract_then_merge_whole x B nh nw C wh ww)
    as (w & Hext & Hsw & Hm); try assumption.
  unfold forward. fold wh ww. rewrite Hext.
  cbn [mbind Py.result_bind Py.bind].
  rewrite bool_decide_true by reflexivity. cbn [negb].
  unfold attend. rewrite Hsw. cbn [rev app]. fold wh ww.
  set (p := numel [wh * ww; C]).
  assert (numel [B; nh; nw; wh * ww; C] = B * nh * nw * p) as Hn
    by (unfold p; cbn [numel fold_right]; lia).
  assert (0 < p) as Hp by (unfold p; cbn [numel fold_right]; nia).
  unfold reshape_infer. fold p. rewrite Hsw, Hn.
  destruct (Nat.eqb_spec p 0) as [|_]; [lia|].
  rewrite Nat.Div0.mod_mul, Nat.eqb_refl. cbn [negb].
  cbn [mbind Py.result_bind Py.bind].
  rewrite Hattn. cbn [mbind Py.result_bind Py.bind].
  rewrite <- Hm. apply merge_windows_data; [reflexivity|].
  cbn [shape]. rewrite Hsw, Hn, Nat.div_mul by lia.
  change (numel (B * nh * nw :: [wh * ww; C])) with (B * nh * nw * p).
  reflexivity.
Qed.

(** With a channel count that is a multiple of four nothing is padded,
    whatever the flag. *)
Lemma pad_expansion_aligned (x : Tensor A) (Bs : list nat) (Hh W C : nat)
    (distributed : bool) :
  shape x = Bs ++ [Hh; W; C] -> C mod 4 = 0 ->
  _pad_expansion x distributed = Ok x.
Proof.
  intros Hs HC. unfold _pad_expansion. rewrite Hs, rev_app_distr.
  cbn [rev app]. rewrite HC. reflexivity.
Qed.

(** Element by element: [out[b, 2h+p, 2v+q, c] = x[b, h, v, (2p+q)*C + c]]. *)
Lemma patch_expanding_get (x : Tensor A) (B Hh W C : nat) :
  shape x = [B; Hh; W; 4 * C] ->
  exists y,
    _patch_expanding_pad x = Ok y /\
    shape y = [B; Hh * 2; W * 2; C] /\ wf y /\
    forall b h v p q c,
      b < B -> h < Hh -> v < W -> p < 2 -> q < 2 -> c < C ->
      get y [b; h * 2 + p; v * 2 + q; c] =
      get x [b; h; v; (p * 2 + q) * C + c].
Proof.
  intros Hs. unfold _patch_expanding_pad. rewrite Hs. cbn [rev app].
  rewrite (pad_expansion_aligned x [B] Hh W (4 * C) false Hs)
    by (rewrite Nat.mul_comm; apply Nat.Div0.mod_mul).
  cbn [mbind Py.result_bind Py.bind].
  replace (4 * C / 4) with C by (rewrite Nat.mul_comm, Nat.div_mul; lia).
  unfold view.
  rewrite reshape_ok by (rewrite Hs; cbn [numel fold_right]; lia).
  cbn [mbind Py.result_bind Py.bind].
  set (V6 := mkTensor [B; Hh; W; 2; 2; C] (data x)).
  rewrite (permute_swap23 V6 _ B Hh W 2 2 C (or_intror eq_refl) eq_refl).
  cbn [mbind Py.result_bind Py.bind].
  set (P := build [B; Hh; 2; W; 2; C] _).
  assert (numel [B; Hh * 2; W * 2; C] = numel (shape P)) as Hn
    by (cbn [P shape build numel fold_right]; lia).
  rewrite reshape_ok by exact Hn.
  cbn [mbind Py.result_bind Py.bind].
  eexists. split; [reflexivity|]. split; [reflexivity|]. split.
  { unfold wf. cbn [shape data]. rewrite Hn. apply (wf_build _ _). }
  intros b h v p q c Hb Hh' Hv Hp Hq Hc.
  unfold get at 1. cbn [shape data]. rewrite ravel_merge.
  change (nth _ (data P) zero) with (get P [b; h; p; v; q; c]).
  unfold P. rewrite get_build by (prove_range; lia).
  cbn [map seq nth index_of Nat.eqb].
  unfold get, V6. cbn [shape data]. rewrite Hs. f_equal.
  cbn [ravel numel fold_right]. lia.
Qed.

(** C4. On a tensor [[B, H, W, C]] whose channel count is a multiple of
    four, [_patch_expanding_pad] returns a tensor of shape
    [[B, 2H, 2W, C/4]]: height and width doubled, channels quartered, the
    number of elements unchanged. *)
Theorem patch_expanding_shape (x : Tensor A) (B Hh W C : nat) :
  shape x = [B; Hh; W; C] -> Nat.divide 4 C ->
  exists y,
    _patch_expanding_pad x = Ok y /\
    shape y = [B; 2 * Hh; 2 * W; C / 4] /\
    numel (shape y) = numel (shape x) /\
    length (data y) = numel (shape x).
Proof.
  intros Hs [c ->]. rewrite (Nat.mul_comm c 4) in *.
  destruct (patch_expanding_get x B Hh W c Hs) as (y & Hy & Hsy & Hwf & _).
  exists y. split; [exact Hy|].
  replace (4 * c / 4) with c by (rewrite Nat.mul_comm, Nat.div_mul; lia).
  assert (numel (shape y) = numel (shape x)) as Hn
    by (rewrite Hsy, Hs; cbn [numel fold_right]; lia).
  split; [rewrite Hsy, (Nat.mul_comm Hh 2), (Nat.mul_comm W 2); reflexivity|].
  split; [exact Hn|]. rewrite <- Hn. exact Hwf.
Qed.

Lemma pad_amount (C : nat) :
  C mod 4 <> 0 ->
  (4 - C mod 4) mod 4 = 4 - C mod 4 /\ 0 < 4 - C mod 4 < 4 /\
  (C + (4 - C mod 4)) mod 4 = 0.
Proof.
  intros HC. pose proof (Nat.mod_upper_bound C 4 ltac:(lia)) as Hlt.
  pose proof (Nat.div_mod_eq C 4) as Hdm.
  split; [apply Nat.mod_small; lia|]. split; [lia|].
  replace (C + (4 - C mod 4)) with ((C / 4 + 1) * 4) by lia.
  apply Nat.Div0.mod_mul.
Qed.

(** C6, as the code has it.  [_pad_expansion] returns its argument
    unchanged when the channel count is a multiple of four, whatever the
    flag; otherwise [distributed=True] raises [NotImplementedError] and
    [distributed=False] appends zeros to the channel axis up to the next
    multiple of four. *)
Theorem pad_expansion_cases (x : Tensor A) (Bs : list nat) (Hh W C : nat) :
  shape x = Bs ++ [Hh; W; C] ->
  let pad_c := (4 - C mod 4) mod 4 in
  (C mod 4 = 0 -> forall distributed, _pad_expansion x distributed = Ok x) /\
  (C mod 4 <> 0 ->
   _pad_expansion x true = Raise NotImplementedError /\
   exists y,
     _pad_expansion x false = Ok y /\
     shape y = Bs ++ [Hh; W; C + pad_c] /\ wf y /\
     0 < pad_c < 4 /\ (C + pad_c) mod 4 = 0 /\
     forall idx c,
       in_range (Bs ++ [Hh; W]) idx = true -> c < C + pad_c ->
       get y (idx ++ [c]) = if c <? C then get x (idx ++ [c]) else zero).
Proof.
  intros Hs pad_c. split.
  { intros HC d. exact (pad_expansion_aligned x Bs Hh W C d Hs HC). }
  intros HC. destruct (pad_amount C HC) as (Hp & Hrange & Hmul).
  assert (rev (shape x) = C :: W :: Hh :: rev Bs) as Hrev
    by (rewrite Hs, rev_app_distr; reflexivity).
  assert ((pad_c =? 0) = false) as Hz
    by (apply Nat.eqb_neq; unfold pad_c; lia).
  unfold _pad_expansion. rewrite Hrev. fold pad_c. rewrite Hz.
  split; [reflexivity|]. cbn [negb].
  unfold pad_last. rewrite Hrev. eexists. split; [reflexivity|].
  assert (rev (W :: Hh :: rev Bs) ++ [C + pad_c] = Bs ++ [Hh; W; C + pad_c])
    as Hshape
    by (cbn [rev]; rewrite rev_involutive, <- !app_assoc; reflexivity).
  rewrite Hshape. split; [reflexivity|]. split; [apply (wf_build _ _)|].
  split; [unfold pad_c; lia|]. split; [unfold pad_c; rewrite Hp; exact Hmul|].
  intros idx c Hx Hc.
  rewrite get_build.
  - rewrite last_last. reflexivity.
  - change (Bs ++ [Hh; W; C + pad_c]) with (Bs ++ [Hh; W] ++ [C + pad_c]).
    rewrite app_assoc. apply in_range_app; [exact Hx|].
    cbn [in_range]. apply andb_true_intro. split; [|reflexivity].
    apply Nat.ltb_lt. exact Hc.
Qed.

(** The shape of the windows when the stride is the window size. *)
Lemma extract_windows_shape (x : Tensor A) (B Hh W C wh ww : nat) :
  shape x = [B; Hh; W; C] -> wh <= Hh -> ww <= W -> 0 < wh -> 0 < ww ->
  exists w,
    _extract_windows x wh ww None None = Ok w /\
    shape w = [B; window_count Hh wh; window_count W ww; wh * ww; C].
Proof.
  intros Hs Hwh Hww Hpwh Hpww.
  destruct (extract_windows_strided x B Hh W C wh ww None None)
    as (w & Hext & Hsw & _); cbn [default]; try assumption.
  exists w. split; [exact Hext | exact Hsw].
Qed.

(** When both feature maps are made of whole windows, any difference in
    height or width is caught by the assertion. *)
Lemma forward_mismatch_whole_windows (self : SwinResidualCrossAttention A)
    (x residual : Tensor A) (B Hh W C B' Hh' W' C' : nat) :
  let wh := window_height self in
  let ww := window_width self in
  shape x = [B; Hh; W; C] -> shape residual = [B'; Hh'; W'; C'] ->
  0 < Hh -> 0 < W -> 0 < Hh' -> 0 < W' ->
  Nat.divide wh Hh -> Nat.divide ww W ->
  Nat.divide wh Hh' -> Nat.divide ww W' ->
  (Hh, W) <> (Hh', W') ->
  forward self x residual = Raise AssertionError.
Proof.
  intros wh ww Hs Hs' H1 H2 H3 H4 [a Ea] [b Eb] [a' Ea'] [b' Eb'] Hne.
  assert (0 < wh /\ 0 < ww /\ 0 < a /\ 0 < b /\ 0 < a' /\ 0 < b')
    as (Hp1 & Hp2 & Hp3 & Hp4 & Hp5 & Hp6) by nia.
  destruct (extract_windows_shape x B Hh W C wh ww Hs)
    as (xc & Hx & Hsx); try nia.
  destruct (extract_windows_shape residual B' Hh' W' C' wh ww Hs')
    as (rc & Hr & Hsr); try nia.
  unfold forward. fold wh ww. rewrite Hx, Hr.
  cbn [mbind Py.result_bind Py.bind]. rewrite Hsx, Hsr.
  case_bool_decide as Heq; [|reflexivity]. exfalso. apply Hne.
  injection Heq as _ Ec1 Ec2 _. unfold window_count in Ec1, Ec2.
  subst Hh W Hh' W'. rewrite !tiles_count in Ec1, Ec2 by assumption.
  congruence.
Qed.

(** C5, as the code has it.  The assertion of
    [SwinResidualCrossAttention.forward] compares the shapes of the windows,
    not of the feature maps: the call fails with [AssertionError] exactly
    when the batch sizes, the channel counts or the numbers of whole windows
    per axis differ, and goes on to the attention otherwise. *)
Theorem forward_shape_check (self : SwinResidualCrossAttention A)
    (x residual : Tensor A) (B Hh W C B' Hh' W' C' : nat) :
  let wh := window_height self in
  let ww := window_width self in
  shape x = [B; Hh; W; C] -> shape residual = [B'; Hh'; W'; C'] ->
  0 < wh -> 0 < ww -> wh <= Hh -> ww <= W -> wh <= Hh' -> ww <= W' ->
  exists x_context residual_context,
    _extract_windows x wh ww None None = Ok x_context /\
    _extract_windows residual wh ww None None = Ok residual_context /\
    forward self x residual =
    if bool_decide
         ((B, window_count Hh wh, window_count W ww, C) =
          (B', window_count Hh' wh, window_count W' ww, C'))
    then attend self x_context residual_context
    else Raise AssertionError.
Proof.
  intros wh ww Hs Hs' Hpwh Hpww Hwh Hww Hwh' Hww'.
  destruct (extract_windows_shape x B Hh W C wh ww Hs Hwh Hww Hpwh Hpww)
    as (xc & Hx & Hsx).
  destruct (extract_windows_shape residual B' Hh' W' C' wh ww
              Hs' Hwh' Hww' Hpwh Hpww) as (rc & Hr & Hsr).
  exists xc, rc. split; [exact Hx|]. split; [exact Hr|].
  unfold forward. fold wh ww. rewrite Hx, Hr.
  cbn [mbind Py.result_bind Py.bind]. rewrite Hsx, Hsr.
  repeat case_bool_decide; try reflexivity; exfalso.
  - match goal with Hn : _ <> _ |- _ => apply Hn end. congruence.
  - match goal with Hn : _ <> _ |- _ => apply Hn end. congruence.
Qed.

End Windows.
End XSwinFacts.

(** ** The SE(3) geodesic loss ([src/models/modules/geodesic_loss.py]) *)

Module GeodesicLossFacts.
Import GeodesicLoss.
#[local] Open Scope R_scope.

Lemma combine_diag {T : Type} (l : list T) :
  combine l l = map (fun a => (a, a)) l.
Proof. induction l as [|a l IH]; [reflexivity|]. cbn. f_equal. exact IH. Qed.

Lemma sum_zero (l : list R) : Forall (fun v => v = 0) l -> sum l = 0.
Proof.
  induction 1 as [|v l Hv _ IH]; [reflexivity|].
  cbn [sum fold_right]. fold (sum l). lra.
Qed.

Lemma sum_const (c : R) (n : nat) : sum (repeat c n) = INR n * c.
Proof.
  induction n as [|n IH]; [cbn; lra|].
  cbn [repeat sum fold_right]. fold (sum (repeat c n)).
  rewrite IH, S_INR. lra.
Qed.

Lemma mean_const (c : R) (l : list R) :
  l <> [] -> Forall (fun v => v = c) l -> mean l = Some c.
Proof.
  intros Hne Hall.
  assert (l = repeat c (length l)) as ->.
  { clear Hne. induction Hall as [|v l Hv _ IH]; [reflexivity|].
    cbn [length repeat]. f_equal; [exact Hv | exact IH]. }
  destruct (length l) as [|n] eqn:E.
  { destruct l; [contradiction | discriminate]. }
  change (repeat c (S n)) with (c :: repeat c n) at 1. unfold mean.
  change (c :: repeat c n) with (repeat c (S n)).
  rewrite sum_const, repeat_length. f_equal. field.
  apply not_0_INR. discriminate.
Qed.

Lemma sub_diag (u : list R) : Forall (fun v => v = 0) (sub u u).
Proof.
  unfold sub. rewrite combine_diag, map_map.
  apply List.Forall_map. apply List.Forall_forall. intros a _. cbn. lra.
Qed.

Lemma norm_zero (l : list R) : Forall (fun v => v = 0) l -> norm l = 0.
Proof.
  intros Hall. unfold norm. rewrite sum_zero; [apply sqrt_0|].
  apply List.Forall_map. eapply List.Forall_impl; [|exact Hall].
  cbn. intros a ->. lra.
Qed.

(** Identical translations: the difference is zero everywhere. *)
Lemma translation_loss_diag (b : Batch) : translation_loss b b = 0.
Proof.
  unfold translation_loss. apply norm_zero.
  rewrite combine_diag, map_map. apply List.Forall_concat.
  apply List.Forall_map. apply List.Forall_forall. intros u _.
  apply sub_diag.
Qed.

(** The clamp turns a cosine of one into 0.9999. *)
Lemma clamp_one : clamp 1 (-0.9999) 0.9999 = 0.9999.
Proof.
  unfold clamp. rewrite Rmax_left by lra. apply Rmin_right. lra.
Qed.

Lemma acos_clamped_positive : 0 < acos 0.9999.
Proof. apply acos_bound_lt. lra. Qed.

Lemma theta_diag (T : Transform) : orthogonal T -> theta T T = acos 0.9999.
Proof.
  intros Ho. unfold theta, trace. cbn [seq map sum fold_right].
  rewrite !Ho by lia. cbn [eye Nat.eqb].
  replace ((1 + (1 + (1 + 0)) - 1) / 2) with 1 by lra.
  rewrite clamp_one. reflexivity.
Qed.

Lemma rotation_loss_diag (b : Batch) :
  b <> [] -> Forall orthogonal b -> rotation_loss b b = Some (acos 0.9999).
Proof.
  intros Hne Ho. unfold rotation_loss. apply mean_const.
  - destruct b; [contradiction|]. discriminate.
  - rewrite combine_diag, map_map. apply List.Forall_map.
    eapply List.Forall_impl; [|exact Ho]. intros T HT.
    apply theta_diag, HT.
Qed.

Lemma acos_antitone (x y : R) :
  -1 <= x -> x <= y -> y <= 1 -> acos y <= acos x.
Proof.
  intros Hx Hxy Hy.
  pose proof (acos_bound x) as [Hx0 Hx1].
  pose proof (acos_bound y) as [Hy0 Hy1].
  apply cos_decr_0; try assumption.
  rewrite !cos_acos by lra. exact Hxy.
Qed.

Lemma clamp_range (x : R) :
  -0.9999 <= clamp x (-0.9999) 0.9999 <= 0.9999.
Proof.
  unfold clamp. split; [|apply Rmin_r].
  apply Rmin_glb; [apply Rmax_r | lra].
Qed.

(** Whatever the two transforms, the angle is at least [acos 0.9999]. *)
Lemma theta_lower_bound (p t : Transform) : acos 0.9999 <= theta p t.
Proof.
  unfold theta. pose proof (clamp_range ((trace
    (matmul_transpose (rotation p) (rotation t)) - 1) / 2)) as [Hlo Hhi].
  apply acos_antitone; lra.
Qed.

Lemma sum_lower_bound (c : R) (l : list R) :
  Forall (fun v => c <= v) l -> INR (length l) * c <= sum l.
Proof.
  induction 1 as [|v l Hv _ IH].
  - cbn. lra.
  - cbn [sum fold_right]. fold (sum l). change (length (v :: l)) with (S (length l)).
    rewrite S_INR. lra.
Qed.

Lemma mean_lower_bound (c : R) (l : list R) :
  l <> [] -> Forall (fun v => c <= v) l ->
  exists r, mean l = Some r /\ c <= r.
Proof.
  intros Hne Hall. destruct l as [|v l]; [contradiction|].
  eexists. split; [reflexivity|].
  pose proof (sum_lower_bound c (v :: l) Hall) as Hsum.
  assert (0 < INR (length (v :: l))) as Hn
    by (apply lt_0_INR; cbn; lia).
  apply (Rmult_le_reg_l (INR (length (v :: l)))); [exact Hn|].
  replace (INR (length (v :: l)) * (sum (v :: l) / INR (length (v :: l))))
    with (sum (v :: l)) by (field; lra).
  exact Hsum.
Qed.

Lemma rotation_loss_lower_bound (predicted target : Batch) :
  predicted <> [] -> target <> [] ->
  exists r,
    rotation_loss predicted target = Some r /\ acos 0.9999 <= r.
Proof.
  intros Hp Ht. unfold rotation_loss. apply mean_lower_bound.
  - destruct predicted; [contradiction|]. destruct target; [contradiction|].
    discriminate.
  - apply List.Forall_map. apply List.Forall_forall.
    intros [p t] _. apply theta_lower_bound.
Qed.

Lemma forward_terms (self : SpecialEuclideanGeodesicLoss) (b : Batch) :
  exists rest,
    forward self b b true =
    Ok (Terms (rotation_loss b b :: Some 0 :: rest)).
Proof.
  unfold forward. rewrite Nat.eqb_refl. cbn [negb].
  rewrite translation_loss_diag.
  destruct (SO_weight self); eexists; reflexivity.
Qed.

Lemma forward_diag (self : SpecialEuclideanGeodesicLoss) (b : Batch) :
  b <> [] -> Forall orthogonal b ->
  exists rest,
    forward self b b true =
    Ok (Terms (Some (acos 0.9999) :: Some 0 :: rest)).
Proof.
  intros Hne Ho. unfold forward. rewrite Nat.eqb_refl. cbn [negb].
  rewrite translation_loss_diag, (rotation_loss_diag b Hne Ho).
  destruct (SO_weight self); eexists; reflexivity.
Qed.

Lemma identity_orthogonal : orthogonal identity_transform.
Proof.
  intros i j Hi Hj. unfold matmul_transpose, rotation, identity_transform.
  cbn [seq map sum fold_right].
  destruct i as [|[|[|i]]]; [| | |lia];
    destruct j as [|[|[|j]]]; try lia; cbn [eye Nat.eqb]; lra.
Qed.

(** C1, as the code has it.  For a batch of transforms compared with
    itself the translation term is 0.  The rotation term is not: the clamp
    keeps the cosine at or below 0.9999, so for a non-empty batch the term
    is at least [acos 0.9999], which is positive, and it is exactly
    [acos 0.9999] when the rotation blocks are orthogonal. *)
Theorem identical_transforms_loss
    (self : SpecialEuclideanGeodesicLoss) (b : Batch) :
  (exists rest,
     forward self b b true =
     Ok (Terms (rotation_loss b b :: Some 0 :: rest))) /\
  (b <> [] ->
   exists r, rotation_loss b b = Some r /\ acos 0.9999 <= r /\ 0 < r) /\
  (b <> [] -> Forall orthogonal b ->
   rotation_loss b b = Some (acos 0.9999)).
Proof.
  split; [apply forward_terms|]. split.
  - intros Hne.
    destruct (rotation_loss_lower_bound b b Hne Hne) as (r & Hr & Hle).
    exists r. pose proof acos_clamped_positive. repeat split; [exact Hr|lra..].
  - apply rotation_loss_diag.
Qed.

(** The translation term of a batch of one is the norm of that sample's
    translation difference, and so is the specification's formula. *)
Lemma translation_loss_single (p t : Transform) :
  translation_loss [p] [t] = norm (sub (translation p) (translation t)) /\
  mean_translation_norm [p] [t] =
  Some (norm (sub (translation p) (translation t))).
Proof.
  split.
  - unfold translation_loss. cbn [map combine concat]. rewrite app_nil_r.
    reflexivity.
  - unfold mean_translation_norm, mean. cbn [map combine length sum fold_right].
    f_equal. cbn [INR]. field.
Qed.

(** C2, at a batch of two.  One prediction is off by one unit along x, the
    other is exact.  The code takes one norm over the whole difference and
    returns 1; the mean of the per-sample norms is 1/2. *)
Theorem translation_loss_is_not_per_sample_mean :
  let predicted := [translated 1 0 0; identity_transform] in
  let target := [identity_transform; identity_transform] in
  (exists r rest,
     forward default_loss predicted target true =
     Ok (Terms (r :: Some 1 :: rest))) /\
  translation_loss predicted target = 1 /\
  mean_translation_norm predicted target = Some (1 / 2).
Proof.
  intros predicted target.
  assert (translation_loss predicted target = 1) as Hcode.
  { unfold translation_loss, norm, predicted, target, translation, sub,
      translated, identity_transform.
    cbn [map seq combine concat app nth Nat.eqb eye sum fold_right].
    replace (_ + _) with 1 by lra. apply sqrt_1. }
  split; [|split; [exact Hcode|]].
  - unfold forward. cbn [length Nat.eqb negb predicted target].
    fold predicted target. rewrite Hcode. cbn [default_loss SO_weight].
    eexists _, _. reflexivity.
  - unfold mean_translation_norm, mean, norm, predicted, target, translation,
      sub, translated, identity_transform.
    cbn [map seq combine concat app nth Nat.eqb eye sum fold_right length].
    f_equal.
    replace ((1 - 0) * (1 - 0) + ((0 - 0) * (0 - 0) + ((0 - 0) * (0 - 0) + 0)))
      with 1 by lra.
    replace ((0 - 0) * (0 - 0) + ((0 - 0) * (0 - 0) + ((0 - 0) * (0 - 0) + 0)))
      with 0 by lra.
    rewrite sqrt_1, sqrt_0. cbn [INR]. lra.
Qed.

End GeodesicLossFacts.

(** ** Rounding to the nearest float *)

Module Binary64Facts.
Import Binary64.
#[local] Open Scope Q_scope.

(** [nearest_even] depends on the number only, leaves the whole numbers
    where they are, moves a number by a half at most, and keeps the
    order. *)
Lemma nearest_even_comp (x y : Q) : x == y -> nearest_even x = nearest_even y.
Proof.
  intros E. unfold nearest_even. rewrite (Qfloor_comp x y E).
  rewrite E. reflexivity.
Qed.

Lemma nearest_even_inject (n : Z) : nearest_even (inject_Z n) = n.
Proof.
  unfold nearest_even. rewrite Qfloor_Z.
  destruct (Qcompare_spec (inject_Z n - inject_Z n) (1 # 2)) as [E|_|E];
    [|reflexivity|]; exfalso; Lqa.lra.
Qed.

Lemma nearest_even_near (x : Q) :
  inject_Z (nearest_even x) - (1 # 2) <= x <= inject_Z (nearest_even x) + (1 # 2).
Proof.
  unfold nearest_even.
  pose proof (Qfloor_le x) as Hlo. pose proof (Qlt_floor x) as Hhi.
  rewrite inject_Z_plus in Hhi. change (inject_Z 1) with 1 in Hhi.
  destruct (Qcompare_spec (x - inject_Z (Qfloor x)) (1 # 2)) as [E|E|E];
    [destruct (Z.even (Qfloor x))| |];
    rewrite ?inject_Z_plus; change (inject_Z 1) with 1; Lqa.lra.
Qed.

Lemma nearest_even_mono (x y : Q) :
  x <= y -> (nearest_even x <= nearest_even y)%Z.
Proof.
  intros Hxy. pose proof (Qfloor_resp_le x y Hxy) as Hfloor.
  unfold nearest_even.
  destruct (Z.eq_dec (Qfloor x) (Qfloor y)) as [E|E].
  - rewrite <- E.
    destruct (Qcompare_spec (x - inject_Z (Qfloor x)) (1 # 2)) as [Ex|Ex|Ex];
      destruct (Qcompare_spec (y - inject_Z (Qfloor x)) (1 # 2)) as [Ey|Ey|Ey];
      try destruct (Z.even (Qfloor x)); try lia; exfalso; Lqa.lra.
  - destruct (x - inject_Z (Qfloor x) ?= 1 # 2);
      destruct (y - inject_Z (Qfloor y) ?= 1 # 2);
      try destruct (Z.even (Qfloor x)); try destruct (Z.even (Qfloor y));
      lia.
Qed.


Lemma pow2_pos (e : Z) : (0 <= e)%Z -> 0 < inject_Z (2 ^ e).
Proof.
  intros He. change 0 with (inject_Z 0). rewrite <- Zlt_Qlt.
  apply Z.pow_pos_nonneg; lia.
Qed.

Lemma Qfloor_nonneg (s : Q) : 0 <= s -> (0 <= Qfloor s)%Z.
Proof. intros Hs. apply (Qfloor_resp_le 0 s Hs). Qed.

Lemma ulp_exponent_nonneg (s : Q) : (0 <= ulp_exponent s)%Z.
Proof. unfold ulp_exponent. lia. Qed.

Lemma ulp_exponent_mono (s t : Q) :
  s <= t -> (ulp_exponent s <= ulp_exponent t)%Z.
Proof.
  intros Hst. unfold ulp_exponent.
  pose proof (Z.log2_le_mono _ _ (Qfloor_resp_le s t Hst)). lia.
Qed.

(** A scaled number lies below [2^53] units of its last place ... *)
Lemma scaled_below (s : Q) :
  0 <= s -> s < inject_Z (2 ^ (ulp_exponent s + 53)).
Proof.
  intros Hs. pose proof (Qfloor_nonneg s Hs) as Hn.
  apply Qlt_le_trans with (inject_Z (Qfloor s + 1)); [apply Qlt_floor|].
  rewrite <- Zle_Qle.
  apply Z.le_trans with (2 ^ (Z.log2 (Qfloor s) + 1))%Z.
  - destruct (Z.eq_dec (Qfloor s) 0%Z) as [-> | Hne]; [cbn; lia|].
    pose proof (Z.log2_spec (Qfloor s) ltac:(lia)) as [_ Hlt].
    unfold Z.succ in Hlt. lia.
  - apply Z.pow_le_mono_r; [lia|]. unfold ulp_exponent. lia.
Qed.

(** ... and, above the subnormal numbers, at [2^52] units or more. *)
Lemma scaled_above (s : Q) :
  (0 < ulp_exponent s)%Z -> inject_Z (2 ^ (ulp_exponent s + 52)) <= s.
Proof.
  intros He. unfold ulp_exponent in *.
  assert (52 < Z.log2 (Qfloor s))%Z as Hlog by lia.
  assert (0 < Qfloor s)%Z as Hn.
  { destruct (Z.lt_ge_cases 0%Z (Qfloor s)) as [H|H]; [exact H|].
    rewrite (Z.log2_nonpos _ H) in Hlog. lia. }
  pose proof (Z.log2_spec (Qfloor s) Hn) as [Hle _].
  apply Qle_trans with (inject_Z (Qfloor s)); [|apply Qfloor_le].
  rewrite <- Zle_Qle.
  replace (Z.max (Z.log2 (Qfloor s) - 52) 0 + 52)%Z
    with (Z.log2 (Qfloor s)) by lia.
  exact Hle.
Qed.

(** So the rounded number of units is [2^53] at most, and [2^52] at least
    above the subnormal numbers. *)
Lemma mantissa_below (s : Q) :
  0 <= s ->
  (nearest_even (s / inject_Z (2 ^ ulp_exponent s)) <= 2 ^ 53)%Z.
Proof.
  intros Hs. rewrite <- (nearest_even_inject (2 ^ 53)).
  apply nearest_even_mono.
  apply Qle_shift_div_r; [apply pow2_pos, ulp_exponent_nonneg|].
  rewrite <- inject_Z_mult, <- Z.pow_add_r, (Z.add_comm 53)
    by (try apply ulp_exponent_nonneg; lia).
  apply Qlt_le_weak, scaled_below, Hs.
Qed.

Lemma mantissa_above (s : Q) :
  (0 < ulp_exponent s)%Z ->
  (2 ^ 52 <= nearest_even (s / inject_Z (2 ^ ulp_exponent s)))%Z.
Proof.
  intros He. rewrite <- (nearest_even_inject (2 ^ 52)) at 1.
  apply nearest_even_mono.
  apply Qle_shift_div_l; [apply pow2_pos, ulp_exponent_nonneg|].
  rewrite <- inject_Z_mult, <- Z.pow_add_r, (Z.add_comm 52)
    by (try apply ulp_exponent_nonneg; lia).
  apply scaled_above, He.
Qed.

(** Rounding keeps the order. *)
Lemma round_scaled_mono (s t : Q) :
  0 <= s -> s <= t -> (round_scaled s <= round_scaled t)%Z.
Proof.
  intros Hs Hst. unfold round_scaled.
  pose proof (ulp_exponent_mono s t Hst) as He.
  pose proof (ulp_exponent_nonneg s) as Hes.
  destruct (Z.eq_dec (ulp_exponent s) (ulp_exponent t)) as [E|E].
  - rewrite <- E. apply Z.mul_le_mono_nonneg_r; [apply Z.pow_nonneg; lia|].
    apply nearest_even_mono.
    apply Qmult_le_compat_r; [exact Hst|].
    apply Qinv_le_0_compat, Qlt_le_weak, pow2_pos, Hes.
  - pose proof (mantissa_below s Hs) as Hlo.
    pose proof (mantissa_above t ltac:(lia)) as Hhi.
    assert (0 < 2 ^ ulp_exponent s)%Z as Hps by (apply Z.pow_pos_nonneg; lia).
    assert (0 < 2 ^ ulp_exponent t)%Z as Hpt by (apply Z.pow_pos_nonneg; lia).
    apply Z.le_trans with (2 ^ 53 * 2 ^ ulp_exponent s)%Z;
      [apply Z.mul_le_mono_nonneg_r; lia|].
    apply Z.le_trans with (2 ^ 52 * 2 ^ ulp_exponent t)%Z;
      [|apply Z.mul_le_mono_nonneg_r; lia].
    rewrite <- !Z.pow_add_r by lia.
    apply Z.pow_le_mono_r; lia.
Qed.

Lemma round_scaled_nonneg (s : Q) : 0 <= s -> (0 <= round_scaled s)%Z.
Proof.
  intros Hs. unfold round_scaled.
  apply Z.mul_nonneg_nonneg; [|apply Z.pow_nonneg; lia].
  rewrite <- (nearest_even_inject 0) at 1. apply nearest_even_mono.
  apply Qle_shift_div_l; [apply pow2_pos, ulp_exponent_nonneg|].
  change (inject_Z 0) with 0. Lqa.lra.
Qed.


Lemma round_scaled_comp (s t : Q) : s == t -> round_scaled s = round_scaled t.
Proof.
  intros E. unfold round_scaled, ulp_exponent.
  rewrite (Qfloor_comp s t E). set (c := inject_Z _).
  rewrite (nearest_even_comp (s / c) (t / c)); [reflexivity|].
  rewrite E. reflexivity.
Qed.

(** The rounded value does not depend on the fraction that stands for the
    number. *)
Lemma round_comp (x y : Q) : x == y -> round x = round y.
Proof.
  intros E. unfold round, round_nonneg.
  rewrite (Qleb_comp 0 0 (Qeq_refl 0) x y E). set (c := inject_Z _).
  rewrite (round_scaled_comp (x * c) (y * c)) by (rewrite E; reflexivity).
  rewrite (round_scaled_comp (- x * c) (- y * c)) by (rewrite E; reflexivity).
  reflexivity.
Qed.

Lemma round_nonneg_value (a r : Q) :
  round_nonneg a = Some r ->
  r == inject_Z (round_scaled (a * inject_Z (2 ^ 1074))) / inject_Z (2 ^ 1074).
Proof.
  unfold round_nonneg.
  destruct (2 ^ 2098 <=? _)%Z; [discriminate|].
  intros [= <-]. apply Qred_correct.
Qed.

Lemma round_of_nonneg (x : Q) : 0 <= x -> round x = round_nonneg x.
Proof.
  intros Hx. unfold round.
  apply Qle_bool_iff in Hx. rewrite Hx. reflexivity.
Qed.

(** Rounding keeps the order of the numbers from 0 on, and with a number
    the smaller ones stay finite. *)
Lemma round_mono (x y ry : Q) :
  0 <= x -> x <= y -> round y = Some ry ->
  exists rx, round x = Some rx /\ 0 <= rx /\ rx <= ry.
Proof.
  intros Hx Hxy. rewrite !round_of_nonneg by Lqa.lra.
  intros Hy. pose proof (round_nonneg_value y ry Hy) as Ey.
  revert Hy. unfold round_nonneg.
  pose proof (pow2_pos 1074 ltac:(lia)) as Hc.
  set (c := inject_Z (2 ^ 1074)) in *.
  assert (0 <= x * c) as Hs by (apply Qmult_le_0_compat; Lqa.lra).
  assert (x * c <= y * c) as Hst by (apply Qmult_le_compat_r; Lqa.lra).
  pose proof (round_scaled_mono _ _ Hs Hst) as Hr.
  pose proof (round_scaled_nonneg _ Hs) as Hr0.
  destruct (Z.leb_spec (2 ^ 2098) (round_scaled (y * c))) as [|Hfin];
    [discriminate|].
  intros _.
  destruct (Z.leb_spec (2 ^ 2098) (round_scaled (x * c))) as [Hinf|_];
    [lia|].
  eexists. split; [reflexivity|].
  rewrite Qred_correct, Ey.
  assert (0 <= / c) as Hi by (apply Qinv_le_0_compat; Lqa.lra).
  split.
  - apply Qmult_le_0_compat; [|exact Hi].
    change 0 with (inject_Z 0). rewrite <- Zle_Qle. exact Hr0.
  - apply Qmult_le_compat_r; [|exact Hi]. rewrite <- Zle_Qle. exact Hr.
Qed.

Lemma round_0 : round 0 = Some 0.
Proof. vm_compute. reflexivity. Qed.

Lemma round_1 : round 1 = Some 1.
Proof. vm_compute. reflexivity. Qed.

Lemma round_zero (x : Q) : x == 0 -> round x = Some 0.
Proof. intros E. rewrite (round_comp x 0 E). exact round_0. Qed.

(** Up to [2^1023] nothing overflows. *)
Lemma round_bounded (x : Q) :
  0 <= x -> x <= inject_Z (2 ^ 1023) ->
  exists r, round x = Some r /\ 0 <= r /\ r <= inject_Z (2 ^ 1023).
Proof.
  intros Hx Hle.
  assert (round (inject_Z (2 ^ 1023)) = Some (inject_Z (2 ^ 1023))) as Htop
    by (vm_compute; reflexivity).
  destruct (round_mono x _ _ Hx Hle Htop) as (r & Hr & H0 & H1).
  exists r. auto.
Qed.


(** A whole number of the scale whose last [e] bits are 0 is on the grid. *)
Lemma round_scaled_exact (n : Z) :
  (0 < n)%Z ->
  (2 ^ (Z.log2 n - 52) | n)%Z ->
  round_scaled (inject_Z n) = n.
Proof.
  intros Hn Hdiv. unfold round_scaled, ulp_exponent. rewrite Qfloor_Z.
  set (e := Z.max (Z.log2 n - 52) 0).
  assert (0 <= e)%Z as He by (unfold e; lia).
  assert (2 ^ e | n)%Z as [m Hm].
  { unfold e. destruct (Z.max_spec (Z.log2 n - 52) 0%Z) as [[_ ->] | [_ ->]].
    - apply Z.divide_1_l.
    - exact Hdiv. }
  rewrite (nearest_even_comp _ (inject_Z m)).
  - rewrite nearest_even_inject. lia.
  - rewrite Hm, inject_Z_mult. apply Qdiv_mult_l.
    pose proof (pow2_pos e He). Lqa.lra.
Qed.

(** The whole numbers below [2^53] are floats. *)
Lemma round_int (z : Z) :
  (0 <= z < 2 ^ 53)%Z ->
  exists r, round (inject_Z z) = Some r /\ r == inject_Z z.
Proof.
  intros [H0 Hz]. destruct (Z.eq_dec z 0%Z) as [-> | Hne].
  { exists 0. split; [exact round_0 | reflexivity]. }
  assert (0 <= inject_Z z) as Hq
    by (change 0 with (inject_Z 0); rewrite <- Zle_Qle; exact H0).
  rewrite (round_of_nonneg _ Hq). unfold round_nonneg.
  rewrite (round_scaled_comp _ (inject_Z (z * 2 ^ 1074)))
    by (rewrite inject_Z_mult; reflexivity).
  assert (Z.log2 z < 53)%Z as Hlog by (apply Z.log2_lt_pow2; lia).
  pose proof (Z.log2_nonneg z) as Hlog0.
  rewrite round_scaled_exact.
  - destruct (Z.leb_spec (2 ^ 2098) (z * 2 ^ 1074)) as [Hinf|_].
    + exfalso.
      assert (z * 2 ^ 1074 < 2 ^ 53 * 2 ^ 1074)%Z
        by (apply Z.mul_lt_mono_pos_r; [apply Z.pow_pos_nonneg|]; lia).
      rewrite <- Z.pow_add_r in H by lia.
      assert (2 ^ (53 + 1074) <= 2 ^ 2098)%Z
        by (apply Z.pow_le_mono_r; lia).
      lia.
    + eexists. split; [reflexivity|].
      rewrite Qred_correct, inject_Z_mult. apply Qdiv_mult_l.
      pose proof (pow2_pos 1074 ltac:(lia)). Lqa.lra.
  - apply Z.mul_pos_pos; [lia | apply Z.pow_pos_nonneg; lia].
  - rewrite Z.log2_mul_pow2 by lia.
    replace (2 ^ 1074)%Z
      with (2 ^ (52 - Z.log2 z) * 2 ^ (1074 + Z.log2 z - 52))%Z
      by (rewrite <- Z.pow_add_r by lia; f_equal; lia).
    rewrite Z.mul_assoc. apply Z.divide_factor_r.
Qed.

(** In the normal range, from [2^-1022] on, rounding moves a number by at
    most the [2^53]-th part of it. *)
Lemma round_error (x r : Q) :
  1 # 2 ^ 1022 <= x ->
  round x = Some r ->
  x - x * (1 # 2 ^ 53) <= r <= x + x * (1 # 2 ^ 53).
Proof.
  intros Hnormal.
  assert (0 < x) as Hx
    by (apply Qlt_le_trans with (1 # 2 ^ 1022); [reflexivity | exact Hnormal]).
  rewrite round_of_nonneg by Lqa.lra. intros Hr.
  apply round_nonneg_value in Hr.
  pose proof (pow2_pos 1074 ltac:(lia)) as Hc.
  assert (inject_Z (2 ^ 52) <= x * inject_Z (2 ^ 1074)) as Hs52.
  { apply Qle_trans with ((1 # 2 ^ 1022) * inject_Z (2 ^ 1074)).
    - vm_compute. discriminate.
    - apply Qmult_le_compat_r; [exact Hnormal | Lqa.lra]. }
  set (c := inject_Z (2 ^ 1074)) in *.
  set (s := x * c) in *.
  unfold round_scaled in Hr.
  pose proof (ulp_exponent_nonneg s) as He.
  pose proof (pow2_pos _ He) as HP.
  pose proof (nearest_even_near (s / inject_Z (2 ^ ulp_exponent s)))
    as [Hlo Hhi].
  assert (inject_Z (2 ^ 52) * inject_Z (2 ^ ulp_exponent s) <= s) as Hgrid.
  { destruct (Z.eq_dec (ulp_exponent s) 0%Z) as [-> | Hne].
    - change (inject_Z (2 ^ 0)) with 1. Lqa.lra.
    - rewrite <- inject_Z_mult, <- Z.pow_add_r, Z.add_comm by lia.
      apply scaled_above. lia. }
  rewrite inject_Z_mult in Hr.
  set (P := inject_Z (2 ^ ulp_exponent s)) in *.
  set (m := inject_Z (nearest_even (s / P))) in *.
  apply (Qmult_le_compat_r _ _ P) in Hlo; [|Lqa.lra].
  apply (Qmult_le_compat_r _ _ P) in Hhi; [|Lqa.lra].
  assert (s / P * P == s) as Es by (field; Lqa.lra).
  rewrite Es in Hlo, Hhi.
  change (inject_Z (2 ^ 52)) with 4503599627370496 in Hgrid.
  assert (s - s * (1 # 2 ^ 53) <= m * P <= s + s * (1 # 2 ^ 53)) as [H1 H2]
    by (change (1 # 2 ^ 53) with (1 # 9007199254740992); split; Lqa.lra).
  assert (0 <= / c) as Hi by (apply Qinv_le_0_compat; Lqa.lra).
  apply (Qmult_le_compat_r _ _ (/ c)) in H1; [|exact Hi].
  apply (Qmult_le_compat_r _ _ (/ c)) in H2; [|exact Hi].
  assert (x == s * / c) as Ex by (unfold s; field; Lqa.lra).
  rewrite Hr. unfold Qdiv. split.
  - eapply Qle_trans; [|exact H1]. rewrite Ex at 1 2. Lqa.lra.
  - eapply Qle_trans; [exact H2|]. rewrite Ex at 1 2. Lqa.lra.
Qed.

End Binary64Facts.

(** ** The stochastic-depth schedule of [XNetSwinTransformer.__init__] *)

Module XNetFacts.
Import XNet.

Lemma sd_probs_of_app (l1 l2 : list layer) :
  sd_probs_of (l1 ++ l2) = sd_probs_of l1 ++ sd_probs_of l2.
Proof. unfold sd_probs_of. apply flat_map_app. Qed.

Lemma schedule_app (cfg : Config) (a n m : nat) :
  schedule cfg a n ++ schedule cfg (a + n) m = schedule cfg a (n + m).
Proof. unfold schedule. rewrite seq_app, map_app. reflexivity. Qed.

(** *** The schedule in floats *)

Section FloatSchedule.
Import Binary64 Binary64Facts.
#[local] Open Scope Q_scope.

Lemma divisor_bounds (T : nat) :
  (0 < T)%nat -> (Z.of_nat T < 2 ^ 52)%Z ->
  (1 <= 2 * Z.of_nat T - 1 < 2 ^ 53)%Z.
Proof. intros HT Hlt. change (2 ^ 53)%Z with (2 * 2 ^ 52)%Z. lia. Qed.

Lemma divisor_positive (T : nat) :
  (0 < T)%nat -> 1 <= inject_Z (2 * Z.of_nat T - 1).
Proof.
  intros HT. change 1 with (inject_Z 1). rewrite <- Zle_Qle. lia.
Qed.

(** With fewer than [2^53] blocks the two conversions are exact, and what
    is left is the rounded product and the rounded quotient. *)
Lemma sd_prob_exact_ints (p : Q) (k T : nat) :
  (0 < T)%nat -> (Z.of_nat T < 2 ^ 52)%Z -> (Z.of_nat k < 2 ^ 53)%Z ->
  sd_prob p k T =
  match round (p * inject_Z (Z.of_nat k)) with
  | Some x => round (x / inject_Z (2 * Z.of_nat T - 1))
  | None => None
  end.
Proof.
  intros HT Hlt Hk. unfold sd_prob, of_int, mul, div.
  destruct (round_int (2 * Z.of_nat T - 1)) as (fd & -> & Efd);
    [pose proof (divisor_bounds T HT Hlt); lia|].
  destruct (round_int (Z.of_nat k)) as (fk & -> & Efk); [lia|].
  rewrite (round_comp (p * fk) (p * inject_Z (Z.of_nat k)))
    by (rewrite Efk; reflexivity).
  destruct (round (p * inject_Z (Z.of_nat k))) as [x|]; [|reflexivity].
  pose proof (divisor_positive T HT) as Hd.
  assert (Qeq_bool fd 0 = false) as ->.
  { destruct (Qeq_bool fd 0) eqn:E; [|reflexivity].
    apply Qeq_bool_iff in E. rewrite Efd in E. exfalso. Lqa.lra. }
  apply round_comp. rewrite Efd. reflexivity.
Qed.

(** The first block is never dropped. *)
Lemma sd_prob_first (p : Q) (T : nat) :
  (0 < T)%nat -> (Z.of_nat T < 2 ^ 52)%Z -> sd_prob p 0 T = Some 0.
Proof.
  intros HT Hlt.
  rewrite sd_prob_exact_ints by (cbn; lia).
  rewrite (round_zero (p * inject_Z (Z.of_nat 0))) by (cbn; ring).
  apply round_zero. unfold Qdiv. ring.
Qed.

(** With a probability for the setting no block of the network gets an
    infinity. *)
Lemma sd_prob_finite (p : Q) (k T : nat) :
  (0 < T)%nat -> (Z.of_nat T < 2 ^ 52)%Z -> (k < 2 * T)%nat ->
  0 <= p <= 1 ->
  exists v, sd_prob p k T = Some v /\ 0 <= v.
Proof.
  intros HT Hlt Hk [Hp0 Hp1].
  pose proof (divisor_bounds T HT Hlt) as Hdiv.
  rewrite sd_prob_exact_ints by lia.
  pose proof (divisor_positive T HT) as Hd.
  assert (0 <= inject_Z (Z.of_nat k)) as Hk0
    by (change 0 with (inject_Z 0); rewrite <- Zle_Qle; lia).
  assert (inject_Z (Z.of_nat k) <= inject_Z (2 ^ 1023)) as Hk1.
  { rewrite <- Zle_Qle.
    assert (2 ^ 53 <= 2 ^ 1023)%Z by (apply Z.pow_le_mono_r; lia). lia. }
  destruct (round_bounded (p * inject_Z (Z.of_nat k))) as (x & -> & Hx0 & Hx1).
  { apply Qmult_le_0_compat; assumption. }
  { apply Qle_trans with (1 * inject_Z (Z.of_nat k)); [|Lqa.lra].
    apply Qmult_le_compat_r; assumption. }
  set (d := inject_Z (2 * Z.of_nat T - 1)) in *.
  assert (0 <= / d) as Hi by (apply Qinv_le_0_compat; Lqa.lra).
  destruct (round_bounded (x / d)) as (v & -> & Hv0 & _).
  { apply Qmult_le_0_compat; assumption. }
  { apply Qle_shift_div_r; [Lqa.lra|].
    apply Qle_trans with (inject_Z (2 ^ 1023) * 1); [Lqa.lra|].
    apply Qmult_le_l; [|exact Hd].
    apply Qlt_le_trans with (inject_Z 1); [reflexivity|].
    rewrite <- Zle_Qle. apply (Z.pow_le_mono_r 2 0 1023); lia. }
  exists v. auto.
Qed.

(** Later blocks get no less, whatever the number of blocks. *)
Lemma sd_prob_monotone (p : Q) (T j k : nat) (b : Q) :
  (0 < T)%nat -> 0 <= p -> (j <= k)%nat ->
  sd_prob p k T = Some b ->
  exists a, sd_prob p j T = Some a /\ 0 <= a /\ a <= b.
Proof.
  intros HT Hp Hjk. unfold sd_prob, of_int, mul, div.
  destruct (round (inject_Z (2 * Z.of_nat T - 1))) as [fd|] eqn:Hfd;
    [|discriminate].
  destruct (round (inject_Z (Z.of_nat k))) as [fk|] eqn:Hfk; [|discriminate].
  destruct (round (p * fk)) as [x|] eqn:Hx; [|discriminate].
  destruct (Qeq_bool fd 0) eqn:Hz; [discriminate|].
  intros Hb.
  destruct (round_mono 1 _ fd ltac:(Lqa.lra) (divisor_positive T HT) Hfd)
    as (one & H1 & _ & Hd).
  rewrite round_1 in H1. injection H1 as <-.
  destruct (round_mono (inject_Z (Z.of_nat j)) (inject_Z (Z.of_nat k)) fk)
    as (fj & -> & Hj0 & Hj1);
    [change 0 with (inject_Z 0); rewrite <- Zle_Qle; lia
    |rewrite <- Zle_Qle; lia | exact Hfk |].
  destruct (round_mono (p * fj) (p * fk) x) as (y & -> & Hy0 & Hy1);
    [apply Qmult_le_0_compat; assumption
    |rewrite !(Qmult_comm p); apply Qmult_le_compat_r; assumption
    |exact Hx |].
  assert (0 <= / fd) as Hi by (apply Qinv_le_0_compat; Lqa.lra).
  destruct (round_mono (y / fd) (x / fd) b) as (a & -> & Ha0 & Ha1);
    [apply Qmult_le_0_compat; assumption
    |apply Qmult_le_compat_r; assumption | exact Hb |].
  exists a. auto.
Qed.


(** The schedule is linear up to rounding: in the normal range a block gets
    the exact quotient up to the [2^51]-th part of it. *)
Lemma sd_prob_error (p : Q) (k T : nat) (v : Q) :
  (0 < T)%nat -> (Z.of_nat T < 2 ^ 52)%Z -> (k < 2 * T)%nat ->
  let exact := p * inject_Z (Z.of_nat k) / inject_Z (2 * Z.of_nat T - 1) in
  1 # 2 ^ 1021 <= exact ->
  sd_prob p k T = Some v ->
  exact - exact * (1 # 2 ^ 51) <= v <= exact + exact * (1 # 2 ^ 51).
Proof.
  intros HT Hlt Hk exact Hnormal.
  pose proof (divisor_bounds T HT Hlt) as Hdiv.
  rewrite sd_prob_exact_ints by lia.
  pose proof (divisor_positive T HT) as Hd.
  unfold exact in *. clear exact.
  set (d := inject_Z (2 * Z.of_nat T - 1)) in *.
  set (pk := p * inject_Z (Z.of_nat k)) in *.
  destruct (round pk) as [x|] eqn:Hx; [|discriminate]. intros Hv.
  assert (0 <= / d) as Hi by (apply Qinv_le_0_compat; Lqa.lra).
  assert ((1 # 2 ^ 1021) == 2 * (1 # 2 ^ 1022)) as Ehalf
    by (vm_compute; reflexivity).
  assert (0 < 1 # 2 ^ 1022) as Hpos by reflexivity.
  assert (pk == pk / d * d) as Epk by (field; Lqa.lra).
  assert (pk / d * 1 <= pk / d * d) as Hle
    by (apply Qmult_le_l; Lqa.lra).
  pose proof (fun H => round_error pk x H Hx) as Hx_.
  pose proof (fun H => round_error (x / d) v H Hv) as Hy_.
  set (small := 1 # 2 ^ 1021) in *. set (tiny := 1 # 2 ^ 1022) in *.
  clearbody small tiny.
  destruct (Hx_ ltac:(Lqa.lra)) as [Hx1 Hx2].
  apply (Qmult_le_compat_r _ _ (/ d)) in Hx1; [|exact Hi].
  apply (Qmult_le_compat_r _ _ (/ d)) in Hx2; [|exact Hi].
  change (1 # 2 ^ 53) with (1 # 9007199254740992) in *.
  change (1 # 2 ^ 51) with (1 # 2251799813685248).
  unfold Qdiv in *.
  set (E := pk * / d) in *. set (y := x * / d) in *.
  assert ((pk - pk * (1 # 9007199254740992)) * / d ==
          E - E * (1 # 9007199254740992)) as E1 by (unfold E; ring).
  assert ((pk + pk * (1 # 9007199254740992)) * / d ==
          E + E * (1 # 9007199254740992)) as E2 by (unfold E; ring).
  rewrite E1 in Hx1. rewrite E2 in Hx2.
  destruct (Hy_ ltac:(Lqa.lra)) as [Hy1 Hy2].
  split; Lqa.lra.
Qed.

End FloatSchedule.

Lemma sum_app (l1 l2 : list nat) :
  fold_right Nat.add 0 (l1 ++ l2) =
  fold_right Nat.add 0 l1 + fold_right Nat.add 0 l2.
Proof.
  induction l1 as [|a l1 IH]; [reflexivity|].
  cbn [app fold_right]. rewrite IH. lia.
Qed.

Lemma sum_rev (l : list nat) :
  fold_right Nat.add 0 (rev l) = fold_right Nat.add 0 l.
Proof.
  induction l as [|a l IH]; [reflexivity|].
  cbn [rev]. rewrite sum_app, IH. cbn [fold_right]. lia.
Qed.

Lemma stage_sum_all (cfg : Config) :
  stage_sum cfg (seq 0 (length (depths cfg))) = total_stage_blocks cfg.
Proof.
  unfold stage_sum, total_stage_blocks.
  rewrite TorchFacts.map_nth_seq. reflexivity.
Qed.

Lemma stage_sum_all_rev (cfg : Config) :
  stage_sum cfg (rev (seq 0 (length (depths cfg)))) = total_stage_blocks cfg.
Proof.
  unfold stage_sum. rewrite map_rev, sum_rev. apply stage_sum_all.
Qed.

Section Schedule.
Variable cfg : Config.

#[local] Abbreviation next_prob id :=
  (sd_prob (stochastic_depth_prob cfg) id (total_stage_blocks cfg)).

Lemma encoder_layer_inv (i_stage dim : nat) (stage : list layer)
    (id i_layer : nat) (stage' : list layer) (id' : nat) :
  encoder_layer cfg i_stage dim (stage, id) i_layer = Ok (stage', id') ->
  id' = S id /\ sd_probs_of stage' = sd_probs_of stage ++ [next_prob id].
Proof.
  unfold encoder_layer.
  destruct (index (num_heads cfg) i_stage) as [heads|]; [|discriminate].
  cbn [mbind Py.result_bind Py.bind]. intros [= <- <-].
  split; [reflexivity|]. rewrite sd_probs_of_app. reflexivity.
Qed.

Lemma decoder_layer_inv (i_stage dim : nat) (stage : list layer)
    (id i_layer : nat) (stage' : list layer) (id' : nat) :
  decoder_layer cfg i_stage dim (stage, id) i_layer = Ok (stage', id') ->
  id' = S id /\ sd_probs_of stage' = sd_probs_of stage ++ [next_prob id].
Proof.
  unfold decoder_layer.
  destruct (index (num_heads cfg) i_stage) as [heads|]; [|discriminate].
  cbn [mbind Py.result_bind Py.bind]. intros [= <- <-].
  split; [reflexivity|].
  destruct (i_layer =? 0); rewrite !sd_probs_of_app; cbn;
    rewrite ?app_nil_r; reflexivity.
Qed.

(** An inner loop, of the encoder or of the decoder: one more block per
    iteration, numbered from the current [stage_block_id]. *)
Lemma layers_loop_inv
    (body : list layer * nat -> nat -> result (list layer * nat))
    (layers : list nat) :
  (forall stage id i_layer stage' id',
     body (stage, id) i_layer = Ok (stage', id') ->
     id' = S id /\
     sd_probs_of stage' = sd_probs_of stage ++ [next_prob id]) ->
  forall stage id stage' id',
    Py.foldM body (stage, id) layers = Ok (stage', id') ->
    id' = id + length layers /\
    sd_probs_of stage' = sd_probs_of stage ++ schedule cfg id (length layers).
Proof.
  intros Hbody. induction layers as [|i_layer layers IH];
    intros stage id stage' id'.
  - cbn. intros [= <- <-]. rewrite Nat.add_0_r, app_nil_r. auto.
  - cbn [Py.foldM].
    destruct (body (stage, id) i_layer) as [[stage1 id1]|] eqn:Hstep;
      [|discriminate].
    cbn [mbind Py.result_bind Py.bind]. intros Hrest.
    apply Hbody in Hstep as [-> H1]. apply IH in Hrest as [-> H2].
    split; [cbn [length]; lia|].
    rewrite H2, H1, <- app_assoc. reflexivity.
Qed.

(** One encoder stage: its blocks continue the numbering. *)
Lemma encoder_stage_inv (encoder : list layer) (id i_stage : nat)
    (encoder' : list layer) (id' : nat) :
  encoder_stage cfg (encoder, id) i_stage = Ok (encoder', id') ->
  id' = id + nth i_stage (depths cfg) 0 /\
  sd_probs_of encoder' =
  sd_probs_of encoder ++ schedule cfg id (nth i_stage (depths cfg) 0).
Proof.
  unfold encoder_stage, index.
  destruct (nth_error (depths cfg) i_stage) as [depth|] eqn:Hd;
    [|discriminate].
  rewrite (nth_error_nth _ _ 0 Hd).
  cbn [mbind Py.result_bind Py.bind].
  destruct (Py.foldM _ _ _) as [[stage id1]|] eqn:Hloop; [|discriminate].
  cbn [mbind Py.result_bind Py.bind].
  apply (layers_loop_inv _ _ (encoder_layer_inv _ _)) in Hloop as [-> Hp].
  rewrite length_seq in *.
  assert (sd_probs_of [Sequential stage] = schedule cfg id depth) as Hs
    by (unfold sd_probs_of at 1; cbn [flat_map swin_sd_probs];
        rewrite app_nil_r; exact Hp).
  destruct ((i_stage + 1 <? length (depths cfg)) || final_downsample cfg);
    intros [= <- <-]; (split; [reflexivity|]);
    rewrite ?sd_probs_of_app, Hs; cbn; rewrite ?app_nil_r; reflexivity.
Qed.

(** One decoder stage: the same, after the optional up-sampling and
    cross-attention modules, which hold no Swin block. *)
Lemma decoder_stage_inv (decoder : list layer) (id i_stage : nat)
    (decoder' : list layer) (id' : nat) :
  decoder_stage cfg (decoder, id) i_stage = Ok (decoder', id') ->
  id' = id + nth i_stage (depths cfg) 0 /\
  sd_probs_of decoder' =
  sd_probs_of decoder ++ schedule cfg id (nth i_stage (depths cfg) 0).
Proof.
  unfold decoder_stage.
  set (decoder0 :=
         if (i_stage + 1 <? length (depths cfg)) || final_downsample cfg
         then decoder ++ [PatchExpandingV2 (2 * (embed_dim cfg * 2 ^ i_stage))]
         else decoder).
  assert (sd_probs_of decoder0 = sd_probs_of decoder) as H0.
  { unfold decoder0.
    destruct ((i_stage + 1 <? length (depths cfg)) || final_downsample cfg);
      [|reflexivity].
    rewrite sd_probs_of_app. apply app_nil_r. }
  match goal with
  | |- (?attach ≫= _) = _ -> _ =>
      assert (forall decoder1, attach = Ok decoder1 ->
                sd_probs_of decoder1 = sd_probs_of decoder) as H1;
      [|destruct attach as [decoder1|]; [|discriminate]]
  end.
  { destruct (cross_attention_residual cfg); [|intros d [= <-]; exact H0].
    destruct (index (num_heads cfg) i_stage) as [heads|]; [|discriminate].
    cbn [mbind Py.result_bind Py.bind].
    destruct (negb (length (window_size cfg) =? 2)); [discriminate|].
    intros d [= <-]. rewrite sd_probs_of_app, H0. apply app_nil_r. }
  specialize (H1 decoder1 eq_refl).
  cbn [mbind Py.result_bind Py.bind]. unfold index.
  destruct (nth_error (depths cfg) i_stage) as [depth|] eqn:Hd;
    [|discriminate].
  rewrite (nth_error_nth _ _ 0 Hd).
  cbn [mbind Py.result_bind Py.bind].
  destruct (Py.foldM _ _ _) as [[stage id1]|] eqn:Hloop; [|discriminate].
  cbn [mbind Py.result_bind Py.bind].
  apply (layers_loop_inv _ _ (decoder_layer_inv _ _)) in Hloop as [-> Hp].
  rewrite length_seq in *. intros [= <- <-]. split; [reflexivity|].
  rewrite sd_probs_of_app, H1. f_equal.
  unfold sd_probs_of at 1. cbn [flat_map swin_sd_probs].
  rewrite app_nil_r. exact Hp.
Qed.

(** An outer loop, over any list of stages. *)
Lemma stages_loop_inv
    (body : list layer * nat -> nat -> result (list layer * nat))
    (stages : list nat) :
  (forall modules id i_stage modules' id',
     body (modules, id) i_stage = Ok (modules', id') ->
     id' = id + nth i_stage (depths cfg) 0 /\
     sd_probs_of modules' =
     sd_probs_of modules ++ schedule cfg id (nth i_stage (depths cfg) 0)) ->
  forall modules id modules' id',
    Py.foldM body (modules, id) stages = Ok (modules', id') ->
    id' = id + stage_sum cfg stages /\
    sd_probs_of modules' =
    sd_probs_of modules ++ schedule cfg id (stage_sum cfg stages).
Proof.
  intros Hbody. induction stages as [|i_stage stages IH];
    intros modules id modules' id'.
  - cbn. intros [= <- <-]. rewrite Nat.add_0_r, app_nil_r. auto.
  - cbn [Py.foldM].
    destruct (body (modules, id) i_stage) as [[m1 id1]|] eqn:Hstep;
      [|discriminate].
    cbn [mbind Py.result_bind Py.bind]. intros Hrest.
    apply Hbody in Hstep as [-> H1]. apply IH in Hrest as [-> H2].
    change (stage_sum cfg (i_stage :: stages))
      with (nth i_stage (depths cfg) 0 + stage_sum cfg stages).
    split; [lia|].
    rewrite H2, H1, <- app_assoc, schedule_app. reflexivity.
Qed.

(** The blocks of a constructed network: the encoder holds the numbers
    [0 .. T-1], the decoder goes on with [T .. 2T-1]. *)
Lemma init_schedule (net : XNetSwinTransformer) :
  __init__ cfg = Ok net ->
  sd_probs_of (encoder net) =
    schedule cfg 0 (total_stage_blocks cfg) /\
  sd_probs_of (decoder net) =
    schedule cfg (total_stage_blocks cfg) (total_stage_blocks cfg).
Proof.
  unfold __init__.
  destruct (Py.foldM (encoder_stage cfg) _ _) as [[enc id]|] eqn:Henc;
    [|discriminate].
  cbn [mbind Py.result_bind Py.bind].
  destruct (build_middle cfg) as [mid|]; [|discriminate].
  cbn [mbind Py.result_bind Py.bind].
  destruct (Py.foldM (decoder_stage cfg) _ _) as [[dec id']|] eqn:Hdec;
    [|discriminate].
  cbn [mbind Py.result_bind Py.bind]. intros [= <-]. cbn [encoder decoder].
  apply (stages_loop_inv _ _ encoder_stage_inv) in Henc as [-> He].
  apply (stages_loop_inv _ _ decoder_stage_inv) in Hdec as [_ Hd].
  rewrite stage_sum_all in *. rewrite stage_sum_all_rev in Hd.
  split; [exact He | exact Hd].
Qed.

End Schedule.

(** C7. In construction order, encoder first and decoder next with the same
    counter, the [k]-th Swin block of a constructed network gets the float
    [stochastic_depth_prob * float(k) / (2*total_stage_blocks - 1)].  For a
    setting that is not negative the blocks get no less as the counter goes
    up.  With fewer than [2^52] blocks in [total_stage_blocks] the first
    block gets 0, a setting between 0 and 1 gives every block a finite
    number that is not negative, and the schedule is linear up to rounding:
    in the normal range of the floats, from [2^-1021] on, a block gets the
    exact quotient up to the [2^51]-th part of it, and so the last decoder
    block the configured maximum up to that part of it. *)
Theorem stochastic_depth_schedule (cfg : Config) (net : XNetSwinTransformer) :
  let p := stochastic_depth_prob cfg in
  let T := total_stage_blocks cfg in
  let exact k :=
    (p * inject_Z (Z.of_nat k) / inject_Z (2 * Z.of_nat T - 1))%Q in
  __init__ cfg = Ok net ->
  (sd_probs_of (encoder net) = map (fun k => sd_prob p k T) (seq 0 T) /\
   sd_probs_of (decoder net) = map (fun k => sd_prob p k T) (seq T T) /\
   sd_probs_of (encoder net ++ decoder net) =
     map (fun k => sd_prob p k T) (seq 0 (2 * T))) /\
  (0 < T ->
   ((0 <= p)%Q ->
    forall j k b,
      j <= k -> sd_prob p k T = Some b ->
      exists a, sd_prob p j T = Some a /\ (0 <= a)%Q /\ (a <= b)%Q) /\
   ((Z.of_nat T < 2 ^ 52)%Z ->
    sd_prob p 0 T = Some 0%Q /\
    ((0 <= p <= 1)%Q ->
     forall k, k < 2 * T -> exists v, sd_prob p k T = Some v /\ (0 <= v)%Q) /\
    (forall k v,
       k < 2 * T -> (1 # 2 ^ 1021 <= exact k)%Q -> sd_prob p k T = Some v ->
       (exact k - exact k * (1 # 2 ^ 51) <= v
        <= exact k + exact k * (1 # 2 ^ 51))%Q) /\
    (forall v,
       (1 # 2 ^ 1021 <= p)%Q -> sd_prob p (2 * T - 1) T = Some v ->
       (p - p * (1 # 2 ^ 51) <= v <= p + p * (1 # 2 ^ 51))%Q))).
Proof.
  intros p T exact Hnet. split.
  - destruct (init_schedule cfg net Hnet) as [He Hd].
    fold T in He, Hd. split; [exact He|]. split; [exact Hd|].
    rewrite sd_probs_of_app, He, Hd.
    replace (2 * T) with (T + T) by lia.
    apply (schedule_app cfg 0 T T).
  - intros HT. split.
    { intros Hp j k b Hjk. apply sd_prob_monotone; assumption. }
    intros Hlt. split; [apply sd_prob_first; assumption|].
    split; [intros Hp k Hk; apply sd_prob_finite; assumption|].
    split; [intros k v Hk; apply sd_prob_error; assumption|].
    intros v Hp Hv.
    assert (exact (2 * T - 1)%nat == p)%Q as Elast.
    { unfold exact.
      replace (Z.of_nat (2 * T - 1)) with (2 * Z.of_nat T - 1)%Z by lia.
      field. pose proof (divisor_positive T HT). Lqa.lra. }
    rewrite <- Elast.
    apply (sd_prob_error p (2 * T - 1) T v HT Hlt); [lia | | exact Hv].
    cbv zeta. fold (exact (2 * T - 1)). rewrite Elast. exact Hp.
Qed.

End XNetFacts.

(** ** The dataset indexer ([src/pose_estimation/pose_data_class.py]) *)

Module PoseDataFacts.
Import PoseDataModel.

Section Dictionaries.
Context `{Countable K} {V : Type}.
Implicit Types (m : gmap K V) (f : V -> nat).

Lemma sum_values_empty f : sum_values f (∅ : gmap K V) = 0.
Proof. unfold sum_values. apply map_fold_empty. Qed.

Lemma sum_values_insert_None f m k v :
  m !! k = None -> sum_values f (<[k := v]> m) = f v + sum_values f m.
Proof.
  intros Hk. unfold sum_values.
  apply (map_fold_insert_L (fun _ v acc => f v + acc)); [|exact Hk].
  intros. lia.
Qed.

Lemma sum_values_delete f m k v :
  m !! k = Some v -> sum_values f m = f v + sum_values f (delete k m).
Proof.
  intros Hk. unfold sum_values.
  apply (map_fold_delete_L (fun _ v acc => f v + acc)); [|exact Hk].
  intros. lia.
Qed.

(** Writing a value: the old contribution goes, the new one comes. *)
Lemma sum_values_insert f m k v :
  sum_values f (<[k := v]> m) + from_option f 0 (m !! k) =
  f v + sum_values f m.
Proof.
  destruct (m !! k) as [v0|] eqn:Hk; cbn [from_option].
  - rewrite <- (insert_delete_eq m k v).
    rewrite sum_values_insert_None by apply lookup_delete_eq.
    rewrite (sum_values_delete f m k v0 Hk). lia.
  - rewrite sum_values_insert_None by exact Hk. lia.
Qed.

Lemma alter_as_insert (g : V -> V) m k v :
  m !! k = Some v -> alter g k m = <[k := g v]> m.
Proof.
  intros Hk. apply map_eq. intros j. rewrite lookup_alter, lookup_insert.
  destruct (decide (k = j)) as [->|]; [rewrite Hk|]; reflexivity.
Qed.

Lemma setdefault_lookup m k k' v :
  setdefault k v m !! k' =
  if decide (k = k') then Some (default v (m !! k)) else m !! k'.
Proof.
  unfold setdefault. destruct (m !! k) as [v0|] eqn:Hk.
  - destruct (decide (k = k')) as [<-|]; [exact Hk | reflexivity].
  - rewrite lookup_insert. destruct (decide (k = k')); reflexivity.
Qed.

(** The idiom [if k not in m: m[k] = vd] followed by an update of [m[k]]:
    what a lookup sees afterwards. *)
Lemma upsert_lookup (g : V -> V) m k k' vd :
  alter g k (setdefault k vd m) !! k' =
  if decide (k = k') then Some (g (default vd (m !! k))) else m !! k'.
Proof.
  rewrite lookup_alter, !setdefault_lookup.
  destruct (decide (k = k')) as [<-|]; [|reflexivity].
  rewrite decide_True by reflexivity. reflexivity.
Qed.

(** ... and what it does to a sum over the values, when the default value
    counts for nothing. *)
Lemma upsert_sum_values f (g : V -> V) m k vd :
  f vd = 0 ->
  sum_values f (alter g k (setdefault k vd m)) + f (default vd (m !! k)) =
  sum_values f m + f (g (default vd (m !! k))).
Proof.
  intros Hvd.
  rewrite (alter_as_insert g (setdefault k vd m) k (default vd (m !! k)))
    by (rewrite setdefault_lookup, decide_True by reflexivity; reflexivity).
  pose proof (sum_values_insert f (setdefault k vd m) k
                (g (default vd (m !! k)))) as Hins.
  rewrite setdefault_lookup, decide_True in Hins by reflexivity.
  cbn [from_option] in Hins.
  assert (sum_values f (setdefault k vd m) =
          sum_values f m + (f (default vd (m !! k)) - from_option f 0 (m !! k)))
    as Hset.
  { unfold setdefault. destruct (m !! k) as [v0|] eqn:Hk; cbn; [lia|].
    rewrite sum_values_insert_None by exact Hk. lia. }
  destruct (m !! k) as [v0|] eqn:Hk; cbn [default from_option] in *;
    unfold Datatypes.id in *; lia.
Qed.

Lemma size_setdefault m k v :
  size (setdefault k v m) =
  size m + match m !! k with Some _ => 0 | None => 1 end.
Proof.
  unfold setdefault. destruct (m !! k) eqn:Hk; [lia|].
  rewrite map_size_insert_None by exact Hk. lia.
Qed.

Lemma size_alter (g : V -> V) m k : size (alter g k m) = size m.
Proof.
  destruct (m !! k) as [v|] eqn:Hk.
  - rewrite (alter_as_insert g m k v Hk).
    apply map_size_insert_Some. eauto.
  - f_equal. apply map_eq. intros j. rewrite lookup_alter.
    destruct (decide (k = j)) as [<-|]; [rewrite Hk|]; reflexivity.
Qed.

Lemma sum_values_alter f (g : V -> V) m k :
  (forall v, f (g v) = f v) -> sum_values f (alter g k m) = sum_values f m.
Proof.
  intros Hg. destruct (m !! k) as [v|] eqn:Hk.
  - rewrite (alter_as_insert g m k v Hk).
    pose proof (sum_values_insert f m k (g v)) as Hins.
    rewrite Hk in Hins. cbn in Hins. rewrite Hg in Hins. lia.
  - f_equal. apply map_eq. intros j. rewrite lookup_alter.
    destruct (decide (k = j)) as [<-|]; [rewrite Hk|]; reflexivity.
Qed.

Lemma alter_compose (g1 g2 : V -> V) m k :
  alter g2 k (alter g1 k m) = alter (g2 ∘ g1) k m.
Proof.
  apply map_eq. intros j. rewrite !lookup_alter.
  destruct (decide (k = j)) as [<-|]; [|reflexivity].
  rewrite decide_True by reflexivity.
  destruct (m !! k); reflexivity.
Qed.

End Dictionaries.

Section Index.
Variables Pickled Cell : Type.
Variable world : World Pickled Cell.

#[local] Abbreviation Sample := (gmap string (Entry Pickled)).
#[local] Abbreviation Flat := (gmap (Z * Z * Z) Sample).
#[local] Abbreviation Nested := (gmap Z (gmap Z (gmap Z Sample))).

Implicit Types (data : Flat) (nested : Nested) (sample : Sample).

Lemma ensure_leaf_upsert level scene variant sample nested :
  ensure_leaf level scene variant sample nested =
  alter (fun scenes =>
           alter (setdefault variant sample) scene
             (setdefault scene ∅ scenes))
    level (setdefault level ∅ nested).
Proof. unfold ensure_leaf. apply alter_compose. Qed.

Lemma leaf_ensure_leaf level scene variant sample nested l s v :
  leaf (ensure_leaf level scene variant sample nested) l s v =
  if decide ((level, scene, variant) = (l, s, v))
  then Some (default sample (leaf nested level scene variant))
  else leaf nested l s v.
Proof.
  rewrite ensure_leaf_upsert. unfold leaf. rewrite upsert_lookup.
  destruct (decide (level = l)) as [<-|Hl]; cbn.
  2:{ rewrite decide_False by congruence. reflexivity. }
  rewrite upsert_lookup.
  destruct (decide (scene = s)) as [<-|Hs]; cbn.
  2:{ rewrite decide_False by congruence.
      destruct (nested !! level); [reflexivity|]. cbn.
      rewrite lookup_empty. reflexivity. }
  rewrite setdefault_lookup.
  destruct (decide (variant = v)) as [<-|Hv].
  - rewrite decide_True by reflexivity. f_equal.
    destruct (nested !! level) as [scenes|]; cbn;
      [destruct (scenes !! scene) as [variants|]; cbn|];
      rewrite ?lookup_empty; reflexivity.
  - rewrite decide_False by congruence.
    destruct (nested !! level) as [scenes|]; cbn;
      [destruct (scenes !! scene) as [variants|]; cbn|];
      rewrite ?lookup_empty; reflexivity.
Qed.

Lemma leaves_ensure_leaf level scene variant sample nested :
  leaves (ensure_leaf level scene variant sample nested) =
  leaves nested +
  match leaf nested level scene variant with Some _ => 0 | None => 1 end.
Proof.
  rewrite ensure_leaf_upsert. unfold leaves.
  set (scenes := default ∅ (nested !! level)).
  set (variants := default ∅ (scenes !! scene)).
  pose proof (upsert_sum_values (sum_values size)
                (fun scenes =>
                   alter (setdefault variant sample) scene
                     (setdefault scene ∅ scenes))
                nested level ∅ (sum_values_empty _)) as H1.
  fold scenes in H1.
  pose proof (upsert_sum_values size (setdefault variant sample)
                scenes scene ∅ (map_size_empty : size (∅ : gmap Z Sample) = 0))
    as H2.
  fold variants in H2. rewrite size_setdefault in H2.
  assert (variants !! variant = leaf nested level scene variant) as Hv.
  { unfold leaf, variants, scenes.
    destruct (nested !! level) as [sc|]; cbn;
      [destruct (sc !! scene) as [va|]; cbn|];
      rewrite ?lookup_empty; reflexivity. }
  rewrite Hv in H2.
  destruct (leaf nested level scene variant); lia.
Qed.

(** Lines 128: the component is stored in a leaf that exists. *)
Lemma leaf_alter (h : Sample -> Sample) level scene variant nested l s v :
  is_Some (leaf (alter (alter (alter h variant) scene) level nested) l s v)
  <-> is_Some (leaf nested l s v).
Proof.
  unfold leaf. rewrite lookup_alter.
  destruct (decide (level = l)) as [<-|]; [|reflexivity].
  destruct (nested !! level) as [scenes|]; cbn; [|reflexivity].
  rewrite lookup_alter.
  destruct (decide (scene = s)) as [<-|]; [|reflexivity].
  destruct (scenes !! scene) as [variants|]; cbn; [|reflexivity].
  rewrite lookup_alter.
  destruct (decide (variant = v)) as [<-|]; [|reflexivity].
  rewrite fmap_is_Some. reflexivity.
Qed.

Lemma leaves_alter (h : Sample -> Sample) level scene variant nested :
  leaves (alter (alter (alter h variant) scene) level nested) = leaves nested.
Proof.
  unfold leaves. apply sum_values_alter. intros scenes.
  apply sum_values_alter. intros variants. apply size_alter.
Qed.

(** One file of the directory keeps the two mappings consistent. *)
Lemma organize_file_consistent data_path data nested filename data' nested' :
  organize_file world data_path (data, nested) filename =
  Ok (data', nested') ->
  consistent data nested -> consistent data' nested'.
Proof.
  unfold organize_file. intros Hstep [Hsize Hkeys].
  destruct (get_component filename) as [component|]; [|discriminate].
  cbn [mbind Py.result_bind Py.bind] in Hstep.
  destruct (parse_key world filename) as [[[level scene] variant]|];
    [|discriminate].
  cbn [mbind Py.result_bind Py.bind] in Hstep.
  set (key := (level, scene, variant)) in *.
  set (fresh := {["key" := EKey key]} : Sample) in *.
  match type of Hstep with
  | (?c ≫= _) = _ => destruct c as [entry|]; [|discriminate]
  end.
  cbn [mbind Py.result_bind Py.bind] in Hstep.
  injection Hstep as <- <-. split.
  - rewrite size_alter, size_setdefault, leaves_alter, leaves_ensure_leaf.
    rewrite Hsize. f_equal.
    pose proof (Hkeys level scene variant) as Hk. fold key in Hk.
    destruct (data !! key), (leaf nested level scene variant);
      try reflexivity; exfalso.
    + apply (is_Some_None (A := Sample)). apply Hk. eauto.
    + apply (is_Some_None (A := Sample)). apply Hk. eauto.
  - intros l s v. rewrite leaf_alter, leaf_ensure_leaf, upsert_lookup.
    fold key. destruct (decide (key = (l, s, v))); [|apply Hkeys].
    split; eauto.
Qed.

Lemma organize_files_consistent data_path filenames data nested data' nested' :
  Py.foldM (organize_file world data_path) (data, nested) filenames =
  Ok (data', nested') ->
  consistent data nested -> consistent data' nested'.
Proof.
  revert data nested.
  induction filenames as [|filename filenames IH]; intros data nested.
  - cbn. intros [= <- <-]. auto.
  - cbn [Py.foldM]. intros Hfold Hc.
    destruct (organize_file world data_path (data, nested) filename)
      as [[data1 nested1]|] eqn:Hstep; [|discriminate].
    cbn [mbind Py.result_bind Py.bind] in Hfold.
    eapply IH; [exact Hfold|].
    eapply organize_file_consistent; eauto.
Qed.

Lemma consistent_empty : consistent (∅ : Flat) (∅ : Nested).
Proof.
  split.
  - rewrite map_size_empty. unfold leaves. rewrite sum_values_empty.
    reflexivity.
  - intros l s v. unfold leaf. rewrite !lookup_empty. cbn.
    split; intros [? [=]].
Qed.

(** Scanning a directory gives consistent mappings. *)
Lemma organize_data_consistent data_path data nested :
  organize_data world data_path = Ok (data, nested) ->
  consistent data nested.
Proof.
  unfold organize_data.
  destruct (listdir world data_path) as [filenames|]; [|discriminate].
  cbn [mbind Py.result_bind Py.bind]. intros Hfold.
  eapply organize_files_consistent; [exact Hfold | apply consistent_empty].
Qed.

(** What the loop of [level_split] leaves in [split_data]: the records of
    the selected level, and no other. *)
Lemma level_split_loop (selected_level : Z) data :
  forall key,
    (map_fold (level_split_step selected_level) (∅, ∅) data).1 !! key
    = if decide (key.1.1 = selected_level) then data !! key else None.
Proof.
  apply (map_fold_weak_ind
           (fun (st : Flat * Nested) (m : Flat) =>
              forall key,
                st.1 !! key =
                if decide (key.1.1 = selected_level) then m !! key else None)).
  - intros key. cbn. rewrite !lookup_empty. destruct (decide _); reflexivity.
  - intros [[level scene] variant] sample m [sd sn] Hfresh IH key.
    unfold level_split_step. cbn [fst snd] in *.
    case_bool_decide as Hlevel.
    + cbn [fst]. rewrite IH. destruct (decide (key.1.1 = selected_level));
        [|reflexivity].
      rewrite lookup_insert_ne; [reflexivity|].
      intros <-. cbn in *. congruence.
    + cbn [fst]. subst level. rewrite !lookup_insert.
      destruct (decide ((selected_level, scene, variant) = key)) as [<-|Hne].
      * cbn. rewrite decide_True by reflexivity. reflexivity.
      * apply IH.
Qed.

(** C8. For a [PoseData] built by scanning a directory, the flat mapping
    has as many keys as the nested mapping has (level, scene, variant)
    leaves; and [level_split(L)] returns an instance whose flat mapping
    holds exactly the records of level [L], so every key there has level
    [L]. *)
Theorem scanned_index_is_consistent
    (data_path models_path : string) (pd : PoseData Pickled Cell) :
  __init__ world data_path models_path None = Ok pd ->
  size (data pd) = leaves (nested_data pd) /\
  forall selected_level,
  exists split,
    level_split world pd selected_level = Ok split /\
    forall level scene variant,
      is_Some (data split !! (level, scene, variant)) <->
      is_Some (data pd !! (level, scene, variant)) /\ level = selected_level.
Proof.
  intros Hinit. split.
  - unfold __init__ in Hinit.
    destruct (organize_objects Pickled Cell world _) as [objs|];
      [|discriminate].
    cbn [mbind Py.result_bind Py.bind] in Hinit.
    destruct (organize_data world _) as [[d n]|] eqn:Hscan; [|discriminate].
    cbn [mbind Py.result_bind Py.bind] in Hinit.
    injection Hinit as <-. cbn [data nested_data].
    apply (organize_data_consistent _ _ _ Hscan).
  - intros selected_level. unfold level_split.
    pose proof (level_split_loop selected_level (data pd)) as Hloop.
    destruct (map_fold (level_split_step selected_level) (∅, ∅) (data pd))
      as [split_data split_nested_data].
    cbn [fst] in Hloop. eexists. split; [reflexivity|].
    intros level scene variant. cbn [data]. rewrite Hloop. cbn [fst].
    destruct (decide (level = selected_level)) as [->|Hne].
    + split; [auto | intros [Hs _]; exact Hs].
    + split; [intros [? [=]] | intros [_ Hl]; contradiction].
Qed.

(** C9. Whatever integer is passed, [__getitem__] looks up the constant
    tuple [(1,)]: the result is the sub-mapping of level 1, or [KeyError]
    when there is no level 1; it is never a record. *)
Theorem getitem_int_is_level_one (pd : PoseData Pickled Cell) (i : Z) :
  __getitem__ pd (Int i) =
  match nested_data pd !! 1%Z with
  | Some scenes => Ok (VLevel scenes)
  | None => Raise KeyError
  end /\
  (forall j, __getitem__ pd (Int j) = __getitem__ pd (Int i)) /\
  (forall sample, __getitem__ pd (Int i) <> Ok (VSample sample)).
Proof.
  assert (__getitem__ pd (Int i) =
          match nested_data pd !! 1%Z with
          | Some scenes => Ok (VLevel scenes)
          | None => Raise KeyError
          end) as Hget.
  { unfold __getitem__. cbn [Py.foldM subscript].
    destruct (nested_data pd !! 1%Z); reflexivity. }
  split; [exact Hget|]. split; [reflexivity|].
  intros sample. rewrite Hget. destruct (nested_data pd !! 1%Z); discriminate.
Qed.

End Index.

End PoseDataFacts.

(** ** The modulated transformer block
       ([src/models/modules/modulated/vit_block.py]) *)

Module VitBlockFacts.
Import Torch VitBlock.

Section Block.
Context {A : Type} `{Dtype A}.

(** C10, as the code has it.  [forward] never returns: an input that is not
    three-dimensional fails the dimension assertion, and a three-dimensional
    one reaches [x = self.mod1(x)], which reads [x] before any assignment and
    raises [UnboundLocalError]. *)
Theorem forward_never_returns
    (self : ViTEncoderBlock_Modulated A) (input : Tensor A) :
  forward self input =
  (if dim input =? 3 then Raise UnboundLocalError else Raise AssertionError)
  /\ forall output, forward self input <> Ok output.
Proof.
  assert (forward self input =
          if dim input =? 3 then Raise UnboundLocalError
          else Raise AssertionError) as Hf
    by (unfold forward, torch_assert; destruct (dim input =? 3); reflexivity).
  split; [exact Hf|]. intros output. rewrite Hf.
  destruct (dim input =? 3); discriminate.
Qed.

End Block.

End VitBlockFacts.

(** ** Python lists and ranges *)

Module PyProperties.

Lemma list_getitem_spec {T : Type} (l : list T) (idx : Z) :
  let n := Z.of_nat (length l) in
  ((- n <= idx < n)%Z ->
   exists x, Py.list_getitem l idx = Ok x /\
             l !! Z.to_nat (idx mod n) = Some x) /\
  (~ (- n <= idx < n)%Z -> Py.list_getitem l idx = Raise IndexError).
Proof.
  intros n. unfold Py.list_getitem. fold n.
  set (i := if (idx <? 0)%Z then (idx + n)%Z else idx).
  assert (0 <= n)%Z as Hn by (unfold n; lia).
  assert (i = idx + n /\ idx < 0 \/ i = idx /\ 0 <= idx)%Z as Hi
    by (unfold i; destruct (Z.ltb_spec idx 0); lia).
  split.
  - intros Hrange.
    assert (i = idx mod n)%Z as Hmod.
    { destruct Hi as [[-> Hneg]|[-> Hpos]].
      - apply (Z.mod_unique idx n (-1)%Z); lia.
      - rewrite Z.mod_small by lia. reflexivity. }
    assert (0 <= i < n)%Z as Hin by lia.
    destruct (Z.leb_spec 0 i); [|lia]. destruct (Z.ltb_spec i n); [|lia].
    cbn [andb]. rewrite <- Hmod.
    destruct (lookup_lt_is_Some_2 l (Z.to_nat i)) as [x Hx];
      [unfold n in Hin; lia|].
    rewrite Hx. eauto.
  - intros Hout.
    destruct (Z.leb_spec 0 i); [|reflexivity].
    destruct (Z.ltb_spec i n); [|reflexivity].
    exfalso. lia.
Qed.

(** The element that follows [pre] is found at the index [length pre]. *)
Lemma list_getitem_middle {T : Type} (pre : list T) (x : T) (post : list T)
    (idx : Z) :
  idx = Z.of_nat (length pre) ->
  Py.list_getitem (pre ++ x :: post) idx = Ok x.
Proof.
  intros ->. unfold Py.list_getitem.
  rewrite length_app. cbn [length].
  destruct (Z.ltb_spec (Z.of_nat (length pre)) 0); [lia|].
  destruct (Z.leb_spec 0 (Z.of_nat (length pre))); [|lia].
  destruct (Z.ltb_spec (Z.of_nat (length pre))
              (Z.of_nat (length pre + S (length post)))); [|lia].
  cbn [andb]. rewrite Nat2Z.id.
  rewrite lookup_app_r by lia. rewrite Nat.sub_diag. reflexivity.
Qed.

Lemma range_up (start stop step : Z) (n : nat) :
  (0 < step)%Z ->
  ((stop - start + step - 1) / step)%Z = Z.of_nat n ->
  Py.range start stop step =
  map (fun k => (start + Z.of_nat k * step)%Z) (seq 0 n).
Proof.
  intros Hstep Hcount. unfold Py.range.
  destruct (Z.ltb_spec 0 step); [|lia].
  rewrite Hcount, Nat2Z.id. reflexivity.
Qed.

Lemma range_down (n : nat) :
  Py.range (Z.of_nat n - 1) (-1) (-1) =
  map (fun k => (Z.of_nat n - 1 - Z.of_nat k)%Z) (seq 0 n).
Proof.
  unfold Py.range. change (0 <? -1)%Z with false. cbn iota.
  change (- -1)%Z with 1%Z.
  replace ((Z.of_nat n - 1 - -1 - -1 - 1) / 1)%Z with (Z.of_nat n)
    by (rewrite Z.div_1_r; lia).
  rewrite Nat2Z.id. apply map_ext. intros k. lia.
Qed.

End PyProperties.

(** ** More on the losses ([src/models/modules/geodesic_loss.py]) *)

Module LossProperties.
Import GeodesicLoss GeodesicLossFacts.
#[local] Open Scope R_scope.

Lemma sum_nonneg (l : list R) : Forall (fun v => 0 <= v) l -> 0 <= sum l.
Proof.
  induction 1 as [|v l Hv _ IH]; [cbn; lra|].
  cbn [sum fold_right]. fold (sum l). lra.
Qed.

Lemma sum_zero_inv (l : list R) :
  Forall (fun v => 0 <= v) l -> sum l = 0 -> Forall (fun v => v = 0) l.
Proof.
  induction 1 as [|v l Hv Hl IH]; intros Hsum; [constructor|].
  cbn [sum fold_right] in Hsum. fold (sum l) in Hsum.
  pose proof (sum_nonneg l Hl) as Hpos.
  constructor; [lra | apply IH; lra].
Qed.

Lemma squares_nonneg (l : list R) :
  Forall (fun v => 0 <= v) (map (fun v => v * v) l).
Proof.
  apply List.Forall_map. apply List.Forall_forall. intros v _. nra.
Qed.

Lemma norm_nonneg (l : list R) : 0 <= norm l.
Proof. unfold norm. apply sqrt_pos. Qed.

Lemma norm_zero_inv (l : list R) : norm l = 0 -> Forall (fun v => v = 0) l.
Proof.
  unfold norm. intros Hsqrt.
  apply sqrt_eq_0 in Hsqrt; [|apply sum_nonneg, squares_nonneg].
  apply sum_zero_inv in Hsqrt; [|apply squares_nonneg].
  apply List.Forall_map in Hsqrt.
  eapply List.Forall_impl; [|exact Hsqrt]. cbn. intros v Hv. nra.
Qed.

Lemma mean_nonneg (l : list R) :
  l <> [] -> Forall (fun v => 0 <= v) l ->
  exists r, mean l = Some r /\ 0 <= r /\ (r = 0 <-> Forall (fun v => v = 0) l).
Proof.
  intros Hne Hall. destruct l as [|v l]; [contradiction|].
  eexists. split; [reflexivity|].
  assert (0 < INR (length (v :: l))) as Hn by (apply lt_0_INR; cbn; lia).
  pose proof (sum_nonneg (v :: l) Hall) as Hsum.
  split; [|split].
  - apply Rmult_le_pos; [exact Hsum|].
    apply Rlt_le, Rinv_0_lt_compat, Hn.
  - intros Hzero. apply sum_zero_inv; [exact Hall|].
    unfold Rdiv in Hzero. apply Rmult_integral in Hzero as [Hz|Hz]; [exact Hz|].
    pose proof (Rinv_0_lt_compat _ Hn). lra.
  - intros Hz. rewrite (sum_zero (v :: l) Hz). unfold Rdiv. lra.
Qed.


Lemma mean_upper_bound (c : R) (l : list R) :
  l <> [] -> Forall (fun v => v <= c) l ->
  exists r, mean l = Some r /\ r <= c.
Proof.
  intros Hne Hall. destruct l as [|v l]; [contradiction|].
  eexists. split; [reflexivity|].
  assert (0 < INR (length (v :: l))) as Hn by (apply lt_0_INR; cbn; lia).
  assert (sum (v :: l) <= INR (length (v :: l)) * c) as Hsum.
  { clear Hne Hn. induction Hall as [|a k Ha _ IH]; [cbn; lra|].
    cbn [sum fold_right]. fold (sum k).
    change (length (a :: k)) with (S (length k)). rewrite S_INR. lra. }
  apply (Rmult_le_reg_l (INR (length (v :: l)))); [exact Hn|].
  replace (INR (length (v :: l)) * (sum (v :: l) / INR (length (v :: l))))
    with (sum (v :: l)) by (field; lra).
  exact Hsum.
Qed.

Lemma theta_upper_bound (p t : Transform) : theta p t <= PI - acos 0.9999.
Proof.
  unfold theta. pose proof (clamp_range ((trace
    (matmul_transpose (rotation p) (rotation t)) - 1) / 2)) as [Hlo Hhi].
  rewrite <- acos_opp. apply acos_antitone; lra.
Qed.

Lemma theta_sym (p t : Transform) : theta p t = theta t p.
Proof.
  unfold theta. do 2 f_equal. f_equal. f_equal.
  unfold trace, matmul_transpose, rotation. cbn [seq map sum fold_right]. ring.
Qed.

Lemma map_combine_swap {A B C : Type} (f : A * B -> C) (u : list A)
    (v : list B) :
  map f (combine u v) = map (fun '(b, a) => f (a, b)) (combine v u).
Proof.
  revert v. induction u as [|a u IH]; intros [|b v]; try reflexivity.
  cbn [combine map]. f_equal. apply IH.
Qed.

Lemma squares_sub_swap (u v : list R) :
  map (fun x => x * x) (sub u v) = map (fun x => x * x) (sub v u).
Proof.
  unfold sub. revert v. induction u as [|a u IH]; intros [|b v];
    try reflexivity.
  cbn [combine map]. f_equal; [ring | apply IH].
Qed.

Lemma squares_concat_swap (us vs : list (list R)) :
  map (fun x => x * x) (concat (map (fun '(p, t) => sub p t) (combine us vs))) =
  map (fun x => x * x) (concat (map (fun '(p, t) => sub p t) (combine vs us))).
Proof.
  revert vs. induction us as [|u us IH]; intros [|v vs]; try reflexivity.
  cbn [combine map concat]. rewrite !map_app. f_equal;
    [apply squares_sub_swap | apply IH].
Qed.

(** X1. The rotation and the translation terms do not depend on which of the
    two batches is the prediction. *)
Theorem loss_terms_symmetric (predicted target : Batch) :
  rotation_loss predicted target = rotation_loss target predicted /\
  translation_loss predicted target = translation_loss target predicted.
Proof.
  split.
  - unfold rotation_loss. f_equal. rewrite map_combine_swap.
    apply map_ext. intros [t p]. apply theta_sym.
  - unfold translation_loss, norm. do 2 f_equal. apply squares_concat_swap.
Qed.

(** X2. For non-empty batches the rotation term is a number between
    [acos 0.9999] and [PI - acos 0.9999]: the clamp keeps it away from both
    0 and [PI]. *)
Theorem rotation_loss_range (predicted target : Batch) :
  predicted <> [] -> target <> [] ->
  exists r,
    rotation_loss predicted target = Some r /\
    acos 0.9999 <= r <= PI - acos 0.9999 /\ 0 < r < PI.
Proof.
  intros Hp Ht.
  destruct (rotation_loss_lower_bound predicted target Hp Ht) as (r & Hr & Hlo).
  exists r. split; [exact Hr|].
  assert (r <= PI - acos 0.9999) as Hhi.
  { destruct (mean_upper_bound (PI - acos 0.9999)
                (map (fun '(p, t) => theta p t) (combine predicted target)))
      as (r' & Hr' & Hle).
    - destruct predicted; [contradiction|]. destruct target; [contradiction|].
      discriminate.
    - apply List.Forall_map. apply List.Forall_forall.
      intros [p t] _. apply theta_upper_bound.
    - unfold rotation_loss in Hr. rewrite Hr in Hr'. injection Hr' as <-.
      exact Hle. }
  pose proof acos_clamped_positive. lra.
Qed.

Lemma translation_loss_nonneg (predicted target : Batch) :
  0 <= translation_loss predicted target.
Proof. apply norm_nonneg. Qed.

Lemma sub_zero_inv (u v : list R) :
  length u = length v -> Forall (fun x => x = 0) (sub u v) -> u = v.
Proof.
  unfold sub. revert v. induction u as [|a u IH]; intros [|b v] Hlen Hall;
    try discriminate; [reflexivity|].
  cbn [combine map] in Hall. inversion Hall as [|? ? Hab Hrest]; subst.
  f_equal; [lra | apply IH; [cbn in Hlen; lia | exact Hrest]].
Qed.

(** X3. The translation term is never negative, and it is 0 exactly when every
    paired sample has the same translation column. *)
Theorem translation_loss_zero_iff (predicted target : Batch) :
  0 <= translation_loss predicted target /\
  (translation_loss predicted target = 0 <->
   Forall (fun '(p, t) => translation p = translation t)
     (combine predicted target)).
Proof.
  split; [apply translation_loss_nonneg|]. unfold translation_loss. split.
  - intros Hzero. apply norm_zero_inv in Hzero.
    revert target Hzero.
    induction predicted as [|p predicted IH]; intros [|t target] Hzero;
      [constructor | constructor | constructor | constructor].
    + cbn [map combine concat] in Hzero.
      apply List.Forall_app in Hzero as [Hhead _].
      apply sub_zero_inv; [|exact Hhead].
      unfold translation. rewrite !length_map. reflexivity.
    + cbn [map combine concat] in Hzero.
      apply List.Forall_app in Hzero as [_ Htail]. apply IH, Htail.
  - intros Hall. apply norm_zero.
    revert target Hall.
    induction predicted as [|p predicted IH]; intros [|t target] Hall;
      [constructor | constructor | constructor |].
    cbn [map combine concat]. cbn [combine] in Hall.
    inversion Hall as [|? ? Hpt Hrest]; subst.
    apply List.Forall_app. split; [|apply IH, Hrest].
    rewrite Hpt. apply sub_diag.
Qed.

Lemma ortho_loss_nonneg (predicted : Batch) :
  predicted <> [] -> exists o, ortho_loss predicted = Some o /\ 0 <= o.
Proof.
  intros Hne. unfold ortho_loss.
  destruct (mean_nonneg (map (fun p =>
               let M := matmul_transpose (rotation p) (rotation p) in
               norm (entries (fun i j => M i j - eye i j))) predicted))
    as (o & Ho & Hpos & _).
  - destruct predicted; [contradiction | discriminate].
  - apply List.Forall_map. apply List.Forall_forall. intros p _.
    apply norm_nonneg.
  - exists o. split; [exact Ho | exact Hpos].
Qed.

(** X4. What [forward] gives as a single number ([components=False]): an error
    for batches of different sizes, [nan] for empty batches, and otherwise,
    with a non-negative [SO_weight], a number that is at least
    [acos 0.9999 / 3]; the loss never reaches 0. *)
Theorem forward_mean_outcomes (self : SpecialEuclideanGeodesicLoss)
    (predicted target : Batch) :
  (length predicted <> length target ->
   forward self predicted target false = Raise RuntimeError) /\
  (predicted = [] -> target = [] ->
   forward self predicted target false = Ok (Mean None)) /\
  (predicted <> [] -> length predicted = length target ->
   (forall w, SO_weight self = Some w -> 0 <= w) ->
   exists l,
     forward self predicted target false = Ok (Mean (Some l)) /\
     acos 0.9999 / 3 <= l /\ 0 < l).
Proof.
  split; [|split].
  - intros Hlen. unfold forward.
    apply Nat.eqb_neq in Hlen. rewrite Hlen. reflexivity.
  - intros -> ->. unfold forward. cbn. destruct (SO_weight self); reflexivity.
  - intros Hp Hlen Hw.
    assert (target <> []) as Ht
      by (destruct target; [destruct predicted; [contradiction | discriminate]
                           | discriminate]).
    destruct (rotation_loss_lower_bound predicted target Hp Ht)
      as (r & Hr & Hlo).
    destruct (ortho_loss_nonneg predicted Hp) as (o & Ho & Hopos).
    pose proof (translation_loss_nonneg predicted target) as Htl.
    pose proof acos_clamped_positive as Hacos.
    unfold forward. rewrite Hlen, Nat.eqb_refl. cbn [negb]. rewrite Hr.
    destruct (SO_weight self) as [w|] eqn:Ew.
    + specialize (Hw w eq_refl). rewrite Ho.
      eexists. split; [reflexivity|].
      cbn [length INR sum fold_right]. 
      assert (0 <= o * w) by (apply Rmult_le_pos; assumption).
      split; lra.
    + eexists. split; [reflexivity|].
      cbn [length INR sum fold_right]. split; lra.
Qed.


Lemma Forall_map_seq (P : R -> Prop) (g : nat -> R) (n : nat) :
  Forall P (map g (seq 0 n)) <-> (forall i, (i < n)%nat -> P (g i)).
Proof.
  rewrite List.Forall_map, List.Forall_forall. split.
  - intros H i Hi. apply H, in_seq. lia.
  - intros H i Hi. apply in_seq in Hi. apply H. lia.
Qed.

Lemma Forall_flat_map_seq (P : R -> Prop) (g : nat -> list R) (n : nat) :
  Forall P (flat_map g (seq 0 n)) <->
  (forall i, (i < n)%nat -> Forall P (g i)).
Proof.
  rewrite List.Forall_flat_map, List.Forall_forall. split.
  - intros H i Hi. apply H, in_seq. lia.
  - intros H i Hi. apply in_seq in Hi. apply H. lia.
Qed.

Lemma square_entries_forall (P : R -> Prop) (n : nat) (M : nat -> nat -> R) :
  Forall P (square_entries n M) <->
  (forall i j, (i < n)%nat -> (j < n)%nat -> P (M i j)).
Proof.
  unfold square_entries. rewrite Forall_flat_map_seq. split.
  - intros H i j Hi Hj. exact (proj1 (Forall_map_seq P (M i) n) (H i Hi) j Hj).
  - intros H i Hi. apply Forall_map_seq. intros j Hj. apply H; assumption.
Qed.

Lemma cloud_entries_forall (P : R -> Prop) (B N : nat) (t : Cloud) :
  Forall P (cloud_entries B N t) <->
  (forall b n i, (b < B)%nat -> (n < N)%nat -> (i < 3)%nat -> P (t b n i)).
Proof.
  unfold cloud_entries. rewrite Forall_flat_map_seq. split.
  - intros H b n i Hb Hn Hi.
    pose proof (proj1 (Forall_flat_map_seq P _ N) (H b Hb) n Hn) as Hrow.
    exact (proj1 (Forall_map_seq P (t b n) 3) Hrow i Hi).
  - intros H b Hb. apply Forall_flat_map_seq. intros n Hn.
    apply Forall_map_seq. intros i Hi. apply H; assumption.
Qed.

Lemma norm_zero_iff (l : list R) : norm l = 0 <-> Forall (fun v => v = 0) l.
Proof. split; [apply norm_zero_inv | apply norm_zero]. Qed.

(** One batch of square matrices: its term is a non-negative number, 0
    exactly for orthogonal matrices. *)
Lemma orthogonality_term_square (Rs : Matrices) :
  rows Rs = cols Rs -> matrices Rs <> [] ->
  exists r,
    orthogonality_term Rs = Ok (Some r) /\ 0 <= r /\
    (r = 0 <-> orthogonal_batch Rs).
Proof.
  intros Hsq Hne. unfold orthogonality_term.
  rewrite Hsq, Nat.eqb_refl. cbn [negb].
  destruct (mean_nonneg
              (map (fun M =>
                      norm (square_entries (cols Rs)
                              (fun i j => gram (cols Rs) M i j - eye i j)))
                 (matrices Rs)))
    as (r & Hr & Hpos & Hzero).
  - destruct (matrices Rs); [contradiction | discriminate].
  - apply List.Forall_map. apply List.Forall_forall. intros M _.
    apply norm_nonneg.
  - exists r. split; [rewrite Hr; reflexivity|]. split; [exact Hpos|].
    rewrite Hzero. unfold orthogonal_batch. rewrite List.Forall_map.
    split.
    + intros Hall. split; [exact Hsq|].
      eapply List.Forall_impl; [|exact Hall]. cbn beta. intros M HM i j Hi Hj.
      apply norm_zero_iff in HM.
      pose proof (proj1 (square_entries_forall _ _ _) HM i j) as Hij.
      rewrite Hsq in Hi, Hj. specialize (Hij Hi Hj). cbn beta in Hij. lra.
    + intros [_ Hall].
      eapply List.Forall_impl; [|exact Hall]. cbn beta. intros M HM.
      apply norm_zero_iff. apply square_entries_forall. intros i j Hi Hj.
      rewrite HM by (rewrite Hsq; assumption). lra.
Qed.

Lemma mapM_Some (rs : list R) :
  mapM (fun s : option R => s) (map Some rs) = Some rs.
Proof.
  induction rs as [|r rs IH]; [reflexivity|].
  cbn [map]. cbn. rewrite IH. reflexivity.
Qed.

Lemma traverse_square (rotations : list Matrices) :
  Forall (fun Rs => rows Rs = cols Rs /\ matrices Rs <> []) rotations ->
  exists rs,
    Py.traverse orthogonality_term rotations = Ok (map Some rs) /\
    length rs = length rotations /\
    Forall (fun r => 0 <= r) rs /\
    (Forall (fun r => r = 0) rs <-> Forall orthogonal_batch rotations).
Proof.
  induction 1 as [|Rs rotations [Hsq Hne] _ (rs & Hrs & Hlen & Hpos & Hzero)].
  - exists []. repeat split; constructor.
  - destruct (orthogonality_term_square Rs Hsq Hne) as (r & Hr & Hr0 & Hrz).
    exists (r :: rs). cbn [Py.traverse]. rewrite Hr, Hrs.
    split; [reflexivity|]. split; [cbn; lia|].
    split; [constructor; assumption|].
    split; intros Hall; inversion Hall; subst; constructor; tauto.
Qed.

Lemma traverse_assertion (rotations : list Matrices) :
  Exists (fun Rs => rows Rs <> cols Rs) rotations ->
  Py.traverse orthogonality_term rotations = Raise AssertionError.
Proof.
  induction rotations as [|Rs rotations IH]; intros Hex;
    [inversion Hex|].
  assert (orthogonality_term Rs = Raise AssertionError \/
          rows Rs = cols Rs /\ exists y, orthogonality_term Rs = Ok y)
    as [Hterm | [Hsq [y Hterm]]].
  { unfold orthogonality_term.
    destruct (rows Rs =? cols Rs)%nat eqn:E; [right | left; reflexivity].
    apply Nat.eqb_eq in E. split; [exact E | eexists; reflexivity]. }
  - cbn [Py.traverse]. rewrite Hterm. reflexivity.
  - cbn [Py.traverse]. rewrite Hterm. cbn [mbind Py.result_bind Py.bind].
    rewrite IH; [reflexivity|].
    inversion Hex as [? ? Hhead|? ? Htail]; subst; [contradiction|exact Htail].
Qed.

(** X5. [SpecialOrthogonalLoss.forward]: a batch that is not square fails the
    assertion, an empty list of batches makes [torch.stack] fail, and for
    non-empty square batches and a positive weight the result is a
    non-negative number, which is 0 exactly when every matrix is
    orthogonal. *)
Theorem orthogonal_loss_outcomes (weight : R) (rotations : list Matrices) :
  (Exists (fun Rs => rows Rs <> cols Rs) rotations ->
   SpecialOrthogonalLoss_forward weight rotations = Raise AssertionError) /\
  (rotations = [] ->
   SpecialOrthogonalLoss_forward weight rotations = Raise RuntimeError) /\
  (rotations <> [] ->
   Forall (fun Rs => rows Rs = cols Rs /\ matrices Rs <> []) rotations ->
   0 < weight ->
   exists l,
     SpecialOrthogonalLoss_forward weight rotations = Ok (Some l) /\
     0 <= l /\ (l = 0 <-> Forall orthogonal_batch rotations)).
Proof.
  unfold SpecialOrthogonalLoss_forward. split; [|split].
  - intros Hex. rewrite (traverse_assertion rotations Hex). reflexivity.
  - intros ->. reflexivity.
  - intros Hne Hall Hw.
    destruct (traverse_square rotations Hall)
      as (rs & -> & Hlen & Hpos & Hzero).
    cbn [mbind Py.result_bind Py.bind].
    destruct rs as [|r rs].
    { destruct rotations; [contradiction | discriminate]. }
    cbn [map]. change (Some r :: map Some rs) with (map Some (r :: rs)).
    unfold stack_mean. rewrite mapM_Some.
    destruct (mean_nonneg (r :: rs)) as (m & Hm & Hm0 & Hmz);
      [discriminate | exact Hpos |].
    rewrite Hm. exists (m * weight). split; [reflexivity|].
    split; [apply Rmult_le_pos; lra|].
    rewrite <- Hzero, <- Hmz. split; [|intros ->; lra].
    intros Hmw. apply Rmult_integral in Hmw as [Hmw|Hmw]; lra.
Qed.

(** X6. [PointCloudMSELoss.forward] on non-empty clouds with a positive weight:
    a non-negative number, 0 exactly when the target is the source moved by
    the pose. *)
Theorem point_cloud_loss_zero_iff (weight : R) (B N : nat)
    (source target pose : Cloud) :
  (0 < B)%nat -> (0 < N)%nat -> 0 < weight ->
  exists l,
    PointCloudMSELoss_forward weight B N source target pose = Some l /\
    0 <= l /\
    (l = 0 <->
     forall b n i, (b < B)%nat -> (n < N)%nat -> (i < 3)%nat ->
       source_transformed source pose b n i = target b n i).
Proof.
  intros HB HN Hw. unfold PointCloudMSELoss_forward, mse_loss.
  set (d := fun b n i =>
              (source_transformed source pose b n i - target b n i) *
              (source_transformed source pose b n i - target b n i)).
  destruct (mean_nonneg (cloud_entries B N d)) as (m & Hm & Hm0 & Hmz).
  - destruct B as [|B]; [lia|]. destruct N as [|N]; [lia|]. discriminate.
  - apply cloud_entries_forall. intros b n i _ _ _. unfold d. apply Rle_0_sqr.
  - rewrite Hm. exists (m * weight). split; [reflexivity|].
    split; [apply Rmult_le_pos; lra|].
    rewrite (cloud_entries_forall (fun v => v = 0) B N d) in Hmz.
    split.
    + intros Hmw b n i Hb Hn Hi.
      assert (m = 0) as Hm' by (apply Rmult_integral in Hmw as [|]; lra).
      pose proof (proj1 Hmz Hm' b n i Hb Hn Hi) as Hd. unfold d in Hd.
      apply Rmult_integral in Hd as [Hd|Hd]; lra.
    + intros Heq. assert (m = 0) as ->; [|lra].
      apply Hmz. intros b n i Hb Hn Hi. unfold d.
      rewrite (Heq b n i Hb Hn Hi). lra.
Qed.

End LossProperties.

(** ** More on the tensor plumbing ([src/models/xswin.py]) *)

Module XSwinProperties.
Import Torch TorchFacts XSwin XSwinFacts.

Lemma length_set_nth {T : Type} (d : nat) (v : T) (l : list T) :
  length (set_nth d v l) = length l.
Proof.
  revert d. induction l as [|x l IH]; intros [|d]; cbn; try reflexivity.
  rewrite IH. reflexivity.
Qed.

Section Windows.
Context {A : Type} `{Dtype A}.

(** [unfold] along an existing axis either fails with [RuntimeError] or
    returns a tensor with one more axis. *)
Lemma unfold_rank (t : Tensor A) (dimension : Z) (size step d : nat) :
  wrap_dim (dim t) dimension = Ok d ->
  unfold t dimension size step = Raise RuntimeError \/
  exists u, unfold t dimension size step = Ok u /\ dim u = S (dim t).
Proof.
  intros Hd. unfold unfold. rewrite Hd. cbn [mbind Py.result_bind Py.bind].
  destruct (nth d (shape t) 0 <? size); [left; reflexivity|].
  destruct (step =? 0); [left; reflexivity|].
  right. eexists. split; [reflexivity|].
  unfold dim. cbn [shape build]. rewrite length_app, length_set_nth. cbn. lia.
Qed.

Lemma wrap_dim_minus3 (r : nat) : 3 <= r -> wrap_dim r (-3) = Ok (r - 3).
Proof.
  intros Hr. unfold wrap_dim.
  replace ((0 <=? -3)%Z) with false by reflexivity. cbn [andb].
  replace ((- Z.of_nat r <=? -3)%Z) with true
    by (symmetry; apply Z.leb_le; lia).
  replace ((-3 <? 0)%Z) with true by reflexivity. cbn [andb].
  f_equal. lia.
Qed.

Lemma rev_three (s : list nat) :
  3 <= length s -> exists C W Hh Brev, rev s = C :: W :: Hh :: Brev.
Proof.
  intros Hlen. rewrite <- length_rev in Hlen.
  destruct (rev s) as [|C [|W [|Hh Brev]]]; cbn in Hlen; try lia.
  eauto.
Qed.

Lemma rev_short (s : list nat) :
  length s < 3 ->
  rev s = [] \/ (exists a, rev s = [a]) \/ (exists a b, rev s = [a; b]).
Proof.
  intros Hlen. rewrite <- length_rev in Hlen.
  destruct (rev s) as [|a [|b [|c l]]]; cbn in Hlen; try lia; eauto.
Qed.

(** X7. [_extract_windows] accepts feature maps with exactly one batch
    axis: fewer than three axes fail the unpacking of the shape, and three
    axes or more than four make [unfold] or [permute] fail. *)
Theorem extract_windows_rank (feature_map : Tensor A)
    (window_height window_width : nat)
    (stride_height stride_width : option nat) :
  (dim feature_map < 3 ->
   _extract_windows feature_map window_height window_width
     stride_height stride_width = Raise ValueError) /\
  (3 <= dim feature_map -> dim feature_map <> 4 ->
   _extract_windows feature_map window_height window_width
     stride_height stride_width = Raise RuntimeError).
Proof.
  unfold _extract_windows. split.
  - intros Hr. destruct (rev_short (shape feature_map) Hr)
      as [-> | [[a ->] | (a & b & ->)]]; reflexivity.
  - intros Hr Hne.
    destruct (rev_three (shape feature_map) Hr) as (C & W & Hh & Brev & ->).
    destruct (unfold_rank feature_map (-3) window_height
                (default window_height stride_height) (dim feature_map - 3)
                (wrap_dim_minus3 (dim feature_map) Hr))
      as [-> | (u1 & -> & Hu1)]; [reflexivity|].
    cbn [mbind Py.result_bind Py.bind].
    destruct (unfold_rank u1 (-3) window_width
                (default window_width stride_width) (dim u1 - 3)
                (wrap_dim_minus3 (dim u1) ltac:(lia)))
      as [-> | (u2 & -> & Hu2)]; [reflexivity|].
    cbn [mbind Py.result_bind Py.bind].
    unfold permute.
    replace (length [0; -5; -4; -2; -1; -3]%Z =? dim u2) with false;
      [reflexivity|].
    symmetry. apply Nat.eqb_neq. cbn [length]. lia.
Qed.


(** X8. On a feature map [[B, H, W, C]], [_extract_windows] with any
    strides returns the windows exactly when the window fits and both
    strides are positive: entry [i * window_width + j] of window [(h, v)]
    is the pixel [(h * stride_height + i, v * stride_width + j)].
    Otherwise [unfold] raises. *)
Theorem extract_windows_result (x : Tensor A) (B Hh W C wh ww : nat)
    (osh osw : option nat) :
  let sh := default wh osh in
  let sw := default ww osw in
  let nh := (Hh - wh) / sh + 1 in
  let nw := (W - ww) / sw + 1 in
  shape x = [B; Hh; W; C] ->
  (wh <= Hh /\ ww <= W /\ 0 < sh /\ 0 < sw ->
   exists w,
     _extract_windows x wh ww osh osw = Ok w /\
     shape w = [B; nh; nw; wh * ww; C] /\ wf w /\
     forall b h v i j c,
       b < B -> h < nh -> v < nw -> i < wh -> j < ww -> c < C ->
       get w [b; h; v; i * ww + j; c] =
       get x [b; h * sh + i; v * sw + j; c]) /\
  (Hh < wh \/ W < ww \/ sh = 0 \/ sw = 0 ->
   _extract_windows x wh ww osh osw = Raise RuntimeError).
Proof.
  intros sh sw nh nw Hs. split.
  - intros (Hwh & Hww & Hsh & Hsw).
    exact (extract_windows_strided x B Hh W C wh ww osh osw
             Hs Hwh Hww Hsh Hsw).
  - intros Hbad. unfold _extract_windows. rewrite Hs.
    cbn [rev app]. fold sh sw.
    destruct (Nat.ltb_spec Hh wh) as [Hlt|Hge].
    { rewrite (unfold_too_small x (-3) wh sh 1); unfold dim; rewrite ?Hs;
        [reflexivity | reflexivity | cbn [nth]; lia]. }
    destruct (Nat.eqb_spec sh 0) as [Hz|Hsh].
    { rewrite Hz. rewrite (unfold_zero_step x (-3) wh 1); unfold dim;
        rewrite ?Hs; reflexivity. }
    rewrite (unfold_rows x B Hh W C wh sh Hs) by lia.
    cbn [mbind Py.result_bind Py.bind].
    set (U1 := build _ _).
    destruct (Nat.ltb_spec W ww) as [Hlt|Hge'].
    { rewrite (unfold_too_small U1 (-3) ww sw 2);
        [reflexivity | reflexivity | cbn [U1 shape build nth]; lia]. }
    assert (sw = 0) as -> by lia.
    rewrite (unfold_zero_step U1 (-3) ww 2); reflexivity.
Qed.

Lemma pad_expansion_pads (x : Tensor A) (Bs : list nat) (Hh W C : nat) :
  shape x = Bs ++ [Hh; W; C] -> C mod 4 <> 0 ->
  exists y,
    _pad_expansion x false = Ok y /\
    shape y = Bs ++ [Hh; W; C + (4 - C mod 4)] /\ wf y.
Proof.
  intros Hs HC. destruct (pad_amount C HC) as (Hp & Hrange & Hmul).
  assert (rev (shape x) = C :: W :: Hh :: rev Bs) as Hrev
    by (rewrite Hs, rev_app_distr; reflexivity).
  unfold _pad_expansion. rewrite Hrev, Hp.
  destruct (Nat.eqb_spec (4 - C mod 4) 0) as [Hz|_]; [lia|].
  cbn [negb]. unfold pad_last. rewrite Hrev.
  eexists. split; [reflexivity|]. split; [|apply (wf_build _ _)].
  cbn [shape build rev]. rewrite rev_involutive, <- !app_assoc. reflexivity.
Qed.

(** On a non-empty tensor whose channel count is not a multiple of four
    the channels are padded after [C] has been computed, and the first
    [view] fails. *)
Lemma patch_expanding_pad_fails (x : Tensor A) (B Hh W C : nat) :
  shape x = [B; Hh; W; C] -> C mod 4 <> 0 -> 0 < B * Hh * W ->
  _patch_expanding_pad x = Raise RuntimeError.
Proof.
  intros Hs HC Hpos.
  destruct (pad_expansion_pads x [B] Hh W C Hs HC) as (y & Hy & Hsy & _).
  unfold _patch_expanding_pad. rewrite Hs. cbn [rev app]. rewrite Hy.
  cbn [mbind Py.result_bind Py.bind]. unfold view, reshape. rewrite Hsy.
  cbn [app].
  replace (numel [B; Hh; W; 2; 2; C / 4] =?
           numel [B; Hh; W; C + (4 - C mod 4)]) with false; [reflexivity|].
  symmetry. apply Nat.eqb_neq. cbn [numel fold_right].
  pose proof (Nat.div_mod_eq C 4) as Hdm.
  pose proof (Nat.mod_upper_bound C 4 ltac:(lia)) as Hlt.
  replace (C + (4 - C mod 4)) with (4 * (C / 4) + 4) by lia.
  nia.
Qed.

(** X9. [_patch_expanding_pad] cannot pad.  On a tensor [[B, H, W, C]] it
    returns, with the shape [[B, 2H, 2W, C // 4]], exactly when [C] is a
    multiple of four or the tensor is empty; on a non-empty tensor with any
    other channel count the [view] that follows the padding fails. *)
Theorem patch_expanding_pad_succeeds_iff (x : Tensor A) (B Hh W C : nat) :
  shape x = [B; Hh; W; C] ->
  (C mod 4 = 0 \/ B * Hh * W = 0 ->
   exists y,
     _patch_expanding_pad x = Ok y /\ shape y = [B; Hh * 2; W * 2; C / 4]) /\
  (C mod 4 <> 0 -> 0 < B * Hh * W ->
   _patch_expanding_pad x = Raise RuntimeError).
Proof.
  intros Hs. split; [|apply patch_expanding_pad_fails; exact Hs].
  intros Hok. destruct (Nat.eq_dec (C mod 4) 0) as [HC|HC].
  - apply Nat.Div0.mod_divides in HC as [c ->].
    destruct (patch_expanding_get x B Hh W c Hs) as (y & Hy & Hsy & _).
    exists y. split; [exact Hy|].
    replace (4 * c / 4) with c by (rewrite Nat.mul_comm, Nat.div_mul; lia).
    exact Hsy.
  - destruct Hok as [|Hempty]; [contradiction|].
    destruct (pad_expansion_pads x [B] Hh W C Hs HC) as (y & Hy & Hsy & _).
    unfold _patch_expanding_pad. rewrite Hs. cbn [rev app]. rewrite Hy.
    cbn [mbind Py.result_bind Py.bind]. unfold view.
    assert (forall k, B * (Hh * (W * k)) = 0) as Hzero by (intros k; nia).
    rewrite reshape_ok
      by (rewrite Hsy; cbn [app numel fold_right]; rewrite !Hzero;
          reflexivity).
    cbn [mbind Py.result_bind Py.bind]. cbn [app].
    set (V6 := mkTensor [B; Hh; W; 2; 2; C / 4] (data y)).
    rewrite (permute_swap23 V6 _ B Hh W 2 2 (C / 4) (or_intror eq_refl)
               eq_refl).
    cbn [mbind Py.result_bind Py.bind].
    rewrite reshape_ok
      by (cbn [shape build numel fold_right]; lia).
    eexists. split; reflexivity.
Qed.

(** X10. Pixel by pixel: output pixel [(y, z)] of [_patch_expanding_pad]
    reads input pixel [(y / 2, z / 2)], and its channel [c] is input
    channel [(2 * (y mod 2) + z mod 2) * C + c]. *)
Theorem patch_expanding_pixel (x : Tensor A) (B Hh W C : nat) :
  shape x = [B; Hh; W; 4 * C] ->
  exists out,
    _patch_expanding_pad x = Ok out /\
    shape out = [B; Hh * 2; W * 2; C] /\
    forall b y z c,
      b < B -> y < Hh * 2 -> z < W * 2 -> c < C ->
      get out [b; y; z; c] =
      get x [b; y / 2; z / 2; (y mod 2 * 2 + z mod 2) * C + c].
Proof.
  intros Hs.
  destruct (patch_expanding_get x B Hh W C Hs) as (out & Hout & Hso & _ & Hget).
  exists out. split; [exact Hout|]. split; [exact Hso|].
  intros b y z c Hb Hy Hz Hc.
  destruct (split_offset y Hh 2 ltac:(lia) Hy) as (Ey & Hy1 & Hy2).
  destruct (split_offset z W 2 ltac:(lia) Hz) as (Ez & Hz1 & Hz2).
  rewrite Ey at 1. rewrite Ez at 1.
  apply Hget; assumption.
Qed.

(** X11. [_pad_expansion] needs three axes; on any tensor that has them
    the undistributed call returns a tensor whose channel count is a
    multiple of four, and padding that result again, with either flag,
    changes nothing. *)
Theorem pad_expansion_idempotent (x : Tensor A) :
  (dim x < 3 -> forall distributed,
     _pad_expansion x distributed = Raise ValueError) /\
  (3 <= dim x ->
   exists y,
     _pad_expansion x false = Ok y /\
     List.last (shape y) 0 mod 4 = 0 /\
     forall distributed, _pad_expansion y distributed = Ok y).
Proof.
  split.
  - intros Hr d. unfold _pad_expansion.
    destruct (rev_short (shape x) Hr) as [-> | [[a ->] | (a & b & ->)]];
      reflexivity.
  - intros Hr. destruct (rev_three (shape x) Hr) as (C & W & Hh & Brev & Hrev).
    assert (shape x = rev Brev ++ [Hh; W; C]) as Hs.
    { rewrite <- (rev_involutive (shape x)), Hrev. cbn [rev].
      rewrite <- !app_assoc. reflexivity. }
    destruct (Nat.eq_dec (C mod 4) 0) as [HC|HC].
    + exists x. split; [exact (pad_expansion_aligned x _ Hh W C false Hs HC)|].
      split.
      * rewrite Hs. change [Hh; W; C] with ([Hh; W] ++ [C]).
        rewrite app_assoc, last_last. exact HC.
      * intros d. exact (pad_expansion_aligned x _ Hh W C d Hs HC).
    + destruct (pad_expansion_pads x (rev Brev) Hh W C Hs HC)
        as (y & Hy & Hsy & _).
      destruct (pad_amount C HC) as (_ & _ & Hmul).
      exists y. split; [exact Hy|]. split.
      * rewrite Hsy.
        change [Hh; W; C + (4 - C mod 4)]
          with ([Hh; W] ++ [C + (4 - C mod 4)]).
        rewrite app_assoc, last_last. exact Hmul.
      * intros d.
        exact (pad_expansion_aligned y _ Hh W _ d Hsy Hmul).
Qed.

(** X12. With an attention layer that keeps the shape of its queries,
    [SwinResidualCrossAttention.forward] on two maps of shape
    [[B, H, W, C]] returns a map of whole windows: its height and width
    are the numbers of windows times the window size, never more than [H]
    and [W]. *)
Theorem forward_output_shape (self : SwinResidualCrossAttention A)
    (x residual : Tensor A) (B Hh W C : nat) :
  let wh := window_height self in
  let ww := window_width self in
  (forall Q K V, exists out,
     cross_attention self Q K V = Ok out /\ shape out = shape Q) ->
  shape x = [B; Hh; W; C] -> shape residual = [B; Hh; W; C] ->
  0 < wh -> 0 < ww -> wh <= Hh -> ww <= W -> 0 < C ->
  exists out,
    forward self x residual = Ok out /\
    shape out = [B; window_count Hh wh * wh; window_count W ww * ww; C] /\
    window_count Hh wh * wh <= Hh /\ window_count W ww * ww <= W.
Proof.
  intros wh ww Hattn Hs Hs' Hpwh Hpww Hwh Hww HC.
  destruct (extract_windows_shape x B Hh W C wh ww Hs Hwh Hww Hpwh Hpww)
    as (xc & Hx & Hsx).
  destruct (extract_windows_shape residual B Hh W C wh ww Hs' Hwh Hww
              Hpwh Hpww) as (rc & Hr & Hsr).
  set (nh := window_count Hh wh) in *. set (nw := window_count W ww) in *.
  unfold forward. fold wh ww. rewrite Hx, Hr.
  cbn [mbind Py.result_bind Py.bind].
  rewrite bool_decide_true by (rewrite Hsx, Hsr; reflexivity). cbn [negb].
  unfold attend. rewrite Hsr. cbn [rev app]. fold wh ww.
  set (p := numel [wh * ww; C]).
  assert (numel [B; nh; nw; wh * ww; C] = B * nh * nw * p) as Hn
    by (unfold p; cbn [numel fold_right]; lia).
  assert (0 < p) as Hp by (unfold p; cbn [numel fold_right]; nia).
  unfold reshape_infer. fold p. rewrite Hsx, Hsr, Hn.
  destruct (Nat.eqb_spec p 0) as [|_]; [lia|].
  rewrite Nat.Div0.mod_mul, Nat.eqb_refl. cbn [negb].
  cbn [mbind Py.result_bind Py.bind].
  destruct (Hattn (mkTensor (B * nh * nw * p / p :: [wh * ww; C]) (data xc))
              (mkTensor (B * nh * nw * p / p :: [wh * ww; C]) (data rc))
              (mkTensor (B * nh * nw * p / p :: [wh * ww; C]) (data rc)))
    as (att & -> & Hsa).
  cbn [mbind Py.result_bind Py.bind]. cbn [shape] in Hsa.
  rewrite Nat.div_mul in Hsa by lia.
  rewrite (merge_windows_data att
             (mkTensor [B; nh; nw; wh * ww; C] (data att)) wh ww [B] nh nw C
             eq_refl)
    by (rewrite Hsa; cbn [shape]; rewrite Hn; reflexivity).
  destruct (merge_windows_get
              (mkTensor [B; nh; nw; wh * ww; C] (data att)) B nh nw C wh ww
              eq_refl) as (m & Hm & Hsm & _).
  exists m. split; [exact Hm|]. split; [exact Hsm|].
  unfold nh, nw, window_count.
  pose proof (Nat.Div0.mul_div_le (Hh - wh) wh) as H1.
  pose proof (Nat.Div0.mul_div_le (W - ww) ww) as H2.
  split; nia.
Qed.


(** X13. [PatchExpandingV2.forward] on a map [[B, H, W, dim]], for an
    expansion layer that doubles the last axis and a normalisation that
    keeps the shape: with an even [dim] the result has the shape
    [[B, 2H, 2W, dim / 2]], height and width doubled and channels halved;
    with an odd [dim] the call fails on every non-empty map. *)
Theorem patch_expanding_forward_shape
    (self : PatchExpanding.PatchExpandingV2 A) (x : Tensor A)
    (B Hh W : nat) :
  let d := PatchExpanding.dim self in
  (forall t Bs, shape t = Bs ++ [d] ->
     exists y, PatchExpanding.expansion self t = Ok y /\
               shape y = Bs ++ [2 * d]) ->
  (forall t, exists y, PatchExpanding.norm self t = Ok y /\
                       shape y = shape t) ->
  shape x = [B; Hh; W; d] ->
  (Nat.Even d ->
   exists y,
     PatchExpanding.forward self x = Ok y /\
     shape y = [B; 2 * Hh; 2 * W; d / 2]) /\
  (Nat.Odd d -> 0 < B * Hh * W ->
   PatchExpanding.forward self x = Raise RuntimeError).
Proof.
  intros d Hexp Hnorm Hs.
  destruct (Hexp x [B; Hh; W] Hs) as (y1 & Hy1 & Hs1).
  destruct (Hnorm y1) as (y2 & Hy2 & Hs2). rewrite Hs1 in Hs2.
  cbn [app] in Hs2.
  unfold PatchExpanding.forward. fold d. rewrite Hy1.
  cbn [mbind Py.result_bind Py.bind]. rewrite Hy2.
  cbn [mbind Py.result_bind Py.bind].
  split.
  - intros [k Hk].
    assert (shape y2 = [B; Hh; W; 4 * k]) as Hs4
      by (rewrite Hs2; do 4 f_equal; lia).
    destruct (patch_expanding_get y2 B Hh W k Hs4) as (y & Hy & Hsy & _).
    exists y. split; [exact Hy|]. rewrite Hsy.
    rewrite Hk, (Nat.mul_comm 2 k), Nat.div_mul by lia.
    rewrite (Nat.mul_comm Hh 2), (Nat.mul_comm W 2). reflexivity.
  - intros [k Hk] Hpos.
    apply (patch_expanding_pad_fails y2 B Hh W (2 * d) Hs2); [|exact Hpos].
    replace (2 * d) with (2 + k * 4) by lia.
    rewrite Nat.Div0.mod_add. cbn. lia.
Qed.

End Windows.
End XSwinProperties.

(** ** More on the pose dataset ([src/pose_estimation/pose_data_class.py]) *)

Module PoseDataProperties.
Import PoseDataModel PoseDataFacts PyProperties.
#[local] Open Scope string_scope.

Section Index.
Variables Pickled Cell : Type.
Variable world : World Pickled Cell.

#[local] Abbreviation Sample := (gmap string (Entry Pickled)).
#[local] Abbreviation Flat := (gmap (Z * Z * Z) Sample).
#[local] Abbreviation Nested := (gmap Z (gmap Z (gmap Z Sample))).

Implicit Types (data : Flat) (nested : Nested) (sample : Sample).

Lemma leaf_alter_eq (h : Sample -> Sample) level scene variant nested l s v :
  leaf (alter (alter (alter h variant) scene) level nested) l s v =
  if decide ((level, scene, variant) = (l, s, v))
  then h <$> leaf nested l s v
  else leaf nested l s v.
Proof.
  unfold leaf. rewrite lookup_alter.
  destruct (decide (level = l)) as [<-|Hl].
  2:{ rewrite decide_False by congruence. reflexivity. }
  destruct (nested !! level) as [scenes|]; cbn;
    [|destruct (decide _); reflexivity].
  rewrite lookup_alter.
  destruct (decide (scene = s)) as [<-|Hs].
  2:{ rewrite decide_False by congruence. reflexivity. }
  destruct (scenes !! scene) as [variants|]; cbn;
    [|destruct (decide _); reflexivity].
  rewrite lookup_alter.
  destruct (decide (variant = v)) as [<-|Hv].
  - rewrite decide_True by reflexivity. reflexivity.
  - rewrite decide_False by congruence. reflexivity.
Qed.

Lemma agree_empty : agree (∅ : Flat) (∅ : Nested).
Proof. intros l s v. unfold leaf. rewrite !lookup_empty. reflexivity. Qed.

(** One file of the directory: the record it touches is the same in both
    mappings. *)
Lemma organize_file_agree data_path data nested filename data' nested' :
  organize_file world data_path (data, nested) filename =
  Ok (data', nested') ->
  agree data nested -> agree data' nested'.
Proof.
  unfold organize_file. intros Hstep Hagree.
  destruct (get_component filename) as [component|]; [|discriminate].
  cbn [mbind Py.result_bind Py.bind] in Hstep.
  destruct (parse_key world filename) as [[[level scene] variant]|];
    [|discriminate].
  cbn [mbind Py.result_bind Py.bind] in Hstep.
  set (key := (level, scene, variant)) in *.
  set (fresh := {["key" := EKey key]} : Sample) in *.
  match type of Hstep with
  | (?c ≫= _) = _ => destruct c as [entry|]; [|discriminate]
  end.
  cbn [mbind Py.result_bind Py.bind] in Hstep.
  injection Hstep as <- <-.
  intros l s v. rewrite leaf_alter_eq, leaf_ensure_leaf, upsert_lookup.
  fold key. destruct (decide (key = (l, s, v))) as [Heq|Hne];
    [|apply Hagree].
  cbn. rewrite (Hagree level scene variant). reflexivity.
Qed.

Lemma organize_files_agree data_path filenames data nested data' nested' :
  Py.foldM (organize_file world data_path) (data, nested) filenames =
  Ok (data', nested') ->
  agree data nested -> agree data' nested'.
Proof.
  revert data nested.
  induction filenames as [|filename filenames IH]; intros data nested.
  - cbn. intros [= <- <-]. auto.
  - cbn [Py.foldM]. intros Hfold Hc.
    destruct (organize_file world data_path (data, nested) filename)
      as [[data1 nested1]|] eqn:Hstep; [|discriminate].
    cbn [mbind Py.result_bind Py.bind] in Hfold.
    eapply IH; [exact Hfold|].
    eapply organize_file_agree; eauto.
Qed.

Lemma organize_data_agree data_path data nested :
  organize_data world data_path = Ok (data, nested) -> agree data nested.
Proof.
  unfold organize_data.
  destruct (listdir world data_path) as [filenames|]; [|discriminate].
  cbn [mbind Py.result_bind Py.bind]. intros Hfold.
  eapply organize_files_agree; [exact Hfold | apply agree_empty].
Qed.

(** What [__init__] stores when it scans the directory. *)
Lemma init_scanned data_path models_path (pd : PoseData Pickled Cell) :
  __init__ world data_path models_path None = Ok pd ->
  organize_data world (path_join data_path DATA_FOLDERNAME) =
  Ok (data pd, nested_data pd).
Proof.
  unfold __init__. intros Hinit.
  destruct (organize_objects Pickled Cell world _) as [objs|];
    [|discriminate].
  cbn [mbind Py.result_bind Py.bind] in Hinit.
  destruct (organize_data world _) as [[d n]|] eqn:Hscan; [|discriminate].
  cbn [mbind Py.result_bind Py.bind] in Hinit.
  injection Hinit as <-. reflexivity.
Qed.

(** The loop of [level_split] keeps the two split mappings in agreement. *)
Lemma level_split_loop_agree (selected_level : Z) data :
  let st := map_fold (level_split_step selected_level) (∅, ∅) data in
  agree st.1 st.2.
Proof.
  cbn zeta.
  apply (map_fold_weak_ind
           (fun (st : Flat * Nested) (m : Flat) =>
              agree st.1 st.2 /\
              forall key, m !! key = None -> st.1 !! key = None)).
  - split; [apply agree_empty|]. intros key _. apply lookup_empty.
  - intros [[level scene] variant] sample m [sd sn] Hfresh [IH Hdom].
    unfold level_split_step. cbn [fst snd] in *.
    case_bool_decide as Hlevel.
    + cbn [fst snd]. split; [exact IH|]. intros key Hkey. apply Hdom.
      rewrite lookup_insert in Hkey. destruct (decide _); [discriminate|].
      exact Hkey.
    + cbn [fst snd]. split.
      * intros l s v. rewrite leaf_ensure_leaf, lookup_insert.
        destruct (decide ((level, scene, variant) = (l, s, v))); [|apply IH].
        rewrite IH, (Hdom _ Hfresh). reflexivity.
      * intros key Hkey. rewrite lookup_insert in Hkey |- *.
        destruct (decide _); [discriminate|]. apply Hdom, Hkey.
Qed.

(** X15. After a scan the two mappings hold the same record under every
    key: [nested_data[level][scene][variant]] is [data[(level, scene,
    variant)]].  So indexing by [(level, scene)] and then by [variant] is
    indexing by the triple, and the mappings of a [level_split] agree in
    the same way. *)
Theorem nested_record_is_flat_record
    (data_path models_path : string) (pd : PoseData Pickled Cell) :
  __init__ world data_path models_path None = Ok pd ->
  agree (data pd) (nested_data pd) /\
  (forall level scene variant,
     (variants ← __getitem__ pd (Tuple [level; scene]);
      subscript Pickled variants variant) =
     __getitem__ pd (Tuple [level; scene; variant])) /\
  (forall selected_level split,
     level_split world pd selected_level = Ok split ->
     agree (data split) (nested_data split)).
Proof.
  intros Hinit.
  pose proof (organize_data_agree _ _ _ (init_scanned _ _ _ Hinit)) as Hagree.
  split; [exact Hagree|]. split.
  - intros level scene variant. specialize (Hagree level scene variant).
    unfold __getitem__, leaf in *. cbn [Py.foldM subscript].
    destruct (nested_data pd !! level) as [scenes|]; cbn in *.
    2:{ rewrite <- Hagree. reflexivity. }
    destruct (scenes !! scene) as [variants|]; cbn in *.
    2:{ rewrite <- Hagree. reflexivity. }
    rewrite <- Hagree. reflexivity.
  - intros selected_level split. unfold level_split.
    pose proof (level_split_loop_agree selected_level (data pd)) as Hloop.
    destruct (map_fold (level_split_step selected_level) (∅, ∅) (data pd))
      as [split_data split_nested_data].
    cbn. intros [= <-]. exact Hloop.
Qed.


Lemma get_component_cases (filename component : string) :
  get_component filename = Ok component ->
  component = "color" \/ component = "depth" \/ component = "label" \/
  component = "meta".
Proof.
  unfold get_component.
  destruct (find _ components) as [c|] eqn:Hfind; [|discriminate].
  intros [= <-]. apply find_some in Hfind as [Hin _].
  cbn in Hin. intuition auto.
Qed.

(** The entry built for one file. *)
Lemma organize_file_entry data_path data nested filename data' nested' :
  organize_file world data_path (data, nested) filename =
  Ok (data', nested') ->
  exists key component entry,
    parse_key world filename = Ok key /\
    get_component filename = Ok component /\
    entry_of_file world data_path filename component entry /\
    data' =
    alter (insert component entry) key
      (setdefault key {["key" := EKey key]} data).
Proof.
  unfold organize_file. intros Hstep.
  destruct (get_component filename) as [component|] eqn:Hc; [|discriminate].
  cbn [mbind Py.result_bind Py.bind] in Hstep.
  destruct (parse_key world filename) as [[[level scene] variant]|];
    [|discriminate].
  cbn [mbind Py.result_bind Py.bind] in Hstep.
  exists (level, scene, variant), component.
  unfold entry_of_file.
  destruct (get_component_cases _ _ Hc) as [-> | [-> | [-> | ->]]];
    cbn [String.eqb Ascii.eqb Bool.eqb] in Hstep.
  4:{ destruct (pickle_load world _) as [meta|] eqn:Hload; [|discriminate].
      cbn [mbind Py.result_bind Py.bind] in Hstep.
      injection Hstep as <- _. exists (EMeta meta).
      repeat split; try reflexivity. right. right. right. eauto. }
  all: cbn [mbind Py.result_bind Py.bind] in Hstep;
    injection Hstep as <- _; eexists;
    repeat split; try reflexivity; auto.
Qed.

Lemma organize_file_records data_path done data nested filename
    data' nested' :
  organize_file world data_path (data, nested) filename =
  Ok (data', nested') ->
  records_from world data_path done data ->
  records_from world data_path (done ++ [filename]) data'.
Proof.
  intros Hstep Hrec.
  destruct (organize_file_entry _ _ _ _ _ _ Hstep)
    as (key & component & entry & Hkey & Hc & Hentry & ->).
  assert (component <> "key") as Hnk
    by (destruct (get_component_cases _ _ Hc) as [-> | [-> | [-> | ->]]];
        discriminate).
  intros key' sample'. rewrite upsert_lookup.
  destruct (decide (key = key')) as [<-|Hne].
  - intros [= <-]. split.
    + rewrite lookup_insert_ne by exact Hnk.
      destruct (data !! key) as [sample|] eqn:Hs; cbn.
      * apply (Hrec key sample Hs).
      * apply lookup_singleton_eq.
    + intros c e. rewrite lookup_insert.
      destruct (decide (component = c)) as [<-|Hcc].
      * intros [= <-] _. exists filename. split; [|auto].
        apply in_or_app. right. left. reflexivity.
      * intros He Hck.
        destruct (data !! key) as [sample|] eqn:Hs; cbn in He.
        -- destruct (Hrec key sample Hs) as [_ Hold].
           destruct (Hold c e He Hck) as (f & Hin & Hrest).
           exists f. split; [apply in_or_app; left; exact Hin | exact Hrest].
        -- rewrite lookup_singleton_ne in He by congruence. discriminate.
  - intros Hs. destruct (Hrec key' sample' Hs) as [Hk Hold].
    split; [exact Hk|]. intros c e He Hck.
    destruct (Hold c e He Hck) as (f & Hin & Hrest).
    exists f. split; [apply in_or_app; left; exact Hin | exact Hrest].
Qed.

Lemma organize_files_records data_path filenames done data nested
    data' nested' :
  Py.foldM (organize_file world data_path) (data, nested) filenames =
  Ok (data', nested') ->
  records_from world data_path done data ->
  records_from world data_path (done ++ filenames) data'.
Proof.
  revert done data nested.
  induction filenames as [|filename filenames IH]; intros done data nested.
  - cbn. intros [= <- <-]. rewrite app_nil_r. auto.
  - cbn [Py.foldM]. intros Hfold Hrec.
    destruct (organize_file world data_path (data, nested) filename)
      as [[data1 nested1]|] eqn:Hstep; [|discriminate].
    cbn [mbind Py.result_bind Py.bind] in Hfold.
    change (filename :: filenames) with ([filename] ++ filenames)%list.
    rewrite app_assoc. eapply IH; [exact Hfold|].
    eapply organize_file_records; eauto.
Qed.

(** X16. What a scan stores.  Every record holds its own key under
    ["key"]; every other entry of a record comes from a file of the
    directory whose name parses to the key of the record and names the
    component: a loader of that file, normalised by 255 for ["color"], by
    1000 for ["depth"] and not at all for ["label"], or the unpickled
    contents of the file for ["meta"]. *)
Theorem scanned_records_come_from_files (data_path : string)
    (data : Flat) (nested : Nested) :
  organize_data world data_path = Ok (data, nested) ->
  exists filenames,
    listdir world data_path = Ok filenames /\
    records_from world data_path filenames data.
Proof.
  unfold organize_data.
  destruct (listdir world data_path) as [filenames|]; [|discriminate].
  cbn [mbind Py.result_bind Py.bind]. intros Hfold.
  exists filenames. split; [reflexivity|].
  apply (organize_files_records data_path filenames [] ∅ ∅ data nested Hfold).
  intros key sample. rewrite lookup_empty. discriminate.
Qed.

(** [__init__] lists the keys of the flat mapping, each once. *)
Lemma init_keylist data_path models_path spd (pd : PoseData Pickled Cell) :
  __init__ world data_path models_path spd = Ok pd ->
  keylist pd = (map_to_list (data pd)).*1.
Proof.
  unfold __init__. intros Hinit.
  match type of Hinit with
  | (?c ≫= _) = _ => destruct c as [[[objs d] n]|]; [|discriminate]
  end.
  cbn [mbind Py.result_bind Py.bind] in Hinit.
  injection Hinit as <-. reflexivity.
Qed.

(** X17. [len] and the call operator enumerate the flat mapping.  The
    length is the number of records.  An index from [-len] to [len - 1]
    returns a record of the mapping, a negative index [idx] the same one as
    [idx + len]; any other index raises [IndexError]; [KeyError] is never
    raised; and every record is returned for some index. *)
Theorem call_enumerates_records data_path models_path spd
    (pd : PoseData Pickled Cell) :
  __init__ world data_path models_path spd = Ok pd ->
  let n := Z.of_nat (__len__ pd) in
  __len__ pd = size (data pd) /\
  (forall idx, (- n <= idx < n)%Z ->
     exists key sample,
       __call__ pd idx = Ok sample /\ data pd !! key = Some sample /\
       __call__ pd (idx mod n) = Ok sample) /\
  (forall idx, ~ (- n <= idx < n)%Z -> __call__ pd idx = Raise IndexError) /\
  (forall key sample,
     data pd !! key = Some sample ->
     exists idx, (0 <= idx < n)%Z /\ __call__ pd idx = Ok sample).
Proof.
  intros Hinit n. pose proof (init_keylist _ _ _ _ Hinit) as Hkeys.
  assert (__len__ pd = size (data pd)) as Hlen
    by (unfold __len__; rewrite Hkeys, length_fmap;
        apply length_map_to_list).
  assert (forall i key, keylist pd !! i = Some key ->
            exists sample, data pd !! key = Some sample) as Hin.
  { intros i key Hi. rewrite Hkeys, list_lookup_fmap in Hi.
    destruct (map_to_list (data pd) !! i) as [[k sample]|] eqn:Hk;
      [|discriminate].
    injection Hi as <-. exists sample.
    apply elem_of_map_to_list. eapply list_elem_of_lookup_2. exact Hk. }
  assert (forall idx, (- n <= idx < n)%Z ->
            exists key sample,
              __call__ pd idx = Ok sample /\ data pd !! key = Some sample /\
              keylist pd !! Z.to_nat (idx mod n) = Some key) as Hcall.
  { intros idx Hrange.
    destruct (proj1 (list_getitem_spec (keylist pd) idx) Hrange)
      as (key & Hget & Hnth).
    destruct (Hin _ _ Hnth) as [sample Hs].
    exists key, sample. unfold __call__. rewrite Hget.
    cbn [mbind Py.result_bind Py.bind]. rewrite Hs. auto. }
  split; [exact Hlen|]. split; [|split].
  - intros idx Hrange.
    destruct (Hcall idx Hrange) as (key & sample & Hc & Hs & Hnth).
    exists key, sample. split; [exact Hc|]. split; [exact Hs|].
    assert (- n <= idx mod n < n)%Z as Hrange'
      by (pose proof (Z.mod_pos_bound idx n ltac:(lia)); lia).
    destruct (Hcall (idx mod n)%Z Hrange')
      as (key' & sample' & Hc' & Hs' & Hnth').
    rewrite Z.mod_mod in Hnth' by lia. unfold n in Hnth, Hnth'.
    rewrite Hnth in Hnth'. injection Hnth' as <-.
    rewrite Hs in Hs'. injection Hs' as <-. exact Hc'.
  - intros idx Hout. unfold __call__.
    rewrite (proj2 (list_getitem_spec (keylist pd) idx) Hout). reflexivity.
  - intros key sample Hs.
    assert (key ∈ keylist pd) as Hel.
    { rewrite Hkeys. apply list_elem_of_fmap. exists (key, sample).
      split; [reflexivity|]. apply elem_of_map_to_list. exact Hs. }
    apply list_elem_of_lookup_1 in Hel as [i Hi].
    pose proof (lookup_lt_Some _ _ _ Hi) as Hlt.
    exists (Z.of_nat i).
    assert (0 <= Z.of_nat i < n)%Z as Hrange by (unfold n, __len__; lia).
    split; [exact Hrange|].
    destruct (Hcall (Z.of_nat i) ltac:(lia))
      as (key' & sample' & Hc & Hs' & Hnth).
    rewrite Z.mod_small, Nat2Z.id in Hnth by lia.
    rewrite Hi in Hnth. injection Hnth as <-.
    rewrite Hs in Hs'. injection Hs' as <-. exact Hc.
Qed.

(** X18. How deep a tuple may go.  The empty tuple returns the whole
    nested mapping, and a tuple of four or more indices always raises
    [KeyError]: below the third level there are only records, whose keys
    are strings. *)
Theorem getitem_tuple_depth (pd : PoseData Pickled Cell) :
  __getitem__ pd (Tuple []) = Ok (VNested (nested_data pd)) /\
  forall indices,
    4 <= length indices -> __getitem__ pd (Tuple indices) = Raise KeyError.
Proof.
  split; [reflexivity|].
  intros [|a [|b [|c [|d rest]]]] Hlen; cbn in Hlen; try lia.
  unfold __getitem__. cbn [Py.foldM subscript].
  destruct (nested_data pd !! a) as [scenes|]; [|reflexivity].
  cbn [mbind Py.result_bind Py.bind subscript].
  destruct (scenes !! b) as [variants|]; [|reflexivity].
  cbn [mbind Py.result_bind Py.bind subscript].
  destruct (variants !! c) as [sample|]; reflexivity.
Qed.


(** One step of the second loop of [txt_split]. *)
Lemma txt_split_step_cases (pd : PoseData Pickled Cell) (st : Flat * Nested)
    (t : list Z) :
  (exists level scene variant sample,
     t = [level; scene; variant] /\
     data pd !! (level, scene, variant) = Some sample /\
     txt_split_step pd st t =
     Ok (<[(level, scene, variant) := sample]> st.1,
         ensure_leaf level scene variant sample st.2)) \/
  ((forall level scene variant,
      t = [level; scene; variant] ->
      data pd !! (level, scene, variant) = None) /\
   (txt_split_step pd st t = Raise KeyError \/
    txt_split_step pd st t = Raise ValueError)).
Proof.
  destruct st as [sd sn]. unfold txt_split_step.
  destruct t as [|l [|s [|v [|x t]]]];
    try (right; split; [intros ? ? ? [=] | right; reflexivity]).
  destruct (data pd !! (l, s, v)) as [sample|] eqn:Hs.
  - left. exists l, s, v, sample. auto.
  - right. split; [|left; reflexivity].
    intros ? ? ? [= <- <- <-]. exact Hs.
Qed.

Lemma txt_split_loop (pd : PoseData Pickled Cell)
    (tuples done : list (list Z)) (sd : Flat) (sn : Nested) :
  Forall (fun t => exists level scene variant,
            t = [level; scene; variant] /\
            is_Some (data pd !! (level, scene, variant))) tuples ->
  (forall level scene variant,
     sd !! (level, scene, variant) =
     if bool_decide ([level; scene; variant] ∈ done)
     then data pd !! (level, scene, variant) else None) ->
  agree sd sn ->
  exists sd' sn',
    Py.foldM (txt_split_step pd) (sd, sn) tuples = Ok (sd', sn') /\
    (forall level scene variant,
       sd' !! (level, scene, variant) =
       if bool_decide ([level; scene; variant] ∈ (done ++ tuples)%list)
       then data pd !! (level, scene, variant) else None) /\
    agree sd' sn'.
Proof.
  intros Hgood. revert done sd sn.
  induction Hgood as [|t tuples (l & s & v & -> & [sample Hs]) _ IH];
    intros done sd sn Hsd Hagree.
  - exists sd, sn. rewrite app_nil_r. auto.
  - cbn [Py.foldM].
    assert (txt_split_step pd (sd, sn) [l; s; v] =
            Ok (<[(l, s, v) := sample]> sd, ensure_leaf l s v sample sn))
      as -> by (unfold txt_split_step; rewrite Hs; reflexivity).
    cbn [mbind Py.result_bind Py.bind].
    destruct (IH (done ++ [[l; s; v]])%list
                (<[(l, s, v) := sample]> sd)
                (ensure_leaf l s v sample sn))
      as (sd' & sn' & Hfold & Hsd' & Hagree').
    + intros l' s' v'. rewrite lookup_insert.
      destruct (decide ((l, s, v) = (l', s', v'))) as [[= <- <- <-]|Hne].
      * rewrite bool_decide_true by (apply elem_of_app; right; constructor).
        symmetry. exact Hs.
      * rewrite Hsd.
        rewrite (bool_decide_ext ([l'; s'; v'] ∈ done)
                   ([l'; s'; v'] ∈ (done ++ [[l; s; v]])%list));
          [reflexivity|].
        rewrite elem_of_app.
        split; [auto|]. intros [Hin|Hin]; [exact Hin|].
        apply list_elem_of_singleton in Hin. congruence.
    + intros l' s' v'. rewrite leaf_ensure_leaf, lookup_insert.
      destruct (decide ((l, s, v) = (l', s', v'))); [|apply Hagree].
      rewrite Hagree, Hsd. case_bool_decide; [rewrite Hs|]; reflexivity.
    + exists sd', sn'. split; [exact Hfold|]. split; [|exact Hagree'].
      intros l' s' v'. rewrite Hsd', <- app_assoc. reflexivity.
Qed.

Lemma txt_split_loop_fails (pd : PoseData Pickled Cell)
    (tuples : list (list Z)) (st : Flat * Nested) :
  Exists (fun t => forall level scene variant,
            t = [level; scene; variant] ->
            data pd !! (level, scene, variant) = None) tuples ->
  Py.foldM (txt_split_step pd) st tuples = Raise KeyError \/
  Py.foldM (txt_split_step pd) st tuples = Raise ValueError.
Proof.
  revert st. induction tuples as [|t tuples IH]; intros st Hbad;
    [inversion Hbad|].
  cbn [Py.foldM].
  destruct (txt_split_step_cases pd st t)
    as [(l & s & v & sample & -> & Hs & ->) | [_ [-> | ->]]];
    [|left; reflexivity | right; reflexivity].
  cbn [mbind Py.result_bind Py.bind]. apply IH.
  inversion Hbad as [? ? Hhead|? ? Htail]; subst; [|exact Htail].
  rewrite (Hhead l s v eq_refl) in Hs. discriminate.
Qed.



(** The dictionary comprehension of line 66 over [zip(headers, row)]. *)
Lemma zip_dict_lookup (headers : list string) (row : list Cell)
    (d : gmap string Cell) :
  NoDup headers ->
  let objects_dict :=
    fold_left (fun d '(header, value) => <[header := value]> d)
      (combine headers row) d in
  (forall i header,
     headers !! i = Some header ->
     objects_dict !! header =
     match row !! i with Some value => Some value | None => d !! header end)
  /\
  (forall header, header ∉ headers -> objects_dict !! header = d !! header).
Proof.
  cbn zeta. intros Hnd. revert row d.
  induction Hnd as [|h headers Hh Hnd IH]; intros row d.
  - split; [intros i header [=] | reflexivity].
  - destruct row as [|v row]; cbn [combine fold_left].
    + split; [|reflexivity]. intros i header _. rewrite lookup_nil.
      reflexivity.
    + destruct (IH row (<[h := v]> d)) as [IHin IHout]. split.
      * intros [|i] header Hi; cbn in Hi.
        -- injection Hi as <-. rewrite (IHout h Hh). cbn.
           apply lookup_insert_eq.
        -- rewrite (IHin i header Hi). cbn [lookup list_lookup].
           destruct (row !! i); [reflexivity|].
           apply lookup_insert_ne. intros <-. apply Hh.
           eapply list_elem_of_lookup_2. exact Hi.
      * intros header Hout. apply not_elem_of_cons in Hout as [Hne Hout].
        rewrite (IHout header Hout). apply lookup_insert_ne. congruence.
Qed.

Lemma INFO_HEADERS_NoDup : NoDup INFO_HEADERS.
Proof. apply (bool_decide_unpack _). vm_compute. exact I. Qed.


End Index.
End PoseDataProperties.

(** ** The module lists of [XNetSwinTransformer] and the loops of [forward] *)

Module XNetForwardFacts.
Import XNet XNetFacts PyProperties.

Lemma index_nth {T : Type} (l : list T) (i : nat) (v d : T) :
  index l i = Ok v -> nth i l d = v.
Proof.
  unfold index. destruct (nth_error l i) as [w|] eqn:E; [|discriminate].
  intros [= <-]. apply nth_error_nth. exact E.
Qed.

Section Layout.
Variable cfg : Config.

Lemma encoder_stage_layout enc0 id0 i enc1 id1 :
  encoder_stage cfg (enc0, id0) i = Ok (enc1, id1) ->
  exists stage, enc1 = enc0 ++ encoder_stage_modules cfg i stage.
Proof.
  unfold encoder_stage, encoder_stage_modules. intros Hstage.
  destruct (index (depths cfg) i) as [depth|]; [|discriminate].
  cbn [mbind Py.result_bind Py.bind] in Hstage.
  destruct (Py.foldM _ _ _) as [[stage id]|]; [|discriminate].
  cbn [mbind Py.result_bind Py.bind] in Hstage.
  exists stage.
  destruct ((i + 1 <? length (depths cfg)) || final_downsample cfg);
    injection Hstage as <- _; rewrite <- ?app_assoc; reflexivity.
Qed.

Lemma decoder_stage_layout dec0 id0 i dec1 id1 :
  decoder_stage cfg (dec0, id0) i = Ok (dec1, id1) ->
  exists stage, dec1 = dec0 ++ decoder_stage_modules cfg i stage.
Proof.
  unfold decoder_stage, decoder_stage_modules. intros Hstage.
  set (up := if (i + 1 <? length (depths cfg)) || final_downsample cfg
             then [PatchExpandingV2 (2 * (embed_dim cfg * 2 ^ i))]
             else []) in *.
  assert ((if (i + 1 <? length (depths cfg)) || final_downsample cfg
           then dec0 ++ [PatchExpandingV2 (2 * (embed_dim cfg * 2 ^ i))]
           else dec0) = dec0 ++ up) as Hup
    by (unfold up; destruct (_ || _); [reflexivity | rewrite app_nil_r;
        reflexivity]).
  rewrite Hup in Hstage. clear Hup.
  destruct (cross_attention_residual cfg).
  - destruct (index (num_heads cfg) i) as [heads|] eqn:Hheads;
      [|discriminate].
    cbn [mbind Py.result_bind Py.bind] in Hstage.
    destruct (negb (length (window_size cfg) =? 2)); [discriminate|].
    cbn [mbind Py.result_bind Py.bind] in Hstage.
    destruct (index (depths cfg) i) as [depth|]; [|discriminate].
    cbn [mbind Py.result_bind Py.bind] in Hstage.
    destruct (Py.foldM _ _ _) as [[stage id]|]; [|discriminate].
    cbn [mbind Py.result_bind Py.bind] in Hstage.
    injection Hstage as <- _. exists stage.
    rewrite (index_nth _ _ _ 0 Hheads), <- !app_assoc. reflexivity.
  - cbn [mbind Py.result_bind Py.bind] in Hstage.
    destruct (index (depths cfg) i) as [depth|]; [|discriminate].
    cbn [mbind Py.result_bind Py.bind] in Hstage.
    destruct (Py.foldM _ _ _) as [[stage id]|]; [|discriminate].
    cbn [mbind Py.result_bind Py.bind] in Hstage.
    injection Hstage as <- _. exists stage.
    rewrite <- !app_assoc. reflexivity.
Qed.

(** A loop that appends one group of modules per stage builds the
    concatenation of the groups. *)
Lemma stages_loop_layout
    (body : list layer * nat -> nat -> result (list layer * nat))
    (group : nat -> list layer -> list layer) :
  (forall modules id i modules' id',
     body (modules, id) i = Ok (modules', id') ->
     exists stage, modules' = modules ++ group i stage) ->
  forall idxs modules id modules' id',
    Py.foldM body (modules, id) idxs = Ok (modules', id') ->
    exists stages,
      length stages = length idxs /\
      modules' = modules ++ concat (zip_with group idxs stages).
Proof.
  intros Hbody. induction idxs as [|i idxs IH];
    intros modules id modules' id' Hfold.
  - cbn in Hfold. injection Hfold as <- _. exists [].
    rewrite app_nil_r. auto.
  - cbn [Py.foldM] in Hfold.
    destruct (body (modules, id) i) as [[modules1 id1]|] eqn:Hstep;
      [|discriminate].
    cbn [mbind Py.result_bind Py.bind] in Hfold.
    destruct (Hbody _ _ _ _ _ Hstep) as [stage ->].
    destruct (IH _ _ _ _ Hfold) as (stages & Hlen & ->).
    exists (stage :: stages). split; [cbn; lia|].
    cbn [zip_with concat]. rewrite <- app_assoc. reflexivity.
Qed.

(** The module lists that [__init__] builds, stage by stage. *)
Lemma init_layout (net : XNetSwinTransformer) :
  __init__ cfg = Ok net ->
  let n := length (depths cfg) in
  exists encoder_stages decoder_stages,
    length encoder_stages = n /\ length decoder_stages = n /\
    encoder net =
      concat (zip_with (encoder_stage_modules cfg) (seq 0 n) encoder_stages)
    /\
    decoder net =
      concat (zip_with (decoder_stage_modules cfg) (rev (seq 0 n))
                decoder_stages).
Proof.
  intros Hinit. cbv zeta. unfold __init__ in Hinit.
  destruct (Py.foldM (encoder_stage cfg) _ _) as [[enc id]|] eqn:Henc;
    [|discriminate].
  cbn [mbind Py.result_bind Py.bind] in Hinit.
  destruct (build_middle cfg) as [mid|]; [|discriminate].
  cbn [mbind Py.result_bind Py.bind] in Hinit.
  destruct (Py.foldM (decoder_stage cfg) _ _) as [[dec id']|] eqn:Hdec;
    [|discriminate].
  cbn [mbind Py.result_bind Py.bind] in Hinit.
  injection Hinit as <-. cbn [encoder decoder].
  destruct (stages_loop_layout (encoder_stage cfg) (encoder_stage_modules cfg)
              encoder_stage_layout _ _ _ _ _ Henc) as (es & Hes & ->).
  destruct (stages_loop_layout (decoder_stage cfg) (decoder_stage_modules cfg)
              decoder_stage_layout _ _ _ _ _ Hdec) as (ds & Hds & ->).
  exists es, ds. rewrite length_seq in Hes.
  rewrite length_rev, length_seq in Hds. auto.
Qed.


Lemma foldM_ok_each {T S : Type} (body : S -> T -> result S) (l : list T)
    (st st' : S) :
  Py.foldM body st l = Ok st' ->
  forall x, In x l -> exists s s', body s x = Ok s'.
Proof.
  revert st. induction l as [|y l IH]; intros st Hfold x Hin;
    [destruct Hin|].
  cbn [Py.foldM] in Hfold.
  destruct (body st y) as [st1|] eqn:Hstep; [|discriminate].
  cbn [mbind Py.result_bind Py.bind] in Hfold.
  destruct Hin as [<-|Hin]; [eauto|]. exact (IH st1 Hfold x Hin).
Qed.

Lemma index_lt {T : Type} (l : list T) (i : nat) (v : T) :
  index l i = Ok v -> i < length l.
Proof.
  unfold index. destruct (nth_error l i) eqn:E; [|discriminate].
  intros _. apply nth_error_Some. congruence.
Qed.

(** X21. What [__init__] needs.  When the construction succeeds, every
    stage that holds a block, and with cross attention every stage, has its
    entry in [num_heads]; with cross attention and at least one stage the
    window size has two entries; and when a middle block is asked for,
    [num_heads] is not empty and there is a stage, or a final downsample. *)
Theorem init_requirements (net : XNetSwinTransformer) :
  __init__ cfg = Ok net ->
  (forall i,
     i < length (depths cfg) ->
     0 < nth i (depths cfg) 0 \/ cross_attention_residual cfg = true ->
     i < length (num_heads cfg)) /\
  (cross_attention_residual cfg = true -> depths cfg <> [] ->
   length (window_size cfg) = 2) /\
  ((1 <= middle_stages cfg)%Z ->
   num_heads cfg <> [] /\
   (final_downsample cfg = false -> depths cfg <> [])).
Proof.
  unfold __init__. intros Hinit.
  destruct (Py.foldM (encoder_stage cfg) _ _) as [[enc id]|] eqn:Henc;
    [|discriminate].
  cbn [mbind Py.result_bind Py.bind] in Hinit.
  destruct (build_middle cfg) as [mid|] eqn:Hmid; [|discriminate].
  cbn [mbind Py.result_bind Py.bind] in Hinit.
  destruct (Py.foldM (decoder_stage cfg) _ _) as [[dec id']|] eqn:Hdec;
    [|discriminate].
  clear Hinit.
  assert (forall i, i < length (depths cfg) ->
            exists s s', decoder_stage cfg s i = Ok s') as Hdecs.
  { intros i Hi. apply (foldM_ok_each _ _ _ _ Hdec).
    apply in_rev. rewrite rev_involutive. apply in_seq. lia. }
  assert (forall i, i < length (depths cfg) ->
            exists s s', encoder_stage cfg s i = Ok s') as Hencs.
  { intros i Hi. apply (foldM_ok_each _ _ _ _ Henc). apply in_seq. lia. }
  split; [|split].
  - intros i Hi [Hdepth|Hca].
    + destruct (Hencs i Hi) as ([enc0 id0] & s' & Hstage).
      unfold encoder_stage in Hstage.
      destruct (index (depths cfg) i) as [depth|] eqn:Hd; [|discriminate].
      cbn [mbind Py.result_bind Py.bind] in Hstage.
      rewrite (index_nth _ _ _ 0 Hd) in Hdepth.
      destruct (Py.foldM _ _ (seq 0 depth)) as [st|] eqn:Hlayers;
        [|discriminate].
      destruct (foldM_ok_each _ _ _ _ Hlayers 0) as ([stage id1] & s1 & Hl).
      { apply in_seq. lia. }
      unfold encoder_layer in Hl.
      destruct (index (num_heads cfg) i) as [heads|] eqn:Hh; [|discriminate].
      exact (index_lt _ _ _ Hh).
    + destruct (Hdecs i Hi) as ([dec0 id0] & s' & Hstage).
      unfold decoder_stage in Hstage. rewrite Hca in Hstage.
      destruct (index (num_heads cfg) i) as [heads|] eqn:Hh;
        [exact (index_lt _ _ _ Hh) | discriminate].
  - intros Hca Hne.
    destruct (Hdecs 0) as ([dec0 id0] & s' & Hstage).
    { destruct (depths cfg); [contradiction | cbn; lia]. }
    unfold decoder_stage in Hstage. rewrite Hca in Hstage.
    destruct (index (num_heads cfg) 0) as [heads|]; [|discriminate].
    cbn [mbind Py.result_bind Py.bind] in Hstage.
    destruct (Nat.eqb_spec (length (window_size cfg)) 2) as [Hw|_];
      [exact Hw | discriminate].
  - intros Hms. unfold build_middle in Hmid.
    destruct (Z.leb_spec (Z.min 1 (middle_stages cfg)) 0) as [Hle|_]; [lia|].
    unfold index_last in Hmid.
    destruct (rev (num_heads cfg)) as [|heads hs] eqn:Hrev; [discriminate|].
    cbn [mbind Py.result_bind Py.bind] in Hmid. split.
    + intros Hnil. rewrite Hnil in Hrev. discriminate.
    + intros Hfd Hnil. rewrite Hfd, Hnil in Hmid. discriminate.
Qed.

End Layout.

Section Forward.
Context {X : Type}.
Variable call : layer -> X -> result X.
Variable call2 : layer -> X -> X -> result X.
Variable cat : X -> X -> result X.
Variable through_middle : list layer -> X -> result X.
Variable cfg : Config.
Variable self : XNetSwinTransformer.

#[local] Abbreviation n := (length (depths cfg)).
#[local] Abbreviation fd := (final_downsample cfg).
#[local] Abbreviation ca := (cross_attention_residual cfg).
#[local] Abbreviation G := (encoder_stage_modules cfg).
#[local] Abbreviation D := (decoder_stage_modules cfg).

Lemma length_encoder_groups (k a : nat) (stages : list (list layer)) :
  length stages = k -> a + k = n -> 0 < k ->
  Z.of_nat (length (concat (zip_with G (seq a k) stages))) =
  (2 * Z.of_nat k - (if fd then 0 else 1))%Z.
Proof.
  revert a stages. induction k as [|k IH]; intros a stages Hlen Hn Hk; [lia|].
  destruct stages as [|stage stages]; [discriminate|].
  cbn [seq zip_with concat]. rewrite length_app.
  unfold encoder_stage_modules at 1.
  destruct k as [|k].
  - destruct stages; [|discriminate]. cbn [seq zip_with concat length].
    replace (a + 1 <? n) with false by (symmetry; apply Nat.ltb_ge; lia).
    cbn [orb]. destruct fd; cbn [length]; lia.
  - replace (a + 1 <? n) with true by (symmetry; apply Nat.ltb_lt; lia).
    cbn [orb length].
    rewrite Nat2Z.inj_add, (IH (S a) stages) by (cbn in *; lia).
    destruct fd; lia.
Qed.

Lemma forward_encoder_step_eq (x : X) (residuals : list X) (i : Z) :
  forward_encoder_step call cfg self (x, residuals) i =
  (stage ← Py.list_getitem (encoder self) i;
   x ← call stage x;
   if (i + 1 <? Z.of_nat (length (encoder self)) - 1)%Z || fd
   then
     downsample ← Py.list_getitem (encoder self) (i + 1)%Z;
     x' ← call downsample x;
     Ok (x', residuals ++ [x])
   else Ok (x, residuals ++ [x])).
Proof. reflexivity. Qed.

(** The encoder loop of [forward] from stage [a] on. *)
Lemma forward_encoder_loop :
  Z.of_nat (length (encoder self)) =
    (2 * Z.of_nat n - (if fd then 0 else 1))%Z ->
  forall k a stages pre x residuals,
    a + k = n -> length stages = k ->
    encoder self = pre ++ concat (zip_with G (seq a k) stages) ->
    length pre = 2 * a ->
    Py.foldM (forward_encoder_step call cfg self) (x, residuals)
      (map (fun j => (0 + Z.of_nat j * 2)%Z) (seq a k)) =
    encoder_in_order call (concat (zip_with G (seq a k) stages)) x residuals.
Proof.
  intros Hlen. induction k as [|k IH];
    intros a stages pre x residuals Hn Hstages Henc Hpre.
  { destruct stages; [reflexivity | discriminate]. }
  destruct stages as [|stage stages]; [discriminate|].
  cbn [seq map zip_with concat Py.foldM] in *.
  unfold encoder_stage_modules at 1 in Henc.
  unfold encoder_stage_modules at 1.
  rewrite forward_encoder_step_eq.
  assert (((0 + Z.of_nat a * 2 + 1 <? Z.of_nat (length (encoder self)) - 1)%Z
           || fd) = ((a + 1 <? n) || fd)) as Hcond.
  { rewrite Hlen. destruct fd; [rewrite !orb_true_r; reflexivity|].
    rewrite !orb_false_r.
    destruct (Z.ltb_spec (0 + Z.of_nat a * 2 + 1) (2 * Z.of_nat n - 1 - 1));
      destruct (Nat.ltb_spec (a + 1) n); try reflexivity; lia. }
  rewrite Hcond.
  set (S_a := Sequential stage) in *.
  destruct ((a + 1 <? n) || fd) eqn:Hdown.
  - cbn [app] in Henc |- *.
    set (P_a := PatchMergingV2 (embed_dim cfg * 2 ^ a)) in *.
    set (rest := concat (zip_with G (seq (S a) k) stages)) in *.
    rewrite Henc at 1.
    rewrite (list_getitem_middle pre S_a (P_a :: rest)) by lia.
    cbn [mbind Py.result_bind Py.bind encoder_in_order].
    unfold S_a at 2. fold S_a.
    destruct (call S_a x) as [x1|e]; [|reflexivity].
    cbn [mbind Py.result_bind Py.bind].
    replace (encoder self) with ((pre ++ [S_a]) ++ P_a :: rest)
      by (rewrite Henc, <- app_assoc; reflexivity).
    rewrite (list_getitem_middle (pre ++ [S_a]) P_a rest)
      by (rewrite length_app; cbn [length]; lia).
    cbn [mbind Py.result_bind Py.bind encoder_in_order].
    unfold P_a at 2. fold P_a.
    destruct (call P_a x1) as [x2|e]; [|reflexivity].
    cbn [mbind Py.result_bind Py.bind].
    apply (IH (S a) stages (pre ++ [S_a; P_a])).
    + lia.
    + cbn in Hstages. lia.
    + rewrite Henc, <- app_assoc. reflexivity.
    + rewrite length_app. cbn [length]. lia.
  - assert (k = 0) as ->.
    { apply orb_false_iff in Hdown as [Hlt _].
      apply Nat.ltb_ge in Hlt. lia. }
    destruct stages; [|discriminate].
    cbn [seq map zip_with concat app Py.foldM] in Henc |- *.
    rewrite Henc at 1.
    rewrite (list_getitem_middle pre S_a []) by lia.
    cbn [mbind Py.result_bind Py.bind encoder_in_order].
    unfold S_a at 2. fold S_a.
    destruct (call S_a x) as [x1|e]; reflexivity.
Qed.


(** Every encoder stage leaves one residual behind. *)
Lemma encoder_in_order_residuals (k a : nat) (stages : list (list layer))
    (x x' : X) (residuals residuals' : list X) :
  length stages = k ->
  encoder_in_order call (concat (zip_with G (seq a k) stages)) x residuals =
  Ok (x', residuals') ->
  length residuals' = length residuals + k.
Proof.
  revert a stages x residuals. induction k as [|k IH];
    intros a stages x residuals Hstages Hrun.
  { destruct stages; [|discriminate]. cbn in Hrun.
    injection Hrun as _ <-. lia. }
  destruct stages as [|stage stages]; [discriminate|].
  cbn [seq zip_with concat] in Hrun.
  unfold encoder_stage_modules at 1 in Hrun.
  cbn [app encoder_in_order] in Hrun.
  destruct (call (Sequential stage) x) as [x1|]; [|discriminate].
  cbn [mbind Py.result_bind Py.bind] in Hrun.
  destruct ((a + 1 <? n) || fd).
  - cbn [app encoder_in_order] in Hrun.
    destruct (call (PatchMergingV2 _) x1) as [x2|]; [|discriminate].
    cbn [mbind Py.result_bind Py.bind] in Hrun.
    apply IH in Hrun; [|cbn in Hstages; lia].
    rewrite length_app in Hrun. cbn [length] in Hrun. lia.
  - cbn [app] in Hrun. apply IH in Hrun; [|cbn in Hstages; lia].
    rewrite length_app in Hrun. cbn [length] in Hrun. lia.
Qed.

#[local] Abbreviation step := (2 + Py.int_of_bool ca)%Z.
#[local] Abbreviation start := (0 - Py.int_of_bool (negb fd))%Z.

Lemma length_decoder_group (t : nat) (stage : list layer) :
  t < n ->
  Z.of_nat (length (D (n - 1 - t) stage)) =
  (step - (if fd then 0 else if (t =? 0)%nat then 1 else 0))%Z.
Proof.
  intros Ht. unfold decoder_stage_modules. rewrite !length_app.
  destruct (Nat.eqb_spec t 0) as [->|Hpos].
  - replace (n - 1 - 0 + 1 <? n) with false
      by (symmetry; apply Nat.ltb_ge; lia).
    cbn [orb]. destruct fd, ca; cbn; lia.
  - replace (n - 1 - t + 1 <? n) with true
      by (symmetry; apply Nat.ltb_lt; lia).
    cbn [orb]. destruct fd, ca; cbn; lia.
Qed.

Lemma length_decoder_groups (k t0 : nat) (stages : list (list layer)) :
  length stages = k -> t0 + k <= n ->
  Z.of_nat
    (length (concat (zip_with D (map (fun t => n - 1 - t) (seq t0 k))
                       stages))) =
  (Z.of_nat k * step -
   (if fd then 0 else if ((t0 =? 0) && (0 <? k))%nat then 1 else 0))%Z.
Proof.
  revert t0 stages. induction k as [|k IH]; intros t0 stages Hlen Hn.
  { destruct stages; [|discriminate]. cbn [seq map zip_with concat length].
    rewrite andb_false_r. destruct fd; lia. }
  destruct stages as [|stage stages]; [discriminate|].
  cbn [seq map zip_with concat]. rewrite length_app, Nat2Z.inj_add.
  rewrite (length_decoder_group t0 stage) by lia.
  rewrite (IH (S t0) stages) by (cbn in *; lia).
  cbn [Nat.eqb andb]. replace (0 <? S k) with true by reflexivity.
  rewrite andb_true_r. destruct fd; [lia|].
  destruct (t0 =? 0); lia.
Qed.

Lemma forward_decoder_step_eq (residuals : list X) (x : X) (i_residual i : Z) :
  forward_decoder_step call call2 cat cfg self residuals x (i_residual, i) =
  (x ←
     (if (0 <? i)%Z || fd
      then upsample ← Py.list_getitem (decoder self) i; call upsample x
      else Ok x);
   residual ← Py.list_getitem residuals i_residual;
   residual ←
     (if ca
      then
        attention ← Py.list_getitem (decoder self) (i + 1)%Z;
        call2 attention x residual
      else Ok residual);
   x ← cat x residual;
   stage ← Py.list_getitem (decoder self) (i + (1 + Py.int_of_bool ca))%Z;
   call stage x).
Proof. reflexivity. Qed.

(** The residual that iteration [t] of the decoder loop reads is the last
    of the first [n - t]. *)
Lemma residual_of_iteration (residuals : list X) (t : nat) :
  length residuals = n -> t < n ->
  exists residual,
    Py.list_getitem residuals (Z.of_nat n - 1 - Z.of_nat t) = Ok residual /\
    firstn (n - t) residuals = firstn (n - 1 - t) residuals ++ [residual].
Proof.
  intros Hlen Ht.
  destruct (lookup_lt_is_Some_2 residuals (n - 1 - t)) as [r Hr]; [lia|].
  exists r. split.
  - rewrite <- (firstn_skipn (n - 1 - t) residuals).
    rewrite (drop_S residuals r (n - 1 - t) Hr).
    apply list_getitem_middle. rewrite length_take. lia.
  - replace (n - t) with (S (n - 1 - t)) by lia.
    apply take_S_r. exact Hr.
Qed.

(** The decoder loop of [forward] from iteration [t0] on. *)
Lemma forward_decoder_loop (residuals : list X) :
  length residuals = n ->
  forall k t0 stages pre x,
    t0 + k = n -> length stages = k ->
    decoder self =
      pre ++ concat (zip_with D (map (fun t => n - 1 - t) (seq t0 k)) stages) ->
    Z.of_nat (length pre) =
      (Z.of_nat t0 * step -
       (if fd then 0 else if (t0 =? 0)%nat then 0 else 1))%Z ->
    Py.foldM (forward_decoder_step call call2 cat cfg self residuals) x
      (combine
         (map (fun t => (Z.of_nat n - 1 - Z.of_nat t)%Z) (seq t0 k))
         (map (fun t => (start + Z.of_nat t * step)%Z) (seq t0 k))) =
    decoder_in_order call call2 cat
      (concat (zip_with D (map (fun t => n - 1 - t) (seq t0 k)) stages))
      x (firstn (n - t0) residuals) None.
Proof.
  intros Hres. induction k as [|k IH];
    intros t0 stages pre x Hn Hstages Hdec Hpre.
  { destruct stages; [reflexivity | discriminate]. }
  destruct stages as [|stage stages]; [discriminate|].
  cbn [seq map zip_with concat combine Py.foldM] in *.
  rewrite forward_decoder_step_eq.
  destruct (residual_of_iteration residuals t0 Hres ltac:(lia))
    as (residual & Hget & Htake).
  rewrite Hget, Htake.
  set (rest := concat (zip_with D (map (fun t => n - 1 - t) (seq (S t0) k))
                         stages)) in *.
  set (earlier := firstn (n - 1 - t0) residuals) in *.
  assert (firstn (n - S t0) residuals = earlier) as Hnext
    by (unfold earlier; f_equal; lia).
  assert (((0 <? start + Z.of_nat t0 * step)%Z || fd) =
          ((n - 1 - t0 + 1 <? n) || fd)) as Hcond.
  { destruct fd; [rewrite !orb_true_r; reflexivity|]. rewrite !orb_false_r.
    destruct (Z.ltb_spec 0 (start + Z.of_nat t0 * step));
      destruct (Nat.ltb_spec (n - 1 - t0 + 1) n); try reflexivity;
      destruct ca; cbn [Py.int_of_bool negb] in *; lia. }
  rewrite Hcond. unfold decoder_stage_modules at 1 in Hdec.
  unfold decoder_stage_modules at 1.
  set (S_t := Sequential stage) in *.
  set (U_t := PatchExpandingV2 (2 * (embed_dim cfg * 2 ^ (n - 1 - t0)))) in *.
  set (A_t := SwinResidualCrossAttention (window_size cfg)
                (embed_dim cfg * 2 ^ (n - 1 - t0))
                (nth (n - 1 - t0) (num_heads cfg) 0)
                (attention_dropout cfg)) in *.
  assert (forall post x',
            decoder self = post ++ rest ->
            Z.of_nat (length post) =
              (Z.of_nat (S t0) * step - (if fd then 0 else 1))%Z ->
            Py.foldM (forward_decoder_step call call2 cat cfg self residuals)
              x'
              (combine
                 (map (fun t => (Z.of_nat n - 1 - Z.of_nat t)%Z)
                    (seq (S t0) k))
                 (map (fun t => (start + Z.of_nat t * step)%Z)
                    (seq (S t0) k))) =
            decoder_in_order call call2 cat rest x' earlier None) as Hgo.
  { intros post x' Hpost Hlen. rewrite <- Hnext.
    apply (IH (S t0) stages post x');
      [lia | cbn in Hstages; lia | exact Hpost|].
    rewrite Hlen. cbn [Nat.eqb]. reflexivity. }
  assert ((n - 1 - t0 + 1 <? n) = negb (t0 =? 0)) as Hup.
  { destruct (Nat.ltb_spec (n - 1 - t0 + 1) n);
      destruct (Nat.eqb_spec t0 0); cbn [negb]; try reflexivity; lia. }
  rewrite Hup in Hdec |- *.
  destruct (negb (t0 =? 0) || fd) eqn:Hhas; destruct ca eqn:Hca;
    cbn [app Py.int_of_bool] in Hdec, Hpre |- *;
    cbn [mbind Py.result_bind Py.bind decoder_in_order].
  - (* upsample, cross attention, stage *)
    assert (Z.of_nat (length pre) = start + Z.of_nat t0 * (2 + 1))%Z as Hi.
    { destruct fd; cbn [negb Py.int_of_bool]; [lia|].
      rewrite orb_false_r in Hhas. destruct (t0 =? 0); [discriminate|]. lia. }
    rewrite Hdec at 1.
    rewrite (list_getitem_middle pre U_t (A_t :: S_t :: rest)) by lia.
    cbn [mbind Py.result_bind Py.bind].
    unfold U_t at 2. fold U_t.
    destruct (call U_t x) as [x1|e]; [|reflexivity].
    cbn [mbind Py.result_bind Py.bind].
    replace (decoder self) with ((pre ++ [U_t]) ++ A_t :: S_t :: rest) at 1
      by (rewrite Hdec, <- app_assoc; reflexivity).
    rewrite (list_getitem_middle (pre ++ [U_t]) A_t (S_t :: rest))
      by (rewrite length_app; cbn [length]; lia).
    cbn [mbind Py.result_bind Py.bind decoder_in_order].
    unfold A_t at 2. fold A_t.
    rewrite rev_app_distr. cbn [rev app].
    destruct (call2 A_t x1 residual) as [fused|e]; [|reflexivity].
    cbn [mbind Py.result_bind Py.bind decoder_in_order].
    unfold S_t at 2. fold S_t. rewrite rev_involutive.
    destruct (cat x1 fused) as [x2|e]; [|reflexivity].
    cbn [mbind Py.result_bind Py.bind].
    replace (decoder self) with ((pre ++ [U_t; A_t]) ++ S_t :: rest)
      by (rewrite Hdec, <- app_assoc; reflexivity).
    rewrite (list_getitem_middle (pre ++ [U_t; A_t]) S_t rest)
      by (rewrite length_app; cbn [length]; lia).
    cbn [mbind Py.result_bind Py.bind].
    destruct (call S_t x2) as [x3|e]; [|reflexivity].
    cbn [mbind Py.result_bind Py.bind].
    apply (Hgo (pre ++ [U_t; A_t; S_t])).
    + rewrite Hdec, <- app_assoc. reflexivity.
    + rewrite length_app. cbn [length].
      destruct fd; cbn [negb Py.int_of_bool] in *; lia.
  - (* upsample, stage *)
    assert (Z.of_nat (length pre) = start + Z.of_nat t0 * (2 + 0))%Z as Hi.
    { destruct fd; cbn [negb Py.int_of_bool]; [lia|].
      rewrite orb_false_r in Hhas. destruct (t0 =? 0); [discriminate|]. lia. }
    rewrite Hdec at 1.
    rewrite (list_getitem_middle pre U_t (S_t :: rest)) by lia.
    cbn [mbind Py.result_bind Py.bind].
    unfold U_t at 2. fold U_t.
    destruct (call U_t x) as [x1|e]; [|reflexivity].
    cbn [mbind Py.result_bind Py.bind decoder_in_order].
    unfold S_t at 2. fold S_t.
    rewrite rev_app_distr. cbn [rev app]. rewrite rev_involutive.
    destruct (cat x1 residual) as [x2|e]; [|reflexivity].
    cbn [mbind Py.result_bind Py.bind].
    replace (decoder self) with ((pre ++ [U_t]) ++ S_t :: rest)
      by (rewrite Hdec, <- app_assoc; reflexivity).
    rewrite (list_getitem_middle (pre ++ [U_t]) S_t rest)
      by (rewrite length_app; cbn [length]; lia).
    cbn [mbind Py.result_bind Py.bind].
    destruct (call S_t x2) as [x3|e]; [|reflexivity].
    cbn [mbind Py.result_bind Py.bind].
    apply (Hgo (pre ++ [U_t; S_t])).
    + rewrite Hdec, <- app_assoc. reflexivity.
    + rewrite length_app. cbn [length].
      destruct fd; cbn [negb Py.int_of_bool] in *; lia.
  - (* cross attention, stage: the first iteration without a final
       downsample *)
    apply orb_false_iff in Hhas as [Ht0 Hfd].
    apply negb_false_iff, Nat.eqb_eq in Ht0. subst t0.
    rewrite Hfd in *. cbn [negb Py.int_of_bool Nat.eqb] in *.
    assert (length pre = 0) as Hnil by lia.
    destruct pre; [|discriminate]. cbn [app] in Hdec.
    rewrite Hdec at 1.
    rewrite (list_getitem_middle [] A_t (S_t :: rest)) by (cbn; lia).
    cbn [mbind Py.result_bind Py.bind].
    unfold A_t at 2. fold A_t.
    rewrite rev_app_distr. cbn [rev app].
    destruct (call2 A_t x residual) as [fused|e]; [|reflexivity].
    cbn [mbind Py.result_bind Py.bind decoder_in_order].
    unfold S_t at 2. fold S_t. rewrite rev_involutive.
    destruct (cat x fused) as [x2|e]; [|reflexivity].
    cbn [mbind Py.result_bind Py.bind].
    rewrite Hdec at 1.
    rewrite (list_getitem_middle [A_t] S_t rest) by (cbn; lia).
    cbn [mbind Py.result_bind Py.bind].
    destruct (call S_t x2) as [x3|e]; [|reflexivity].
    cbn [mbind Py.result_bind Py.bind].
    apply (Hgo [A_t; S_t]); [exact Hdec|]. cbn [length]. lia.
  - (* stage alone *)
    apply orb_false_iff in Hhas as [Ht0 Hfd].
    apply negb_false_iff, Nat.eqb_eq in Ht0. subst t0.
    rewrite Hfd in *. cbn [negb Py.int_of_bool Nat.eqb] in *.
    assert (length pre = 0) as Hnil by lia.
    destruct pre; [|discriminate]. cbn [app] in Hdec.
    unfold S_t at 2. fold S_t.
    rewrite rev_app_distr. cbn [rev app]. rewrite rev_involutive.
    destruct (cat x residual) as [x2|e]; [|reflexivity].
    cbn [mbind Py.result_bind Py.bind].
    rewrite Hdec at 1.
    rewrite (list_getitem_middle [] S_t rest) by (cbn; lia).
    cbn [mbind Py.result_bind Py.bind].
    destruct (call S_t x2) as [x3|e]; [|reflexivity].
    cbn [mbind Py.result_bind Py.bind].
    apply (Hgo [S_t]); [exact Hdec|]. cbn [length]. lia.
Qed.


Lemma rev_seq (m : nat) :
  rev (seq 0 m) = map (fun t => m - 1 - t) (seq 0 m).
Proof.
  induction m as [|m IH]; [reflexivity|].
  rewrite seq_S at 1. rewrite rev_app_distr. cbn [rev app plus].
  rewrite IH. cbn [seq map].
  rewrite <- seq_shift, map_map.
  assert (forall a b (u v : list nat), a = b -> u = v -> a :: u = b :: v)
    as Hcons by (intros; subst; reflexivity).
  apply Hcons; [lia|]. apply map_ext_in.
  intros t Ht. apply in_seq in Ht. lia.
Qed.

(** The two loops of [forward] on a network built by [__init__]. *)
Lemma forward_passes :
  __init__ cfg = Ok self ->
  (forall x,
     Py.foldM (forward_encoder_step call cfg self) (x, [])
       (Py.range 0 (Z.of_nat (length (encoder self))) 2) =
     encoder_in_order call (encoder self) x []) /\
  (forall x x' residuals,
     encoder_in_order call (encoder self) x [] = Ok (x', residuals) ->
     length residuals = n) /\
  (forall x residuals,
     length residuals = n ->
     Py.foldM (forward_decoder_step call call2 cat cfg self residuals) x
       (combine
          (Py.range (Z.of_nat (length residuals) - 1) (-1) (-1))
          (Py.range start (Z.of_nat (length (decoder self))) step)) =
     decoder_in_order call call2 cat (decoder self) x residuals None).
Proof.
  intros Hinit.
  destruct (init_layout cfg self Hinit) as (es & ds & Hes & Hds & Henc & Hdec).
  cbv zeta in *. rewrite rev_seq in Hdec.
  split; [|split].
  - intros x. destruct (Nat.eq_dec n 0) as [Hz|Hpos].
    { rewrite Henc, Hz. destruct es; [reflexivity|].
      rewrite Hz in Hes. discriminate. }
    pose proof (length_encoder_groups n 0 es Hes eq_refl ltac:(lia)) as Hlen.
    rewrite <- Henc in Hlen.
    rewrite (range_up 0 (Z.of_nat (length (encoder self))) 2 n).
    2:{ lia. }
    2:{ rewrite Hlen. destruct fd.
        - symmetry. apply (Z.div_unique _ _ _ 1); lia.
        - symmetry. apply (Z.div_unique _ _ _ 0); lia. }
    rewrite (forward_encoder_loop Hlen n 0 es [] x []); try reflexivity;
      try assumption.
    rewrite <- Henc. reflexivity.
  - intros x x' residuals Hrun. rewrite Henc in Hrun.
    apply (encoder_in_order_residuals n 0 es) in Hrun; [|exact Hes].
    exact Hrun.
  - intros x residuals Hres. rewrite Hres, range_down.
    destruct (Nat.eq_dec n 0) as [Hz|Hpos].
    { rewrite Hdec, Hz. destruct ds; [reflexivity|].
      rewrite Hz in Hds. discriminate. }
    pose proof (length_decoder_groups n 0 ds Hds ltac:(lia)) as Hlen.
    rewrite <- Hdec in Hlen.
    replace ((0 =? 0) && (0 <? n)) with true in Hlen
      by (symmetry; apply andb_true_intro; split;
          [reflexivity | apply Nat.ltb_lt; lia]).
    rewrite (range_up start (Z.of_nat (length (decoder self))) step n).
    2:{ destruct ca; cbn; lia. }
    2:{ rewrite Hlen.
        destruct fd, ca; cbn [negb Py.int_of_bool].
        - symmetry. apply (Z.div_unique _ _ _ 2); lia.
        - symmetry. apply (Z.div_unique _ _ _ 1); lia.
        - symmetry. apply (Z.div_unique _ _ _ 2); lia.
        - symmetry. apply (Z.div_unique _ _ _ 1); lia. }
    rewrite (forward_decoder_loop residuals Hres n 0 ds [] x);
      try reflexivity; try assumption.
    + rewrite <- Hdec, Nat.sub_0_r, <- Hres, firstn_all. reflexivity.
    + cbn [length Nat.eqb]. destruct fd; lia.
Qed.

(** X22. On a network built by [__init__], the index arithmetic of the two
    loops of [forward] walks the module lists from one end to the other:
    whatever the modules compute, the loops give what calling every module
    of [self.encoder], [self.middle] and [self.decoder] once, in list
    order and according to its kind, gives, with the residuals taken last
    in, first out. *)
Theorem forward_calls_modules_in_order (x : X) :
  __init__ cfg = Ok self ->
  forward_stages call call2 cat through_middle cfg self x =
  forward_in_order call call2 cat through_middle self x.
Proof.
  intros Hinit. destruct (forward_passes Hinit) as (Henc & Hres & Hdec).
  unfold forward_stages, forward_in_order. rewrite Henc.
  destruct (encoder_in_order call (encoder self) x []) as [[x1 residuals]|e]
    eqn:Hrun; [|reflexivity].
  cbn [mbind Py.result_bind Py.bind].
  destruct (through_middle (middle self) x1) as [x2|e]; [|reflexivity].
  cbn [mbind Py.result_bind Py.bind].
  apply Hdec. exact (Hres _ _ _ Hrun).
Qed.


Lemma encoder_in_order_total (idxs : list nat) (stages : list (list layer))
    (x : X) (residuals : list X) :
  (forall m y,
     match m with SwinResidualCrossAttention _ _ _ _ => False | _ => True end ->
     exists z, call m y = Ok z) ->
  exists r,
    encoder_in_order call (concat (zip_with G idxs stages)) x residuals =
    Ok r.
Proof.
  intros Hcall. revert stages x residuals.
  induction idxs as [|i idxs IH]; intros stages x residuals.
  { exists (x, residuals). reflexivity. }
  destruct stages as [|stage stages];
    [exists (x, residuals); reflexivity|].
  cbn [zip_with concat]. unfold encoder_stage_modules at 1.
  cbn [app encoder_in_order].
  destruct (Hcall (Sequential stage) x I) as [x1 ->].
  cbn [mbind Py.result_bind Py.bind].
  destruct ((i + 1 <? n) || fd); cbn [app encoder_in_order]; [|apply IH].
  destruct (Hcall (PatchMergingV2 (embed_dim cfg * 2 ^ i)) x1 I) as [x2 ->].
  cbn [mbind Py.result_bind Py.bind]. apply IH.
Qed.

Lemma decoder_in_order_total (idxs : list nat) (stages : list (list layer))
    (x : X) (residuals : list X) :
  (forall m y,
     match m with SwinResidualCrossAttention _ _ _ _ => False | _ => True end ->
     exists z, call m y = Ok z) ->
  (forall w e h d y r,
     exists z, call2 (SwinResidualCrossAttention w e h d) y r = Ok z) ->
  (forall y r, exists z, cat y r = Ok z) ->
  length idxs <= length residuals ->
  exists z,
    decoder_in_order call call2 cat (concat (zip_with D idxs stages)) x
      residuals None = Ok z.
Proof.
  intros Hcall Hcall2 Hcat. revert stages x residuals.
  induction idxs as [|i idxs IH]; intros stages x residuals Hlen.
  { exists x. reflexivity. }
  destruct stages as [|stage stages]; [exists x; reflexivity|].
  cbn [zip_with concat]. unfold decoder_stage_modules at 1.
  destruct (rev residuals) as [|residual earlier] eqn:Hrev.
  { apply (f_equal (@length X)) in Hrev. rewrite length_rev in Hrev.
    cbn in Hrev, Hlen. lia. }
  assert (length idxs <= length (rev earlier)) as Hlen'.
  { apply (f_equal (@length X)) in Hrev. rewrite length_rev in Hrev.
    rewrite length_rev. cbn in Hrev, Hlen. lia. }
  assert (forall y,
            exists z,
              decoder_in_order call call2 cat
                ((if ca
                  then [SwinResidualCrossAttention (window_size cfg)
                          (embed_dim cfg * 2 ^ i)
                          (nth i (num_heads cfg) 0) (attention_dropout cfg)]
                  else []) ++ [Sequential stage] ++
                 concat (zip_with D idxs stages)) y residuals None = Ok z)
    as Hrest.
  { intros y. destruct ca; cbn [app decoder_in_order]; rewrite Hrev.
    - destruct (Hcall2 (window_size cfg) (embed_dim cfg * 2 ^ i)
                  (nth i (num_heads cfg) 0) (attention_dropout cfg)
                  y residual) as [fused ->].
      cbn [mbind Py.result_bind Py.bind].
      destruct (Hcat y fused) as [y1 ->].
      cbn [mbind Py.result_bind Py.bind].
      destruct (Hcall (Sequential stage) y1 I) as [y2 ->].
      cbn [mbind Py.result_bind Py.bind]. apply IH, Hlen'.
    - destruct (Hcat y residual) as [y1 ->].
      cbn [mbind Py.result_bind Py.bind].
      destruct (Hcall (Sequential stage) y1 I) as [y2 ->].
      cbn [mbind Py.result_bind Py.bind]. apply IH, Hlen'. }
  rewrite <- !app_assoc.
  destruct ((i + 1 <? n) || fd); cbn [app decoder_in_order]; [|apply Hrest].
  destruct (Hcall (PatchExpandingV2 (2 * (embed_dim cfg * 2 ^ i))) x I)
    as [x1 ->].
  cbn [mbind Py.result_bind Py.bind]. apply Hrest.
Qed.

(** X23. The loops of [forward] never leave the module lists.  On a
    network built by [__init__], if a cross-attention module returns
    whenever it is called with two arguments, every other module whenever
    it is called with one, and the concatenation and the middle block
    return, then the encoder, middle and decoder passes of [forward]
    return: no index is out of range, no residual is missing, and no module
    is called with the wrong number of arguments. *)
Theorem forward_stages_returns (x : X) :
  __init__ cfg = Ok self ->
  (forall m y,
     match m with SwinResidualCrossAttention _ _ _ _ => False | _ => True end ->
     exists z, call m y = Ok z) ->
  (forall w e h d y r,
     exists z, call2 (SwinResidualCrossAttention w e h d) y r = Ok z) ->
  (forall y r, exists z, cat y r = Ok z) ->
  (forall modules y, exists z, through_middle modules y = Ok z) ->
  exists z, forward_stages call call2 cat through_middle cfg self x = Ok z.
Proof.
  intros Hinit Hcall Hcall2 Hcat Hmid.
  destruct (forward_passes Hinit) as (Henc & Hres & Hdec).
  destruct (init_layout cfg self Hinit) as (es & ds & Hes & Hds & He & Hd).
  cbv zeta in *.
  unfold forward_stages. rewrite Henc.
  destruct (encoder_in_order_total (seq 0 n) es x [] Hcall)
    as [[x1 residuals] Hrun].
  rewrite <- He in Hrun. rewrite Hrun.
  cbn [mbind Py.result_bind Py.bind].
  destruct (Hmid (middle self) x1) as [x2 ->].
  cbn [mbind Py.result_bind Py.bind].
  pose proof (Hres _ _ _ Hrun) as Hn.
  rewrite (Hdec x2 residuals Hn), Hd.
  apply decoder_in_order_total; try assumption.
  rewrite length_rev, length_seq. lia.
Qed.

End Forward.
End XNetForwardFacts.

(** ** The statements at concrete inputs *)

Module Checks.
Import Torch XSwin Examples.

(** A 4x4 map with two channels, cut into 2x2 windows and merged back. *)
Lemma extract_then_merge_is_identity_witness :
  let x := arange [1; 4; 4; 2] in
  (wf x /\ shape x = [1; 4; 4; 2] /\ Nat.divide 2 4 /\ Nat.divide 2 4) /\
  exists w,
    _extract_windows x 2 2 None None = Ok w /\
    shape w = [1; 4 / 2; 4 / 2; 2 * 2; 2] /\
    merge_windows 2 2 [1] (4 / 2) (4 / 2) 2 w = Ok x.
Proof.
  intros x.
  assert (wf x) as Hwf by reflexivity.
  assert (Nat.divide 2 4) as Hdiv by (exists 2; reflexivity).
  split; [repeat split; assumption|].
  destruct (XSwinFacts.extract_then_merge_is_identity x 1 4 4 2 2 2
              Hwf eq_refl Hdiv Hdiv) as [Hok Hback].
  destruct Hok as [w Hw]; [lia | lia |].
  exists w. split; [exact Hw|]. exact (Hback w Hw).
Defined.

Example extract_windows_4x4 :
  _extract_windows (arange [1; 4; 4; 1]) 2 2 None None =
  Ok (mkTensor [1; 2; 2; 4; 1]
        [0; 1; 4; 5; 2; 3; 6; 7; 8; 9; 12; 13; 10; 11; 14; 15]%Z).
Proof. reflexivity. Qed.

(** An empty feature map, or one with more than one batch axis, is not
    accepted by [_extract_windows]. *)
Example extract_windows_empty_height :
  _extract_windows (arange [1; 0; 4; 1]) 2 2 None None = Raise RuntimeError.
Proof. reflexivity. Qed.

Example extract_windows_two_batch_axes :
  _extract_windows (arange [1; 1; 4; 4; 1]) 2 2 None None =
  Raise RuntimeError.
Proof. reflexivity. Qed.

(** C3 as it is stated fails.  A map with two batch axes, of shape
    [[1, 1, 4, 4, 1]], has its height and its width divisible by the 2x2
    window, and so has the empty map of shape [[1, 0, 4, 1]]; for neither
    of them does [_extract_windows] return windows to merge back. *)
Lemma windows_need_one_batch_axis :
  let x := arange [1; 1; 4; 4; 1] in
  let empty := arange [1; 0; 4; 1] in
  (wf x /\ Nat.divide 2 4 /\ Nat.divide 2 4 /\
   _extract_windows x 2 2 None None = Raise RuntimeError /\
   ~ exists w, _extract_windows x 2 2 None None = Ok w) /\
  (wf empty /\ Nat.divide 2 0 /\ Nat.divide 2 4 /\
   _extract_windows empty 2 2 None None = Raise RuntimeError /\
   ~ exists w, _extract_windows empty 2 2 None None = Ok w).
Proof.
  intros x empty.
  assert (Nat.divide 2 4) as H4 by (exists 2; reflexivity).
  assert (Nat.divide 2 0) as H0 by (exists 0; reflexivity).
  split; (split; [reflexivity|]); (split; [assumption|]);
    (split; [assumption|]); (split; [reflexivity|]);
    intros [w Hw]; discriminate Hw.
Defined.

Lemma patch_expanding_shape_witness :
  let x := arange [1; 2; 2; 8] in
  (shape x = [1; 2; 2; 8] /\ Nat.divide 4 8) /\
  exists y,
    _patch_expanding_pad x = Ok y /\
    shape y = [1; 2 * 2; 2 * 2; 8 / 4] /\
    numel (shape y) = numel (shape x) /\
    length (data y) = numel (shape x).
Proof.
  intros x.
  assert (Nat.divide 4 8) as Hdiv by (exists 2; reflexivity).
  split; [split; [reflexivity | exact Hdiv]|].
  apply (XSwinFacts.patch_expanding_shape x 1 2 2 8);
    [reflexivity | exact Hdiv].
Defined.

Example patch_expanding_2x2 :
  _patch_expanding_pad (arange [1; 1; 2; 4]) =
  Ok (mkTensor [1; 2; 4; 1] [0; 1; 4; 5; 2; 3; 6; 7]%Z).
Proof. reflexivity. Qed.

(** A channel count that is not a multiple of four is padded and then
    cannot be viewed as [2 x 2 x (C // 4)]. *)
Example patch_expanding_unaligned :
  _patch_expanding_pad (arange [1; 1; 1; 5]) = Raise RuntimeError.
Proof. reflexivity. Qed.

Example patch_expanding_two_batch_axes :
  _patch_expanding_pad (arange [1; 1; 1; 1; 4]) = Raise RuntimeError.
Proof. reflexivity. Qed.

(** C4 as it is stated fails.  With two batch axes, shape
    [[1, 1, 1, 1, 4]], or with none, shape [[1, 1, 4]], the channels are a
    multiple of four and no tensor is returned: the permutation of
    [_patch_expanding_pad] names six axes. *)
Lemma expanding_needs_one_batch_axis :
  let x := arange [1; 1; 1; 1; 4] in
  let y := arange [1; 1; 4] in
  Nat.divide 4 4 /\
  (_patch_expanding_pad x = Raise RuntimeError /\
   ~ exists z, _patch_expanding_pad x = Ok z) /\
  (_patch_expanding_pad y = Raise RuntimeError /\
   ~ exists z, _patch_expanding_pad y = Ok z).
Proof.
  intros x y. split; [exists 1; reflexivity|].
  split; (split; [reflexivity | intros [z Hz]; discriminate Hz]).
Defined.

(** C5: a 5x4 map against a 4x4 map.  Both give 2x2 windows of 2x2, the
    assertion passes and the call returns. *)
Lemma mismatched_heights_pass_assertion :
  let x := arange [1; 5; 4; 1] in
  let residual := arange [1; 4; 4; 1] in
  shape x <> shape residual /\
  Py.is_ok (forward query_attention x residual) = true /\
  forward query_attention x residual <> Raise AssertionError.
Proof.
  intros x residual. split; [discriminate|]. split; [reflexivity|].
  intros Hf. vm_compute in Hf. discriminate.
Defined.

Lemma forward_shape_check_witness :
  let x := arange [1; 6; 4; 1] in
  let residual := arange [1; 4; 4; 1] in
  (shape x = [1; 6; 4; 1] /\ shape residual = [1; 4; 4; 1] /\
   0 < 2 /\ 0 < 2 /\ 2 <= 6 /\ 2 <= 4 /\ 2 <= 4 /\ 2 <= 4) /\
  exists x_context residual_context,
    _extract_windows x 2 2 None None = Ok x_context /\
    _extract_windows residual 2 2 None None = Ok residual_context /\
    forward query_attention x residual =
    if bool_decide
         ((1, window_count 6 2, window_count 4 2, 1) =
          (1, window_count 4 2, window_count 4 2, 1))
    then attend query_attention x_context residual_context
    else Raise AssertionError.
Proof.
  intros x residual. split; [repeat split; lia|].
  apply (XSwinFacts.forward_shape_check query_attention x residual
           1 6 4 1 1 4 4 1); cbn; solve [reflexivity | lia].
Defined.

Example forward_same_map_returns_it :
  forward query_attention (arange [2; 4; 6; 3]) (arange [2; 4; 6; 3]) =
  Ok (arange [2; 4; 6; 3]).
Proof. vm_compute. reflexivity. Qed.

Example forward_taller_map_raises :
  forward query_attention (arange [1; 6; 4; 1]) (arange [1; 4; 4; 1]) =
  Raise AssertionError.
Proof. reflexivity. Qed.

(** C6: with four channels nothing has to be padded, and the distributed
    path is never reached. *)
Lemma distributed_aligned_returns :
  _pad_expansion (arange [1; 1; 2; 4]) true = Ok (arange [1; 1; 2; 4]) /\
  _pad_expansion (arange [1; 1; 2; 4]) true <> Raise NotImplementedError.
Proof. split; [reflexivity | discriminate]. Defined.

Lemma pad_expansion_cases_witness :
  let x := arange [1; 1; 2; 3] in
  shape x = [1] ++ [1; 2; 3] /\
  _pad_expansion x true = Raise NotImplementedError /\
  _pad_expansion x false =
  Ok (mkTensor [1; 1; 2; 4] [0; 1; 2; 0; 3; 4; 5; 0]%Z).
Proof.
  intros x. split; [reflexivity|].
  destruct (XSwinFacts.pad_expansion_cases x [1] 1 2 3 eq_refl)
    as [_ Hpad].
  destruct (Hpad ltac:(discriminate)) as [Hraise _].
  split; [exact Hraise | reflexivity].
Defined.

(** C10: a two-dimensional input fails the dimension assertion, before
    the unassigned local is read. *)
Lemma flat_input_fails_assertion :
  VitBlock.forward passthrough_block (arange [2; 2]) = Raise AssertionError /\
  VitBlock.forward passthrough_block (arange [2; 2])
  <> Raise UnboundLocalError.
Proof. split; [reflexivity | discriminate]. Defined.

Example sequence_input_reads_unassigned_local :
  VitBlock.forward passthrough_block (arange [1; 2; 2]) =
  Raise UnboundLocalError.
Proof. reflexivity. Qed.

End Checks.

Module LossChecks.
Import GeodesicLoss GeodesicLossFacts.
#[local] Open Scope R_scope.

(** C1: the identity transform against itself.  The rotation term is
    [acos 0.9999], not 0. *)
Lemma identity_rotation_loss_is_not_zero :
  ~ exists rest,
      forward default_loss [identity_transform] [identity_transform] true =
      Ok (Terms (Some 0 :: Some 0 :: rest)).
Proof.
  intros [rest Hzero].
  destruct (forward_diag default_loss [identity_transform]) as [rest' Hf].
  - discriminate.
  - repeat constructor. exact identity_orthogonal.
  - rewrite Hf in Hzero. injection Hzero as Hacos _.
    pose proof acos_clamped_positive. lra.
Defined.

Lemma identical_transforms_loss_witness :
  ([identity_transform] <> [] /\ Forall orthogonal [identity_transform]) /\
  (exists rest,
     forward default_loss [identity_transform] [identity_transform] true =
     Ok (Terms (Some (acos 0.9999) :: Some 0 :: rest))) /\
  0 < acos 0.9999.
Proof.
  assert ([identity_transform] <> []) as Hne by discriminate.
  assert (Forall orthogonal [identity_transform]) as Ho
    by (repeat constructor; exact identity_orthogonal).
  split; [split; [exact Hne | exact Ho]|].
  destruct (identical_transforms_loss default_loss [identity_transform])
    as ([rest Hterms] & Hpos & Hexact).
  rewrite (Hexact Hne Ho) in Hterms, Hpos.
  split; [exists rest; exact Hterms|].
  destruct (Hpos Hne) as (r & [= <-] & _ & Hr). exact Hr.
Defined.

End LossChecks.

Module ScheduleChecks.
Import XNet XNetFacts Examples.

Lemma stochastic_depth_schedule_witness :
  let cfg := swin_tiny in
  let p := stochastic_depth_prob cfg in
  let T := total_stage_blocks cfg in
  exists net v,
    __init__ cfg = Ok net /\
    sd_probs_of (encoder net ++ decoder net) =
      map (fun k => sd_prob p k T) (seq 0 (2 * T)) /\
    sd_prob p 0 T = Some 0%Q /\
    sd_prob p (2 * T - 1) T = Some v /\
    (p - p * (1 # 2 ^ 51) <= v <= p + p * (1 # 2 ^ 51))%Q.
Proof.
  intros cfg p T.
  destruct (__init__ cfg) as [net|] eqn:Hnet.
  2:{ exfalso. revert Hnet. vm_compute. discriminate. }
  destruct (stochastic_depth_schedule cfg net Hnet)
    as ((_ & _ & Hall) & Hrest).
  destruct Hrest as (_ & Hsmall); [cbn; lia|].
  destruct Hsmall as (H0 & Hfin & _ & Hlast); [reflexivity|].
  destruct (Hfin ltac:(split; discriminate) (2 * T - 1)) as (v & Hv & _);
    [cbn; lia|].
  exists net, v. split; [reflexivity|]. split; [exact Hall|].
  split; [exact H0|]. split; [exact Hv|].
  apply Hlast; [discriminate | exact Hv].
Defined.

(** C7 as it is stated fails.  With two stages of one block each and the
    setting [0.1] the last decoder block gets [0.1 * 3.0 / 3]: the product
    is rounded up, and the quotient is the next float above [0.1],
    [0.10000000000000002], not the configured maximum. *)
Lemma last_block_exceeds_the_maximum :
  let cfg := two_stages in
  let p := stochastic_depth_prob cfg in
  exists net v,
    __init__ cfg = Ok net /\
    length (sd_probs_of (encoder net ++ decoder net)) = 4 /\
    nth 3 (sd_probs_of (encoder net ++ decoder net)) None = Some v /\
    (p < v)%Q /\
    (v == p + (1 # 2 ^ 56))%Q.
Proof.
  intros cfg p.
  destruct (__init__ cfg) as [net|] eqn:Hnet.
  2:{ exfalso. revert Hnet. vm_compute. discriminate. }
  exists net, (7205759403792795 # 2 ^ 56)%Q.
  split; [reflexivity|].
  revert Hnet. vm_compute. intros [= <-]. repeat split.
Defined.

(** Twelve encoder blocks and twelve decoder blocks. *)
Example swin_tiny_block_count : total_stage_blocks swin_tiny = 12.
Proof. reflexivity. Qed.

(** In [swin_tiny] block 23, the last of the decoder, gets [0.1 * 23.0 / 23],
    which is [0.1] again, and block 12, the first of the decoder,
    [0.1 * 12.0 / 23]. *)
Example swin_tiny_last_block :
  match __init__ swin_tiny with
  | Ok net =>
      length (sd_probs_of (encoder net ++ decoder net)) = 24 /\
      nth 23 (sd_probs_of (encoder net ++ decoder net)) None =
      Some one_tenth /\
      nth 0 (sd_probs_of (decoder net)) None = sd_prob one_tenth 12 12
  | Raise _ => False
  end.
Proof. vm_compute. repeat split. Qed.

(** The four blocks of [two_stages] do not lie the same amount apart. *)
Example two_stages_steps :
  exists v1 v2 v3,
    map (fun k => sd_prob one_tenth k 2) (seq 0 4) =
    [Some 0%Q; Some v1; Some v2; Some v3] /\
    (v2 - v1 == v1 - 0)%Q /\ ~ (v3 - v2 == v2 - v1)%Q.
Proof.
  do 3 eexists. split; [vm_compute; reflexivity|].
  split; [vm_compute; reflexivity | intros H; vm_compute in H; discriminate].
Qed.

(** The operations of [Binary64] against the binary64 floats of Rocq's
    kernel: the literal [0.1], the last block of [two_stages], a quotient
    that is rounded down, a subnormal product, a tie among the subnormal
    numbers, and an overflow. *)
Section Kernel.
Import PrimFloat.

Example one_tenth_is_a_float :
  Binary64.round (1 # 10) = Some one_tenth /\
  Binary64.of_kernel 0x1.999999999999ap-4%float = Some one_tenth.
Proof. split; vm_compute; reflexivity. Qed.

Example last_block_in_kernel_floats :
  Binary64.of_kernel (0x1.999999999999ap-4 * 3 / 3)%float =
  sd_prob one_tenth 3 2.
Proof. vm_compute. reflexivity. Qed.

Example one_third_in_kernel_floats :
  Binary64.of_kernel (1 / 3)%float = Binary64.div (Some 1%Q) 3.
Proof. vm_compute. reflexivity. Qed.

Example subnormal_in_kernel_floats :
  Binary64.of_kernel (0x1p-1074 * 0x1.8p-1)%float =
  Binary64.mul (Some (1 # 2 ^ 1074)%Q) (Some (3 # 4)%Q) /\
  Binary64.of_kernel (0x1.8p-1073 * 0x1p-1)%float =
  Binary64.mul (Some (3 # 2 ^ 1074)%Q) (Some (1 # 2)%Q) /\
  Binary64.of_kernel (0x1p-1074 * 0x1p-1)%float =
  Binary64.mul (Some (1 # 2 ^ 1074)%Q) (Some (1 # 2)%Q).
Proof. repeat split; vm_compute; reflexivity. Qed.

Example overflow_in_kernel_floats :
  Binary64.of_kernel (0x1.fffffffffffffp1023 * 2)%float =
  Binary64.mul (Binary64.of_int (2 ^ 1024 - 2 ^ 971)) (Some 2%Q) /\
  Binary64.of_kernel (0x1.fffffffffffffp1023 * 2)%float = None /\
  Binary64.of_kernel 0x1.fffffffffffffp1023%float =
  Binary64.round (inject_Z (2 ^ 1024 - 2 ^ 970 - 1)).
Proof. repeat split; vm_compute; reflexivity. Qed.

End Kernel.

End ScheduleChecks.

Module DatasetChecks.
Import PoseDataModel PoseDataFacts Examples.

Lemma scanned_index_is_consistent_witness :
  exists pd,
    __init__ small_world "root" "models" None = Ok pd /\
    size (data pd) = 3 /\
    size (data pd) = leaves (nested_data pd) /\
    forall selected_level,
    exists split,
      level_split small_world pd selected_level = Ok split /\
      forall level scene variant,
        is_Some (data split !! (level, scene, variant)) <->
        is_Some (data pd !! (level, scene, variant)) /\
        level = selected_level.
Proof.
  destruct (__init__ small_world "root" "models" None) as [pd|] eqn:Hinit.
  - exists pd. split; [reflexivity|]. split.
    + revert Hinit. vm_compute. intros [= <-]. reflexivity.
    + exact (scanned_index_is_consistent unit unit small_world
               "root" "models" pd Hinit).
  - exfalso. revert Hinit. vm_compute. discriminate.
Defined.

End DatasetChecks.

Module PropertyChecks.
Import Torch XSwin Examples.

Section Losses.
Import GeodesicLoss GeodesicLossFacts LossProperties.
#[local] Open Scope R_scope.

Lemma rotation_loss_range_witness :
  [identity_transform] <> [] /\
  exists r,
    rotation_loss [identity_transform] [translated 1 0 0] = Some r /\
    acos 0.9999 <= r <= PI - acos 0.9999 /\ 0 < r < PI.
Proof.
  split; [discriminate|].
  apply (rotation_loss_range [identity_transform] [translated 1 0 0]);
    discriminate.
Defined.

Lemma forward_mean_outcomes_witness :
  exists l,
    forward default_loss [identity_transform] [translated 1 0 0] false =
    Ok (Mean (Some l)) /\
    acos 0.9999 / 3 <= l /\ 0 < l.
Proof.
  destruct (forward_mean_outcomes default_loss [identity_transform]
              [translated 1 0 0]) as (_ & _ & Hloss).
  apply Hloss; [discriminate | reflexivity|].
  intros w [= <-]. lra.
Defined.

Lemma orthogonal_loss_outcomes_witness :
  SpecialOrthogonalLoss_forward 0.1 [] = Raise RuntimeError /\
  exists l,
    SpecialOrthogonalLoss_forward 0.1 [identity_matrices] = Ok (Some l) /\
    0 <= l.
Proof.
  destruct (orthogonal_loss_outcomes 0.1 []) as (_ & Hempty & _).
  split; [exact (Hempty eq_refl)|].
  destruct (orthogonal_loss_outcomes 0.1 [identity_matrices])
    as (_ & _ & Hloss).
  destruct Hloss as (l & Hl & Hpos & _).
  - discriminate.
  - repeat constructor. discriminate.
  - lra.
  - exists l. split; [exact Hl | exact Hpos].
Defined.

Lemma point_cloud_loss_zero_iff_witness :
  let source : Cloud := fun _ _ i => INR i in
  let pose : Cloud := fun _ i k => eye i k in
  ((0 < 1)%nat /\ (0 < 2)%nat /\ 0 < 1) /\
  exists l,
    PointCloudMSELoss_forward 1 1 2 source source pose = Some l /\ 0 <= l.
Proof.
  intros source pose. split; [repeat split; try lia; lra|].
  destruct (point_cloud_loss_zero_iff 1 1 2 source source pose)
    as (l & Hl & Hpos & _); [lia | lia | lra |].
  exists l. split; [exact Hl | exact Hpos].
Defined.

End Losses.

Import XSwinProperties.

Lemma extract_windows_result_witness :
  let x := arange [1; 4; 4; 1] in
  shape x = [1; 4; 4; 1] /\
  (exists w,
     _extract_windows x 2 2 (Some 1) (Some 1) = Ok w /\
     shape w = [1; 3; 3; 4; 1]) /\
  _extract_windows x 2 2 (Some 0) None = Raise RuntimeError.
Proof.
  intros x. split; [reflexivity|]. split.
  - destruct (extract_windows_result x 1 4 4 1 2 2 (Some 1) (Some 1)
                eq_refl) as [Hok _].
    destruct Hok as (w & Hw & Hs & _); [cbn; lia|].
    exists w. split; [exact Hw | exact Hs].
  - destruct (extract_windows_result x 1 4 4 1 2 2 (Some 0) None eq_refl)
      as [_ Hbad].
    apply Hbad. cbn. lia.
Defined.

Lemma patch_expanding_pad_succeeds_iff_witness :
  let x := arange [1; 1; 1; 5] in
  shape x = [1; 1; 1; 5] /\ _patch_expanding_pad x = Raise RuntimeError.
Proof.
  intros x. split; [reflexivity|].
  destruct (patch_expanding_pad_succeeds_iff x 1 1 1 5 eq_refl) as [_ Hbad].
  apply Hbad; cbn; lia.
Defined.

Lemma patch_expanding_pixel_witness :
  let x := arange [1; 1; 2; 4] in
  shape x = [1; 1; 2; 4 * 1] /\
  exists out,
    _patch_expanding_pad x = Ok out /\
    shape out = [1; 1 * 2; 2 * 2; 1] /\
    get out [0; 1; 2; 0] = 6%Z.
Proof.
  intros x. split; [reflexivity|].
  destruct (patch_expanding_pixel x 1 1 2 1 eq_refl)
    as (out & Hout & Hs & Hget).
  exists out. split; [exact Hout|]. split; [exact Hs|].
  rewrite (Hget 0 1 2 0) by lia. reflexivity.
Defined.

Lemma forward_output_shape_witness :
  let x := arange [1; 5; 4; 1] in
  (shape x = [1; 5; 4; 1] /\ 0 < 2 /\ 2 <= 5 /\ 2 <= 4 /\ 0 < 1) /\
  exists out,
    forward query_attention x x = Ok out /\ shape out = [1; 4; 4; 1].
Proof.
  intros x. split; [repeat split; lia|].
  destruct (forward_output_shape query_attention x x 1 5 4 1)
    as (out & Hout & Hs & _); try reflexivity; try (cbn; lia).
  - intros Q K V. exists Q. split; reflexivity.
  - exists out. split; [exact Hout | exact Hs].
Defined.

Lemma patch_expanding_forward_shape_witness :
  let x := arange [1; 2; 2; 2] in
  (shape x = [1; 2; 2; 2] /\ Nat.Even 2) /\
  exists y,
    PatchExpanding.forward channel_doubling x = Ok y /\
    shape y = [1; 4; 4; 1].
Proof.
  intros x.
  assert (Nat.Even 2) as Heven by (exists 1; reflexivity).
  split; [split; [reflexivity | exact Heven]|].
  destruct (patch_expanding_forward_shape channel_doubling x 1 2 2)
    as [Hok _].
  - intros t Bs Hs. eexists. split; [reflexivity|].
    cbn [shape build]. rewrite Hs, removelast_last. reflexivity.
  - intros t. exists t. split; reflexivity.
  - reflexivity.
  - destruct (Hok Heven) as (y & Hy & Hs). exists y.
    split; [exact Hy | exact Hs].
Defined.

Lemma forward_returning_queries_witness :
  let x := arange [2; 4; 6; 3] in
  (wf x /\ shape x = [2; 2 * 2; 3 * 2; 3]) /\
  forward query_attention x x = Ok x.
Proof.
  intros x.
  assert (wf x) as Hwf by reflexivity.
  split; [split; [exact Hwf | reflexivity]|].
  apply (XSwinFacts.forward_returning_queries query_attention x 2 2 3 3);
    try reflexivity; try exact Hwf; cbn; lia.
Defined.


Section Dataset.
Import PoseDataModel PoseDataFacts PoseDataProperties.
#[local] Open Scope string_scope.

Lemma nested_record_is_flat_record_witness :
  exists pd,
    __init__ small_world "root" "models" None = Ok pd /\
    agree (data pd) (nested_data pd) /\
    __getitem__ pd (Tuple [1; 1; 0]%Z) =
    (variants ← __getitem__ pd (Tuple [1; 1]%Z); subscript unit variants 0%Z).
Proof.
  destruct (__init__ small_world "root" "models" None) as [pd|] eqn:Hinit.
  - exists pd. split; [reflexivity|].
    destruct (nested_record_is_flat_record unit unit small_world
                "root" "models" pd Hinit) as (Hagree & Hwalk & _).
    split; [exact Hagree|]. symmetry. apply Hwalk.
  - exfalso. revert Hinit. vm_compute. discriminate.
Defined.

Lemma scanned_records_come_from_files_witness :
  exists data nested filenames,
    organize_data small_world "root/v2.2" = Ok (data, nested) /\
    listdir small_world "root/v2.2" = Ok filenames /\
    records_from small_world "root/v2.2" filenames data.
Proof.
  destruct (organize_data small_world "root/v2.2") as [[data nested]|]
    eqn:Hscan.
  - destruct (scanned_records_come_from_files unit unit small_world
                "root/v2.2" data nested Hscan) as (filenames & Hls & Hrec).
    exists data, nested, filenames. auto.
  - exfalso. revert Hscan. vm_compute. discriminate.
Defined.

Lemma call_enumerates_records_witness :
  exists pd,
    __init__ small_world "root" "models" None = Ok pd /\
    __len__ pd = size (data pd) /\
    __call__ pd 3 = Raise IndexError /\
    exists key sample,
      __call__ pd (-1) = Ok sample /\ data pd !! key = Some sample.
Proof.
  destruct (__init__ small_world "root" "models" None) as [pd|] eqn:Hinit.
  - exists pd. split; [reflexivity|].
    destruct (call_enumerates_records unit unit small_world
                "root" "models" None pd Hinit) as (Hlen & Hin & Hout & _).
    assert (__len__ pd = 3) as Hthree
      by (revert Hinit; vm_compute; intros [= <-]; reflexivity).
    rewrite Hthree in Hin, Hout.
    split; [exact Hlen|]. split; [apply Hout; lia|].
    destruct (Hin (-1)%Z ltac:(lia)) as (key & sample & Hcall & Hs & _).
    exists key, sample. auto.
  - exfalso. revert Hinit. vm_compute. discriminate.
Defined.



End Dataset.

Section Network.
Import XNet XNetFacts XNetForwardFacts.

Lemma init_requirements_witness :
  exists net,
    __init__ swin_tiny = Ok net /\
    length (window_size swin_tiny) = 2 /\
    3 < length (num_heads swin_tiny).
Proof.
  destruct (__init__ swin_tiny) as [net|] eqn:Hinit.
  - exists net. split; [reflexivity|].
    destruct (init_requirements swin_tiny net Hinit) as (Hheads & Hwin & _).
    split; [apply Hwin; [reflexivity | discriminate]|].
    apply Hheads; [cbn; lia | left; cbn; lia].
  - exfalso. revert Hinit. vm_compute. discriminate.
Defined.

Lemma forward_calls_modules_in_order_witness :
  let call := fun (_ : layer) (x : nat) => Ok (S x) in
  let call2 := fun (_ : layer) (x residual : nat) => Ok (x + residual) in
  let cat := fun (x residual : nat) => Ok (x + residual) in
  let through_middle := fun (_ : list layer) (x : nat) => Ok x in
  exists net,
    __init__ swin_tiny = Ok net /\
    forward_stages call call2 cat through_middle swin_tiny net 0 =
    forward_in_order call call2 cat through_middle net 0.
Proof.
  intros call call2 cat through_middle.
  destruct (__init__ swin_tiny) as [net|] eqn:Hinit.
  - exists net. split; [reflexivity|].
    apply (forward_calls_modules_in_order call call2 cat through_middle
             swin_tiny net 0 Hinit).
  - exfalso. revert Hinit. vm_compute. discriminate.
Defined.

Lemma forward_stages_returns_witness :
  let call := fun (_ : layer) (x : nat) => Ok (S x) in
  let call2 := fun (_ : layer) (x residual : nat) => Ok (x + residual) in
  let cat := fun (x residual : nat) => Ok (x + residual) in
  let through_middle := fun (_ : list layer) (x : nat) => Ok x in
  exists net z,
    __init__ swin_tiny = Ok net /\
    forward_stages call call2 cat through_middle swin_tiny net 0 = Ok z.
Proof.
  intros call call2 cat through_middle.
  destruct (__init__ swin_tiny) as [net|] eqn:Hinit.
  - destruct (forward_stages_returns call call2 cat through_middle
                swin_tiny net 0 Hinit) as [z Hz].
    + intros m y _. eexists. reflexivity.
    + intros w e h d y r. eexists. reflexivity.
    + intros y r. eexists. reflexivity.
    + intros modules y. eexists. reflexivity.
    + exists net, z. split; [reflexivity | exact Hz].
  - exfalso. revert Hinit. vm_compute. discriminate.
Defined.

End Network.

End PropertyChecks.
